(** * BCA: Bluetooth Classic logger -- shallow embedding and verified properties

    The development follows the layout of the repository:

    - [JS]            the JavaScript string and number primitives the screens use,
    - [Regex]         a backtracking matcher for the regular expressions that
                      occur in [LogsScreen.tsx],
    - [LogContext]    [src/context/LogContext.tsx],
    - [Promise]       outcomes of promises, [Promise.race] and timers,
    - [UTCDate]       the UTC accessors of [Date],
    - [LogsScreen]    [src/screens/LogsScreen.tsx],
    - [MainScreen]    [src/screens/MainScreen.tsx] and [src/services/storage.ts],
    - [SafFileModule] [android/.../SafFileModule.kt].

    The properties follow, module by module: the matcher ([RegexFacts]), the
    patterns of the exporter ([Patterns]), the worksheet ([ExportFacts],
    [ExportTheorems]), the run of the export ([ExportRun]), the log context
    ([LogContextFacts]), the device filter, the data listener and the
    timeouts of the main screen ([MainScreenFacts]), its start-up
    ([InitFacts], [Launch]), the native save dialog ([SafFacts]) and the
    timestamps of the live view ([TimestampFacts]).

    A JavaScript string is a sequence of UTF-16 code units.  The model keeps
    the code units below 256 (the Latin-1 range), so a string is a
    [list ascii]; the device protocol and the block lists are plain ASCII. *)

From Stdlib Require Import List String Ascii Bool Arith ZArith Lia DecimalString.
Import ListNotations.

(* ===================================================================== *)
(** * JavaScript primitives *)
(* ===================================================================== *)

Module JS.

Definition str := list ascii.

(** String literals of the source are written [lit "..."]. *)
Definition lit (s : string) : str := list_ascii_of_string s.

Definition show (s : str) : string := string_of_list_ascii s.

Definition code (c : ascii) : nat := nat_of_ascii c.

(** [\d] : the ten ASCII digits. *)
Definition isDigit (c : ascii) : bool :=
  (48 <=? code c) && (code c <=? 57).

(** [\w] : ASCII letters, digits and underscore. *)
Definition isWord (c : ascii) : bool :=
  isDigit c
  || ((65 <=? code c) && (code c <=? 90))
  || ((97 <=? code c) && (code c <=? 122))
  || (code c =? 95).

(** [\s] restricted to Latin-1: TAB, LF, VT, FF, CR, SPACE and NBSP. *)
Definition isSpace (c : ascii) : bool :=
  ((9 <=? code c) && (code c <=? 13)) || (code c =? 32) || (code c =? 160).

(** [String.prototype.toLowerCase], one code unit at a time (Latin-1). *)
Definition lowerChar (c : ascii) : ascii :=
  let n := code c in
  if ((65 <=? n) && (n <=? 90))
     || ((192 <=? n) && (n <=? 222) && negb (n =? 215))
  then ascii_of_nat (n + 32) else c.

Definition toLowerCase (s : str) : str := map lowerChar s.

(** Canonicalisation of a pattern character under the [i] flag
    (upper-casing, Latin-1). *)
Definition canonicalize (c : ascii) : ascii :=
  let n := code c in
  if ((97 <=? n) && (n <=? 122))
     || ((224 <=? n) && (n <=? 254) && negb (n =? 247))
  then ascii_of_nat (n - 32) else c.

Definition eqc (a b : ascii) : bool := Ascii.eqb a b.

Fixpoint startsWith (p s : str) : bool :=
  match p, s with
  | [], _ => true
  | _ :: _, [] => false
  | a :: p', b :: s' => eqc a b && startsWith p' s'
  end.

(** [a === b] on strings. *)
Fixpoint eqs (a b : str) : bool :=
  match a, b with
  | [], [] => true
  | x :: a', y :: b' => eqc x y && eqs a' b'
  | _, _ => false
  end.

(** [String.prototype.includes]. *)
Fixpoint includes (s sub : str) : bool :=
  startsWith sub s ||
  match s with
  | [] => false
  | _ :: s' => includes s' sub
  end.

(** Truthiness of a string: the empty string is falsy. *)
Definition truthy (s : str) : bool :=
  match s with [] => false | _ => true end.

(** [Number.prototype.toString] on a non-negative integer. *)
Definition natToString (n : nat) : str :=
  lit (NilZero.string_of_uint (Nat.to_uint n)).

Definition ZToString (z : Z) : str :=
  lit (NilZero.string_of_int (Z.to_int z)).

Definition digitVal (c : ascii) : Z := Z.of_nat (code c - 48).

(** [parseInt(s, 10)] and [Number(s)] on a string of decimal digits: both
    give the integer the digits denote (exact up to 2^53, which covers the
    13 digits the patterns admit). *)
Definition parseDigits (s : str) : Z :=
  fold_left (fun acc c => 10 * acc + digitVal c)%Z s 0%Z.

(** [String.prototype.slice(0, n)]. *)
Definition slice0 (n : nat) (s : str) : str := firstn n s.

(** [s.replace(/:/g, '-')]. *)
Definition replaceColons (s : str) : str :=
  map (fun c => if eqc c ":"%char then "-"%char else c) s.

End JS.

Import JS.

(* ===================================================================== *)
(** * Regular expressions *)
(* ===================================================================== *)

(** The patterns of the source are sequences of literal characters, the
    assertions [^] and [\b], and greedy quantified character classes,
    possibly wrapped in a capture group.  [matchHere] is the backtracking
    matcher of ECMAScript restricted to these nodes: a quantified class
    first takes as many characters as it can and gives them back one at a
    time while the rest of the pattern fails. *)

Module Regex.

Inductive node : Type :=
| Lit (c : ascii)
| Rep (capture : bool) (cls : ascii -> bool) (lo : nat) (hi : option nat)
| Bol
| WordB.

Record result : Type := mkResult
  { matched : str;          (* the text of the whole match, [m[0]] *)
    groups  : list str;     (* the capture groups, [m[1]], [m[2]], ... *)
    rest    : str }.        (* the input after the match *)

(** Number of leading characters of [s] in [cls], at most [hi]. *)
Fixpoint runLength (cls : ascii -> bool) (hi : option nat) (s : str) : nat :=
  match s with
  | [] => 0
  | c :: s' =>
      if cls c then
        match hi with
        | Some 0 => 0
        | Some (S h) => S (runLength cls (Some h) s')
        | None => S (runLength cls None s')
        end
      else 0
  end.

(** The character before the position reached after reading [taken]. *)
Definition prevAfter (prev : option ascii) (taken : str) : option ascii :=
  match rev taken with
  | [] => prev
  | c :: _ => Some c
  end.

Definition extend (capture : bool) (taken : str) (r : result) : result :=
  mkResult (taken ++ matched r)
           (if capture then taken :: groups r else groups r)
           (rest r).

(** Try the continuation [k] after [n], [n-1], ..., [lo] characters. *)
Fixpoint backtrack (k : option ascii -> str -> option result)
    (capture : bool) (lo : nat) (prev : option ascii) (s : str) (n : nat)
  : option result :=
  if n <? lo then None else
  match k (prevAfter prev (firstn n s)) (skipn n s) with
  | Some r => Some (extend capture (firstn n s) r)
  | None =>
      match n with
      | 0 => None
      | S n' => backtrack k capture lo prev s n'
      end
  end.

Definition isWordOpt (c : option ascii) : bool :=
  match c with Some a => isWord a | None => false end.

Definition charMatches (ignoreCase : bool) (pat a : ascii) : bool :=
  if ignoreCase then eqc (canonicalize pat) (canonicalize a) else eqc pat a.

Fixpoint matchHere (ignoreCase : bool) (r : list node)
    (prev : option ascii) (s : str) {struct r} : option result :=
  match r with
  | [] => Some (mkResult [] [] s)
  | Lit c :: r' =>
      match s with
      | a :: s' =>
          if charMatches ignoreCase c a then
            match matchHere ignoreCase r' (Some a) s' with
            | Some res => Some (extend false [a] res)
            | None => None
            end
          else None
      | [] => None
      end
  | Rep capture cls lo hi :: r' =>
      backtrack (matchHere ignoreCase r') capture lo prev s (runLength cls hi s)
  | Bol :: r' =>
      match prev with
      | None => matchHere ignoreCase r' prev s
      | Some _ => None
      end
  | WordB :: r' =>
      if xorb (isWordOpt prev) (isWordOpt (hd_error s))
      then matchHere ignoreCase r' prev s
      else None
  end.

Record regex : Type := mkRegex
  { nodes : list node;
    ignoreCase : bool }.

(** A match found by scanning: the text skipped before it and the match. *)
Record found : Type := mkFound
  { before : str;
    hit    : result }.

(** Leftmost match at or after the current position. *)
Fixpoint search (re : regex) (prev : option ascii) (s : str) : option found :=
  match matchHere (ignoreCase re) (nodes re) prev s with
  | Some r => Some (mkFound [] r)
  | None =>
      match s with
      | [] => None
      | c :: s' =>
          match search re (Some c) s' with
          | Some f => Some (mkFound (c :: before f) (hit f))
          | None => None
          end
      end
  end.

(** [re.test(s)]. *)
Definition test (re : regex) (s : str) : bool :=
  match search re None s with Some _ => true | None => false end.

(** [s.match(re)] for a pattern without the [g] flag: the groups of the
    leftmost match. *)
Definition exec (re : regex) (s : str) : option (list str) :=
  match search re None s with
  | Some f => Some (groups (hit f))
  | None => None
  end.

(** [s.replace(re, repl)] for a pattern without the [g] flag and a constant
    replacement: only the leftmost match is replaced. *)
Definition replaceFirst (re : regex) (repl : str) (s : str) : str :=
  match search re None s with
  | Some f => before f ++ repl ++ rest (hit f)
  | None => s
  end.

(** [s.replace(re, fn)] for a pattern with the [g] flag: matches are found
    left to right, each search resuming where the previous match ended.  An
    empty match advances by one character.  [fuel] bounds the number of
    resumptions; [length s + 1] is always enough. *)
Fixpoint replaceAllFrom (fuel : nat) (re : regex) (fn : str -> str)
    (prev : option ascii) (s : str) : str :=
  match fuel with
  | 0 => s
  | S fuel' =>
      match search re prev s with
      | None => s
      | Some f =>
          let m := matched (hit f) in
          let prev' := prevAfter prev (before f ++ m) in
          match m, rest (hit f) with
          | [], [] => before f ++ fn m
          | [], c :: s' =>
              before f ++ fn m ++ c :: replaceAllFrom fuel' re fn (Some c) s'
          | _ :: _, s' =>
              before f ++ fn m ++ replaceAllFrom fuel' re fn prev' s'
          end
      end
  end.

Definition replaceAll (re : regex) (fn : str -> str) (s : str) : str :=
  replaceAllFrom (S (List.length s)) re fn None s.

End Regex.

(* ===================================================================== *)
(** * src/context/LogContext.tsx *)
(* ===================================================================== *)

Module LogContext.

(** [type LogEntry = { timestamp: string; data: string }] *)
Record LogEntry : Type := mkLogEntry
  { timestamp : str;
    data : str }.

(** The two [useState] cells of [LogProvider]. *)
Record State : Type := mkState
  { isLogging : bool;
    logData : list LogEntry }.

(** [useState(false)], [useState<LogEntry[]>([])]. *)
Definition initial : State := mkState false [].

Definition startLogging (st : State) : State :=
  mkState true (logData st).

Definition stopLogging (st : State) : State :=
  mkState false (logData st).

(** [setLogData(prev => [...prev, { timestamp: new Date().toISOString(), data }])];
    [now] is the value of [new Date().toISOString()] at the call. *)
Definition appendLog (now : str) (d : str) (st : State) : State :=
  mkState (isLogging st) (logData st ++ [mkLogEntry now d]).

Definition clearLogs (st : State) : State :=
  mkState (isLogging st) [].

End LogContext.

(* ===================================================================== *)
(** * Promises *)
(* ===================================================================== *)

Module Promise.

(** A value thrown or used to reject a promise, as the screens inspect
    it: [e instanceof Error], [typeof e === 'string'], [e.message] and the
    string conversion of [e]. *)
Inductive JsError : Type :=
| ErrorObj (message : str)          (* an [Error] with this message *)
| StringErr (s : str)               (* a string *)
| OtherErr (shown : str).           (* anything else, converted to [shown] *)

Definition newError (msg : str) : JsError := ErrorObj msg.

(** How an awaited promise ends. *)
Inductive Outcome (A : Type) : Type :=
| Resolved (a : A)
| Rejected (e : JsError).

Arguments Resolved {A} a.
Arguments Rejected {A} e.

(** A promise seen over time: it settles some number of milliseconds
    after it was created, or never. *)
Inductive Timed (A : Type) : Type :=
| Settles (at_ms : N) (o : Outcome A)
| Never.

Arguments Settles {A} at_ms o.
Arguments Never {A}.

(** [new Promise((_, reject) => setTimeout(() => reject(new Error(msg)), ms))] *)
Definition timeoutPromise {A : Type} (ms : N) (msg : str) : Timed A :=
  Settles ms (Rejected (newError msg)).

(** [Promise.race([p, q])]: the first promise to settle decides; [p], listed
    first, wins when it settles strictly before [q]. *)
Definition race {A : Type} (p q : Timed A) : Timed A :=
  match p, q with
  | Never, _ => q
  | _, Never => p
  | Settles tp op, Settles tq oq =>
      if (tp <? tq)%N then Settles tp op else Settles tq oq
  end.


(** What [await] observes: the outcome, when there is one. *)
Definition await {A : Type} (p : Timed A) : option (Outcome A) :=
  match p with
  | Settles _ o => Some o
  | Never => None
  end.

End Promise.

Import Promise.

(* ===================================================================== *)
(** * The UTC calendar of [Date] *)
(* ===================================================================== *)

(** The [getUTC*] accessors of a [Date] holding [t] milliseconds since the
    epoch, following the ECMAScript definitions ([Day], [WeekDay],
    [HourFromTime], ...) with the proleptic Gregorian calendar. *)

Module UTCDate.

Local Open Scope Z_scope.

Definition msPerDay : Z := 86400000.

Definition Day (t : Z) : Z := t / msPerDay.

Definition getUTCDay (t : Z) : Z := (Day t + 4) mod 7.
Definition getUTCHours (t : Z) : Z := (t / 3600000) mod 24.
Definition getUTCMinutes (t : Z) : Z := (t / 60000) mod 60.
Definition getUTCSeconds (t : Z) : Z := (t / 1000) mod 60.

(** Civil date of a day number: (year, month index 0..11, day of month). *)
Definition civil (day : Z) : Z * Z * Z :=
  let z := day + 719468 in
  let era := z / 146097 in
  let doe := z - era * 146097 in
  let yoe := (doe - doe / 1460 + doe / 36524 - doe / 146096) / 365 in
  let doy := doe - (365 * yoe + yoe / 4 - yoe / 100) in
  let mp := (5 * doy + 2) / 153 in
  let d := doy - (153 * mp + 2) / 5 + 1 in
  let m := if mp <? 10 then mp + 2 else mp - 10 in
  let y := yoe + era * 400 + (if m <=? 1 then 1 else 0) in
  (y, m, d).

Definition getUTCFullYear (t : Z) : Z := fst (fst (civil (Day t))).
Definition getUTCMonth (t : Z) : Z := snd (fst (civil (Day t))).
Definition getUTCDate (t : Z) : Z := snd (civil (Day t)).

End UTCDate.

(* ===================================================================== *)
(** * src/screens/LogsScreen.tsx *)
(* ===================================================================== *)

Module LogsScreen.

Import Regex LogContext.

Local Open Scope Z_scope.

(** [const isEpoch = (n: number) => ...] *)
Definition isEpoch (n : Z) : bool :=
  let sec := if 2000000000 <? n then n / 1000 else n in
  (946684800 <=? sec) && (sec <=? 4102444800).

Definition days : list str :=
  map lit ["Sun"; "Mon"; "Tue"; "Wed"; "Thu"; "Fri"; "Sat"]%string.

Definition months : list str :=
  map lit ["Jan"; "Feb"; "Mar"; "Apr"; "May"; "Jun";
           "Jul"; "Aug"; "Sep"; "Oct"; "Nov"; "Dec"]%string.

(** [const pad = (x: number) => (x < 10 ? `0${x}` : `${x}`)] *)
Definition pad (x : Z) : str :=
  if x <? 10 then lit "0" ++ ZToString x else ZToString x.

Definition index (l : list str) (i : Z) : str := nth (Z.to_nat i) l [].

(** [const formatEpoch = (n: number) => ...] *)
Definition formatEpoch (n : Z) : str :=
  let ms := if 2000000000 <? n then n else n * 1000 in
  (index days (UTCDate.getUTCDay ms) ++ lit " " ++
   index months (UTCDate.getUTCMonth ms) ++ lit " " ++
   pad (UTCDate.getUTCDate ms) ++ lit " " ++
   pad (UTCDate.getUTCHours ms) ++ lit ":" ++
   pad (UTCDate.getUTCMinutes ms) ++ lit ":" ++
   pad (UTCDate.getUTCSeconds ms) ++ lit " " ++
   ZToString (UTCDate.getUTCFullYear ms))%list.

(** [/\b\d{10,13}\b/g] *)
Definition epochToken : regex :=
  mkRegex [WordB; Rep false isDigit 10%nat (Some 13%nat); WordB] false.

(** The replacement callback of [convertLineTimestamps].  [Number(m)] of
    ten to thirteen digits is always finite. *)
Definition convertToken (m : str) : str :=
  let num := parseDigits m in
  if negb (isEpoch num) then m else formatEpoch num.

(** [const convertLineTimestamps = (line: string) => ...] *)
Definition convertLineTimestamps (line : str) : str :=
  replaceAll epochToken convertToken line.

(** [/^\s*D:/i] *)
Definition dataLinePattern : regex :=
  mkRegex [Bol; Rep false isSpace 0%nat None; Lit "D"; Lit ":"] true.

(** [/^\s*D:\s*/] *)
Definition prefixPattern : regex :=
  mkRegex [Bol; Rep false isSpace 0%nat None; Lit "D"; Lit ":";
           Rep false isSpace 0%nat None] false.

(** [/(\d{10,13}),(\d+),(\d+)#/] *)
Definition ppmPattern : regex :=
  mkRegex [Rep true isDigit 10%nat (Some 13%nat); Lit ",";
           Rep true isDigit 1%nat None; Lit ",";
           Rep true isDigit 1%nat None; Lit "#"] false.

Definition header : list str :=
  map lit ["Serial Number"; "Date"; "Time"; "Outlet PPM"; "Inlet PPM"]%string.

(** [logData.filter(item => /^\s*D:/i.test(item.data))] *)
Definition isDataLine (item : LogEntry) : bool := test dataLinePattern (data item).

Definition filtered (logData : list LogEntry) : list LogEntry :=
  filter isDataLine logData.

(** [item.data.replace(/^\s*D:\s*/, '')] *)
Definition stripPrefix (s : str) : str := replaceFirst prefixPattern [] s.

Section Worksheet.

(** [new Date(ms).toLocaleDateString('en-US', { weekday: 'long', year:
    'numeric', month: 'long', day: 'numeric' })] and [new Date(ms)
    .toLocaleTimeString('en-US', { hour12: false, hour: '2-digit', minute:
    '2-digit', second: '2-digit' })] depend on the time zone and the
    internationalisation data of the device; they are parameters.  They
    receive the exact product [epochTimestamp * 1000]: below 2^53 the
    product of the source is exact, and above it lies beyond the range of
    [Date] whatever the rounding. *)
Variable toLocaleDateString : Z -> str.
Variable toLocaleTimeString : Z -> str.

(** The body of the [forEach] callback: the row pushed for [item] when the
    counter stands at [serialNumber]. *)
Definition rowOf (serialNumber : nat) (item : LogEntry) : list str :=
  let dataLine := stripPrefix (data item) in
  match exec ppmPattern dataLine with
  | Some m =>
      let epochTimestamp := parseDigits (nth 0%nat m []) in
      let outletPPM := nth 1%nat m [] in
      let inletPPM := nth 2%nat m [] in
      let dateStr := toLocaleDateString (epochTimestamp * 1000) in
      let timeStr := toLocaleTimeString (epochTimestamp * 1000) in
      [natToString serialNumber; dateStr; timeStr; outletPPM; inletPPM]
  | None =>
      [natToString serialNumber; []; []; []; []]
  end.

(** [filtered.forEach(item => { ...; excelData.push([...]) })] with the
    counter [serialNumber++]. *)
Fixpoint forEachPush (serialNumber : nat) (items : list LogEntry)
    (excelData : list (list str)) : list (list str) :=
  match items with
  | [] => excelData
  | item :: items' =>
      forEachPush (S serialNumber) items' (excelData ++ [rowOf serialNumber item])
  end.

(** The array of arrays handed to [XLSX.utils.aoa_to_sheet]. *)
Definition excelData (logData : list LogEntry) : list (list str) :=
  forEachPush 1%nat (filtered logData) [header].

End Worksheet.

(** ** [exportToExcel] *)

(** What the export does that can be observed from outside, in the order
    in which it happens. *)
Inductive Event : Type :=
| EvAlert (title message : str)              (* Alert.alert *)
| EvToast (message : str)                    (* ToastAndroid.show *)
| EvWorkbook (rows : list (list str))        (* XLSX.write of the workbook *)
| EvSaveDialog (fileName content : str)      (* SafFileModule.saveFileWithDialog *)
| EvWriteFile (path content : str)           (* RNFS.writeFile(path, content, 'base64') *)
| EvShare (url fileName : str).              (* Share.open *)

(** The platform and the libraries the export calls. *)
Record Env : Type := mkEnv
  { os_android : bool;                       (* Platform.OS === 'android' *)
    nowISO : str;                            (* new Date().toISOString() *)
    toLocaleDateString : Z -> str;
    toLocaleTimeString : Z -> str;
    (** [XLSX.write] of a workbook holding the one sheet 'Bluetooth Logs'
        built from the rows, as base64. *)
    xlsxWrite : list (list str) -> str;
    saveFileWithDialog : str -> str -> Timed str;
    documentDirectoryPath : str;
    writeFile : str -> str -> Timed unit;
    shareOpen : str -> str -> Timed unit }.

(** [`${(error as any)?.message || error}`] *)
Definition errorText (e : JsError) : str :=
  match e with
  | ErrorObj m => if truthy m then m else lit "Error"
  | StringErr s => s
  | OtherErr shown => shown
  end.

Definition errorAlert (e : JsError) : Event :=
  EvAlert (lit "Error") (lit "Failed to generate Excel file: " ++ errorText e).

(** [`bluetooth_logs_${new Date().toISOString().slice(0, 19)
      .replace(/:/g, '-')}.xlsx`] *)
Definition fileName (env : Env) : str :=
  lit "bluetooth_logs_" ++ replaceColons (slice0 19 (nowISO env)) ++ lit ".xlsx".

(** How a run of [exportToExcel] ends. *)
Record Run : Type := mkRun
  { after : LogContext.State;     (* the log context after the run *)
    events : list Event;          (* what happened, oldest first *)
    finished : bool }.            (* [false]: suspended at an [await] *)

(** [const exportToExcel = async () => ...]; no setter of the log context
    is called. *)
Definition exportToExcel (env : Env) (ctx : LogContext.State) : Run :=
  match logData ctx with
  | [] => mkRun ctx [EvAlert (lit "No Data") (lit "No log data to export.")] true
  | _ :: _ =>
      let rows := excelData (toLocaleDateString env) (toLocaleTimeString env)
                            (logData ctx) in
      let excelBuffer := xlsxWrite env rows in
      let name := fileName env in
      if os_android env then
        let started := [EvWorkbook rows; EvSaveDialog name excelBuffer] in
        match await (saveFileWithDialog env name excelBuffer) with
        | Some (Resolved uri) =>
            mkRun ctx (started ++ [EvToast (lit "Log file saved!")]) true
        | Some (Rejected e) => mkRun ctx (started ++ [errorAlert e]) true
        | None => mkRun ctx started false
        end
      else
        let filePath := documentDirectoryPath env ++ lit "/" ++ name in
        let started := [EvWorkbook rows; EvWriteFile filePath excelBuffer] in
        match await (writeFile env filePath excelBuffer) with
        | Some (Resolved _) =>
            let url := lit "file://" ++ filePath in
            let shared := started ++ [EvShare url name] in
            match await (shareOpen env url name) with
            | Some (Resolved _) =>
                mkRun ctx (shared ++ [EvAlert (lit "Success")
                                              (lit "Log file saved to device.")]) true
            | Some (Rejected e) => mkRun ctx (shared ++ [errorAlert e]) true
            | None => mkRun ctx shared false
            end
        | Some (Rejected e) => mkRun ctx (started ++ [errorAlert e]) true
        | None => mkRun ctx started false
        end
  end.

End LogsScreen.

(* ===================================================================== *)
(** * src/screens/MainScreen.tsx, src/services/storage.ts *)
(* ===================================================================== *)

Module MainScreen.

Import LogContext.

(** The fields of [BluetoothDevice] the screen reads.  [name] may be
    missing. *)
Record BluetoothDevice : Type := mkDevice
  { name : option str;
    address : str;
    bonded : bool }.

(** ** The block lists of [fetchPairedDevices] *)

Definition dummyNames : list str :=
  map lit ["Unknown Device"; "Unknown"; "Bluetooth Device"; "BT Device";
           "Device"; "Phone"; "Mobile"; "Android"; "Test Device";
           "Dummy Device"]%string.


(** [dummyNames.some(dummy => device.name &&
      device.name.toLowerCase().includes(dummy.toLowerCase()))] *)
Definition isDummyName (device : BluetoothDevice) : bool :=
  existsb (fun dummy =>
             match name device with
             | Some n => truthy n && includes (toLowerCase n) (toLowerCase dummy)
             | None => false
             end) dummyNames.

(** [device.address && (device.address.includes('00:00:00') || ...)] *)
Definition isGenericAddress (device : BluetoothDevice) : bool :=
  truthy (address device) &&
  (includes (address device) (lit "00:00:00")
   || includes (address device) (lit "FF:FF:FF")
   || includes (address device) (lit "AA:AA:AA")
   || includes (address device) (lit "BB:BB:BB")).

(** The callback of [systemDevices.filter]. *)
Definition isRealPaired (device : BluetoothDevice) : bool :=
  bonded device && negb (isDummyName device) && negb (isGenericAddress device).

Definition realPairedDevices (systemDevices : list BluetoothDevice)
  : list BluetoothDevice :=
  filter isRealPaired systemDevices.

(** ** Awaited platform calls and their guards *)

(** The places where the screen awaits a call of the Bluetooth binding. *)
Inductive CallSite : Type :=
| InitBonded          (* initializeApp: getBondedDevices *)
| CheckEnabled        (* checkBluetoothEnabled: isBluetoothEnabled *)
| FetchBonded         (* fetchPairedDevices: getBondedDevices *)
| ScanCancel          (* scanForDevices: cancelDiscovery *)
| ScanEnabled         (* scanForDevices: isBluetoothEnabled *)
| ScanDiscovery       (* scanForDevices: startDiscovery *)
| StopCancel          (* stopScanning: cancelDiscovery *)
| Pairing             (* connectToDevice: pairDevice *)
| Connecting          (* connectToDevice: device.connect *)
| Disconnecting       (* disconnectDevice: device.disconnect *)
| Unpairing           (* removePairedDevice: unpairDevice *)
| RefreshDiscovery    (* removePairedDevice: startDiscovery *)
| BackgroundCancel.   (* AppState listener: cancelDiscovery *)

(** The [setTimeout] a call is raced against, where there is one: delay in
    milliseconds and the message of the rejection. *)
Definition guard (site : CallSite) : option (N * str) :=
  match site with
  | FetchBonded => Some (10000%N, lit "Timeout getting bonded devices")
  | Pairing => Some (15000%N, lit "Pairing timeout")
  | Connecting => Some (20000%N, lit "Connection timeout")
  | ScanDiscovery => Some (30000%N, lit "Scan timeout after 30 seconds")
  | _ => None
  end.

(** The promise the screen awaits at [site] when the binding returns [p]:
    [Promise.race([p, timeoutPromise])] at a guarded site, [p] itself
    elsewhere. *)
Definition awaited {A : Type} (site : CallSite) (p : Timed A) : Timed A :=
  match guard site with
  | Some (ms, msg) => race p (timeoutPromise ms msg)
  | None => p
  end.

(** ** State *)

Record DeviceInfo : Type := mkDeviceInfo
  { manufacturer : str;
    model : str;
    version : nat;
    apiLevel : str }.

Inductive Permission : Type :=
| ACCESS_FINE_LOCATION
| ACCESS_COARSE_LOCATION
| BLUETOOTH_SCAN
| BLUETOOTH_CONNECT.

Inductive PermissionResult : Type :=
| GRANTED
| DENIED
| NEVER_ASK_AGAIN.

Definition PermissionStatus := list (Permission * PermissionResult).

(** The [useState] cells of [MainScreen], the module variable
    [dataSubscription] and the log context the screen is rendered in. *)
Record State : Type := mkState
  { isBluetoothEnabled : bool;
    isScanning : bool;
    pairedDevices : list BluetoothDevice;
    unpairedDevices : list BluetoothDevice;
    connectedDevice : option BluetoothDevice;
    status : str;
    deviceInfo : option DeviceInfo;
    isAppReady : bool;
    permissionStatus : PermissionStatus;
    dataSubscription : option BluetoothDevice;
    logCtx : option LogContext.State }.

Definition initialState : State :=
  mkState false false [] [] None [] None false [] None (Some LogContext.initial).

(** ** Platform *)

(** What the platform answers.  Every call carries the number of platform
    calls made before it, so that a call may be answered differently each
    time it is made. *)
Record Platform : Type := mkPlatform
  { os_android : bool;                       (* Platform.OS === 'android' *)
    platformVersion : nat;                   (* Platform.Version *)
    constBrand : str;                        (* Platform.constants?.Brand *)
    constModel : str;                        (* Platform.constants?.Model *)
    constVersion : str;                      (* Platform.constants?.Version *)
    isBluetoothEnabled_ : nat -> Timed bool;
    requestMultiple : nat -> list Permission -> Timed PermissionStatus;
    getBondedDevices : nat -> Timed (list BluetoothDevice);
    pairDevice : nat -> str -> Timed bool;
    connect : nat -> BluetoothDevice -> Timed bool;
    asyncGetItem : nat -> str -> Timed (option str);
    asyncSetItem : nat -> str -> str -> Timed unit;
    jsonStringify : list BluetoothDevice -> str;
    jsonParse : str -> Outcome (list BluetoothDevice) }.

(** What the screen does that can be observed from outside. *)
Inductive Event : Type :=
| EvStatus (s : str)                          (* setStatus *)
| EvToast (s : str)                           (* ToastAndroid.show *)
| EvAlert (title message : str)               (* Alert.alert *)
| EvIsBluetoothEnabled                        (* isBluetoothEnabled() *)
| EvRequestMultiple (perms : list Permission) (* PermissionsAndroid.requestMultiple *)
| EvGetBonded                                 (* getBondedDevices() *)
| EvPair (addr : str)                         (* pairDevice(addr) *)
| EvConnect (d : BluetoothDevice)             (* device.connect() *)
| EvStorageGet (key : str)
| EvStorageSet (key value : str)
| EvSubscribe (d : BluetoothDevice)           (* device.onDataReceived *)
| EvUnsubscribe.                              (* dataSubscription.remove() *)

Record World : Type := mkWorld
  { ui : State;
    calls : nat;                 (* platform calls made so far *)
    trace : list Event }.        (* most recent event first *)

(** ** Asynchronous functions *)

(** How a call of an [async] function ends: it returns, it throws, or it
    stays suspended at an [await] whose promise never settles. *)
Inductive Res (A : Type) : Type :=
| Val (a : A)
| Exn (e : JsError)
| Suspended.

Arguments Val {A} a.
Arguments Exn {A} e.
Arguments Suspended {A}.

Definition M (A : Type) : Type := World -> Res A * World.

Definition ret {A : Type} (a : A) : M A := fun w => (Val a, w).

Definition bind {A B : Type} (m : M A) (f : A -> M B) : M B :=
  fun w =>
    match m w with
    | (Val a, w') => f a w'
    | (Exn e, w') => (Exn e, w')
    | (Suspended, w') => (Suspended, w')
    end.

(** [try { body } catch (e) { handler }] *)
Definition tryCatch {A : Type} (body : M A) (handler : JsError -> M A) : M A :=
  fun w =>
    match body w with
    | (Exn e, w') => handler e w'
    | other => other
    end.

Declare Scope async_scope.
Delimit Scope async_scope with async.
Notation "x <- m ;; k" := (bind m (fun x => k))
  (at level 61, m at next level, right associativity) : async_scope.
Notation "m ;; k" := (bind m (fun _ => k))
  (at level 61, right associativity) : async_scope.
Local Open Scope async_scope.

Definition emit (e : Event) : M unit :=
  fun w => (Val tt, mkWorld (ui w) (calls w) (e :: trace w)).

Definition modify (f : State -> State) : M unit :=
  fun w => (Val tt, mkWorld (f (ui w)) (calls w) (trace w)).

Definition getState : M State := fun w => (Val (ui w), w).

(** [await] of the promise a platform call returns. *)
Definition awaitCall {A : Type} (e : Event) (p : nat -> Timed A) : M A :=
  fun w =>
    let w' := mkWorld (ui w) (S (calls w)) (e :: trace w) in
    match await (p (calls w)) with
    | Some (Resolved a) => (Val a, w')
    | Some (Rejected err) => (Exn err, w')
    | None => (Suspended, w')
    end.

Definition throw {A : Type} (e : JsError) : M A := fun w => (Exn e, w).

(** *** The setters *)

Definition setStatus (s : str) : M unit :=
  modify (fun st =>
    mkState (isBluetoothEnabled st) (isScanning st) (pairedDevices st)
      (unpairedDevices st) (connectedDevice st) s (deviceInfo st)
      (isAppReady st) (permissionStatus st) (dataSubscription st) (logCtx st)) ;;
  emit (EvStatus s).

Definition setDeviceInfo (info : DeviceInfo) : M unit :=
  modify (fun st =>
    mkState (isBluetoothEnabled st) (isScanning st) (pairedDevices st)
      (unpairedDevices st) (connectedDevice st) (status st) (Some info)
      (isAppReady st) (permissionStatus st) (dataSubscription st) (logCtx st)).

Definition setIsBluetoothEnabled (b : bool) : M unit :=
  modify (fun st =>
    mkState b (isScanning st) (pairedDevices st)
      (unpairedDevices st) (connectedDevice st) (status st) (deviceInfo st)
      (isAppReady st) (permissionStatus st) (dataSubscription st) (logCtx st)).

Definition setPermissionStatus (g : PermissionStatus) : M unit :=
  modify (fun st =>
    mkState (isBluetoothEnabled st) (isScanning st) (pairedDevices st)
      (unpairedDevices st) (connectedDevice st) (status st) (deviceInfo st)
      (isAppReady st) g (dataSubscription st) (logCtx st)).

Definition setPairedDevices (l : list BluetoothDevice) : M unit :=
  modify (fun st =>
    mkState (isBluetoothEnabled st) (isScanning st) l
      (unpairedDevices st) (connectedDevice st) (status st) (deviceInfo st)
      (isAppReady st) (permissionStatus st) (dataSubscription st) (logCtx st)).

Definition setConnectedDevice (d : option BluetoothDevice) : M unit :=
  modify (fun st =>
    mkState (isBluetoothEnabled st) (isScanning st) (pairedDevices st)
      (unpairedDevices st) d (status st) (deviceInfo st)
      (isAppReady st) (permissionStatus st) (dataSubscription st) (logCtx st)).

Definition setIsAppReady (b : bool) : M unit :=
  modify (fun st =>
    mkState (isBluetoothEnabled st) (isScanning st) (pairedDevices st)
      (unpairedDevices st) (connectedDevice st) (status st) (deviceInfo st)
      b (permissionStatus st) (dataSubscription st) (logCtx st)).

Definition setDataSubscription (d : option BluetoothDevice) : M unit :=
  modify (fun st =>
    mkState (isBluetoothEnabled st) (isScanning st) (pairedDevices st)
      (unpairedDevices st) (connectedDevice st) (status st) (deviceInfo st)
      (isAppReady st) (permissionStatus st) d (logCtx st)).

Definition setLogCtx (c : option LogContext.State) : M unit :=
  modify (fun st =>
    mkState (isBluetoothEnabled st) (isScanning st) (pairedDevices st)
      (unpairedDevices st) (connectedDevice st) (status st) (deviceInfo st)
      (isAppReady st) (permissionStatus st) (dataSubscription st) c).

(** *** The data listener *)

(** The callback given to [device.onDataReceived]:
    [setStatus('Receiving data...'); if (appendLogRef.current)
    appendLogRef.current(event.data);].  [appendLogRef.current] is the
    [appendLog] of the log context when the screen is rendered inside a
    [LogProvider]; [isLoggingRef] is kept up to date next to it and is read
    nowhere.  [now] is the time at which the entry is stamped. *)
Definition onDataReceived (now : str) (eventData : str) : M unit :=
  setStatus (lit "Receiving data...") ;;
  st <- getState ;;
  match logCtx st with
  | Some ctx => setLogCtx (Some (appendLog now eventData ctx))
  | None => ret tt
  end.

Section WithPlatform.

Variable p : Platform.

(** The values of the state variables in the render whose closures are
    running. *)
Variable snap : State.

(** *** src/services/storage.ts *)

Definition getItem (key : str) : M (option str) :=
  awaitCall (EvStorageGet key) (fun t => asyncGetItem p t key).

Definition setItem (key value : str) : M unit :=
  awaitCall (EvStorageSet key value) (fun t => asyncSetItem p t key value).

Definition setJSON (key : str) (value : list BluetoothDevice) : M unit :=
  setItem key (jsonStringify p value).

Definition getJSON (key : str) : M (option (list BluetoothDevice)) :=
  raw <- getItem key ;;
  match raw with
  | Some r =>
      if truthy r then
        match jsonParse p r with
        | Resolved v => ret (Some v)
        | Rejected e => throw e
        end
      else ret None
  | None => ret None
  end.

(** *** MainScreen *)

Definition orUnknown (s : str) : str := if truthy s then s else lit "Unknown".

Definition getDeviceInfo : M unit :=
  tryCatch
    (setDeviceInfo
       (mkDeviceInfo (orUnknown (constBrand p)) (orUnknown (constModel p))
                     (platformVersion p) (orUnknown (constVersion p))))
    (fun _ => ret tt).

Definition checkBluetoothEnabled : M unit :=
  tryCatch
    (enabled <- awaitCall EvIsBluetoothEnabled (isBluetoothEnabled_ p) ;;
     setIsBluetoothEnabled enabled ;;
     setStatus (if enabled then lit "Bluetooth is enabled."
                else lit "Bluetooth is disabled. Please enable Bluetooth in settings.") ;;
     if negb enabled then emit (EvToast (lit "Please enable Bluetooth")) else ret tt)
    (fun _ => setStatus (lit "Error checking Bluetooth status.")).

Definition savePairedDevices (devices : list BluetoothDevice) : M unit :=
  tryCatch (setJSON (lit "pairedDevices") devices) (fun _ => ret tt).

Definition loadPairedDevices : M (list BluetoothDevice) :=
  tryCatch
    (saved <- getJSON (lit "pairedDevices") ;;
     ret (match saved with Some l => l | None => [] end))
    (fun _ => ret []).

Definition showPermissionGuidance : M unit :=
  let manufacturer :=
    match deviceInfo snap with
    | Some info => toLowerCase (manufacturer info)
    | None => []
    end in
  let guidance :=
    if includes manufacturer (lit "xiaomi") || includes manufacturer (lit "mi")
    then lit "Xiaomi: enable Autostart and disable Battery Saver for this app."
    else if includes manufacturer (lit "huawei")
    then lit "Huawei: enable Auto-launch and disable Battery optimization."
    else if includes manufacturer (lit "oppo") || includes manufacturer (lit "oneplus")
    then lit "OPPO/OnePlus: enable Auto-start and disable Battery optimization."
    else if includes manufacturer (lit "vivo")
    then lit "Vivo: enable Auto-start and disable Battery saver."
    else lit "Please grant all permissions in Settings > Apps > Bluetooth Scanner > Permissions" in
  emit (EvAlert (lit "Permissions Required") guidance).

Definition isGranted (r : PermissionResult) : bool :=
  match r with GRANTED => true | _ => false end.

Definition requestPermissions : M bool :=
  if negb (os_android p) then ret true else
  tryCatch
    (let permissions :=
       [ACCESS_FINE_LOCATION; ACCESS_COARSE_LOCATION] ++
       (if 31 <=? platformVersion p then [BLUETOOTH_SCAN; BLUETOOTH_CONNECT] else []) in
     granted <- awaitCall (EvRequestMultiple permissions)
                          (fun t => requestMultiple p t permissions) ;;
     setPermissionStatus granted ;;
     let allGranted := forallb (fun kv => isGranted (snd kv)) granted in
     (if negb allGranted then showPermissionGuidance else ret tt) ;;
     ret allGranted)
    (fun _ => setStatus (lit "Permission error occurred.") ;; ret false).

Definition fetchPairedDevices : M unit :=
  tryCatch
    (granted <- requestPermissions ;;
     if negb granted
     then setStatus (lit "Bluetooth permissions are required to fetch paired devices.")
     else
       savedDevices <- loadPairedDevices ;;
       systemDevices <- awaitCall EvGetBonded
                          (fun t => awaited FetchBonded (getBondedDevices p t)) ;;
       let real := realPairedDevices systemDevices in
       setPairedDevices real ;;
       savePairedDevices real ;;
       setStatus (lit "Found " ++ natToString (List.length real)
                    ++ lit " paired devices."))
    (fun _ => setStatus (lit "Error loading paired devices.")).

(** [device.name || device.address] *)
Definition nameOrAddress (device : BluetoothDevice) : str :=
  match name device with
  | Some n => if truthy n then n else address device
  | None => address device
  end.

(** [error instanceof Error ? error.message
      : typeof error === 'string' ? error : 'Unknown error'] *)
Definition connectionErrorMsg (error : JsError) : str :=
  match error with
  | ErrorObj m => m
  | StringErr s => s
  | OtherErr _ => lit "Unknown error"
  end.

(** [pairingError instanceof Error ? pairingError.message : 'Unknown error'] *)
Definition pairingErrorMsg (error : JsError) : str :=
  match error with
  | ErrorObj m => m
  | _ => lit "Unknown error"
  end.

(** The pairing block of [connectToDevice]; [false] stands for its two
    [return] statements. *)
Definition pairFirst (device : BluetoothDevice) : M bool :=
  setStatus (lit "Pairing with " ++ nameOrAddress device ++ lit "...") ;;
  tryCatch
    (paired <- awaitCall (EvPair (address device))
                 (fun t => awaited Pairing (pairDevice p t (address device))) ;;
     if negb paired
     then setStatus (lit "Pairing failed. Please pair the device manually in Bluetooth settings.") ;;
          ret false
     else
       setStatus (lit "Successfully paired with " ++ nameOrAddress device
                    ++ lit ". Connecting now...") ;;
       fetchPairedDevices ;;
       savePairedDevices (pairedDevices snap ++ [device]) ;;
       ret true)
    (fun pairingError =>
       setStatus (lit "Pairing failed: " ++ pairingErrorMsg pairingError) ;;
       ret false).

Definition connectToDevice (device : BluetoothDevice) : M unit :=
  tryCatch
    (setStatus (lit "Connecting...") ;;
     granted <- requestPermissions ;;
     if negb granted
     then setStatus (lit "Bluetooth permissions are required to connect.")
     else
       proceed <- (if negb (bonded device) then pairFirst device else ret true) ;;
       if negb proceed then ret tt else
       connected <- awaitCall (EvConnect device)
                      (fun t => awaited Connecting (connect p t device)) ;;
       if connected then
         setConnectedDevice (Some device) ;;
         setStatus (lit "Connected to " ++ nameOrAddress device ++ lit "!") ;;
         setItem (lit "lastConnectedDevice") (address device) ;;
         st <- getState ;;
         (match dataSubscription st with
          | Some _ => emit EvUnsubscribe ;; setDataSubscription None
          | None => ret tt
          end) ;;
         emit (EvSubscribe device) ;;
         setDataSubscription (Some device)
       else
         setStatus (lit "Failed to connect to " ++ nameOrAddress device) ;;
         emit (EvToast (lit "Connection failed. Please try again.")))
    (fun error =>
       setStatus (lit "Connection error: " ++ connectionErrorMsg error) ;;
       emit (EvToast (lit "Connection failed. Please try again."))).

Definition quote : ascii := ascii_of_nat 34.

Definition appReadyStatus : str :=
  lit "App ready. Tap " ++ quote :: lit "Scan for Devices" ++ quote :: lit " to start.".

(** [paired.find(d => d.address === lastAddress)] *)
Definition findByAddress (lastAddress : str) (paired : list BluetoothDevice)
  : option BluetoothDevice :=
  find (fun d => eqs (address d) lastAddress) paired.

Definition initializeApp : M unit :=
  tryCatch
    (setStatus (lit "Initializing...") ;;
     getDeviceInfo ;;
     checkBluetoothEnabled ;;
     permissionsGranted <- requestPermissions ;;
     (if permissionsGranted then
        fetchPairedDevices ;;
        lastAddress <- getItem (lit "lastConnectedDevice") ;;
        (match lastAddress with
         | Some a =>
             if truthy a then
               paired <- awaitCall EvGetBonded
                           (fun t => awaited InitBonded (getBondedDevices p t)) ;;
               match findByAddress a paired with
               | Some device =>
                   tryCatch
                     (setStatus (lit "Reconnecting to last device...") ;;
                      connectToDevice device)
                     (fun _ => ret tt)
               | None => ret tt
               end
             else ret tt
         | None => ret tt
         end) ;;
        setStatus appReadyStatus
      else
        setStatus (lit "Permissions required. Please grant Bluetooth and Location permissions.")) ;;
     setIsAppReady true)
    (fun _ => setStatus (lit "Error initializing app. Please restart.")).

End WithPlatform.

End MainScreen.

(* ===================================================================== *)
(** * src/screens/MainScreen.tsx: scanning, disconnecting, removing *)
(* ===================================================================== *)

Module ScreenActions.

Import LogContext MainScreen.

Local Open Scope async_scope.

(** The calls of the Bluetooth binding made by the functions below.  As in
    [Platform], every call carries the number of platform calls made before
    it.  [startDiscovery] answers [None] when what it resolves with is not
    an array. *)
Record Radio : Type := mkRadio
  { cancelDiscovery : nat -> Timed bool;
    startDiscovery : nat -> Timed (option (list BluetoothDevice));
    disconnect : nat -> BluetoothDevice -> Timed bool;
    unpairDevice : nat -> str -> Timed bool;
    (* ['message' in error ? error.message : JSON.stringify(error)] for a
       value that is not an [Error] *)
    describeError : JsError -> str }.

(** [await] of a call of the radio; the trace has no event for it. *)
Definition awaitRadio {A : Type} (q : nat -> Timed A) : M A :=
  fun w =>
    let w' := mkWorld (ui w) (S (calls w)) (trace w) in
    match await (q (calls w)) with
    | Some (Resolved a) => (Val a, w')
    | Some (Rejected err) => (Exn err, w')
    | None => (Suspended, w')
    end.

(** [try { body } finally { final }] *)
Definition tryFinally {A : Type} (body : M A) (final : M unit) : M A :=
  fun w =>
    match body w with
    | (Suspended, w') => (Suspended, w')
    | (r, w') =>
        match final w' with
        | (Val _, w'') => (r, w'')
        | (Exn e, w'') => (Exn e, w'')
        | (Suspended, w'') => (Suspended, w'')
        end
    end.

Definition setIsScanning (b : bool) : M unit :=
  modify (fun st =>
    mkState (isBluetoothEnabled st) b (pairedDevices st)
      (unpairedDevices st) (connectedDevice st) (status st) (deviceInfo st)
      (isAppReady st) (permissionStatus st) (dataSubscription st) (logCtx st)).

Definition setUnpairedDevices (l : list BluetoothDevice) : M unit :=
  modify (fun st =>
    mkState (isBluetoothEnabled st) (isScanning st) (pairedDevices st)
      l (connectedDevice st) (status st) (deviceInfo st)
      (isAppReady st) (permissionStatus st) (dataSubscription st) (logCtx st)).

(** [p.name && device.name && p.name === device.name] *)
Definition sameName (p device : BluetoothDevice) : bool :=
  match name p, name device with
  | Some a, Some b => truthy a && truthy b && eqs a b
  | _, _ => false
  end.

(** [discovered.filter(device => !pairedDevices.some(p =>
      p.address === device.address || (p.name && device.name &&
      p.name === device.name)))] *)
Definition unpairedOnly (paired discovered : list BluetoothDevice)
  : list BluetoothDevice :=
  filter (fun device =>
            negb (existsb (fun p => eqs (address p) (address device)
                                    || sameName p device) paired))
         discovered.

(** [pairedDevices.filter(d => d.address !== device.address)] *)
Definition withoutAddress (device : BluetoothDevice)
    (paired : list BluetoothDevice) : list BluetoothDevice :=
  filter (fun d => negb (eqs (address d) (address device))) paired.

Section WithRadio.

Variable p : Platform.
Variable r : Radio.

(** The values of the state variables in the render whose closures are
    running. *)
Variable snap : State.

(** [typeof error === 'object' && error !== null && 'message' in error
      ? error.message : JSON.stringify(error)] *)
Definition scanErrorMsg (error : JsError) : str :=
  match error with
  | ErrorObj m => m
  | other => describeError r other
  end.

Definition foundNewStatus (n : nat) : str :=
  if n =? 0 then lit "No new devices found."
  else lit "Found " ++ natToString n ++ lit " new devices.".

(** The [await new Promise(res => setTimeout(res, 1000))] between
    [cancelDiscovery] and [requestPermissions] always resolves and calls
    nothing; it has no counterpart here. *)
Definition scanForDevices : M unit :=
  if negb (isBluetoothEnabled snap) then
    setStatus (lit "Bluetooth is disabled. Please enable Bluetooth first.") ;;
    emit (EvToast (lit "Please enable Bluetooth"))
  else if negb (isAppReady snap) then
    setStatus (lit "App is still initializing. Please wait.")
  else if isScanning snap then
    setStatus (lit "Already scanning. Please wait.")
  else
    setIsScanning true ;;
    setUnpairedDevices [] ;;
    setStatus (lit "Scanning for devices...") ;;
    tryFinally
      (tryCatch
         (awaitRadio (fun t => awaited ScanCancel (cancelDiscovery r t)) ;;
          granted <- requestPermissions p snap ;;
          if negb granted then
            setStatus (lit "Bluetooth permissions are required for scanning.") ;;
            setIsScanning false
          else
            bluetoothStillEnabled <-
              awaitCall EvIsBluetoothEnabled
                (fun t => awaited ScanEnabled (isBluetoothEnabled_ p t)) ;;
            if negb bluetoothStillEnabled then
              setStatus (lit "Bluetooth was disabled during scan.") ;;
              setIsScanning false
            else
              setStatus (lit "Scanning...") ;;
              discovered <-
                awaitRadio (fun t => awaited ScanDiscovery (startDiscovery r t)) ;;
              match discovered with
              | Some found =>
                  let unpaired := unpairedOnly (pairedDevices snap) found in
                  setUnpairedDevices unpaired ;;
                  setStatus (foundNewStatus (List.length unpaired))
              | None => setStatus (lit "Error: Invalid discovery results.")
              end)
         (fun error => setStatus (lit "Scan error: " ++ scanErrorMsg error)))
      (setIsScanning false).

Definition stopScanning : M unit :=
  tryCatch
    (awaitRadio (fun t => awaited StopCancel (cancelDiscovery r t)) ;;
     setIsScanning false ;;
     setStatus (lit "Scan stopped."))
    (fun _ => ret tt).

Definition disconnectDevice : M unit :=
  match connectedDevice snap with
  | None => ret tt
  | Some connected =>
      tryCatch
        (awaitRadio (fun t => awaited Disconnecting (disconnect r t connected)) ;;
         setConnectedDevice None ;;
         st <- getState ;;
         (match dataSubscription st with
          | Some _ => emit EvUnsubscribe ;; setDataSubscription None
          | None => ret tt
          end) ;;
         setStatus (lit "Disconnected."))
        (fun _ => setStatus (lit "Error disconnecting."))
  end.

(** The callback given to [setTimeout] after a removal runs later, outside
    the call; it is not part of [removePairedDevice]. *)
Definition removePairedDevice (device : BluetoothDevice) : M unit :=
  tryCatch
    (setStatus (lit "Removing " ++ nameOrAddress device ++ lit "...") ;;
     granted <- requestPermissions p snap ;;
     if negb granted then
       setStatus (lit "Bluetooth permissions are required to remove paired devices.")
     else
       (match connectedDevice snap with
        | Some connected =>
            if eqs (address connected) (address device)
            then disconnectDevice else ret tt
        | None => ret tt
        end) ;;
       removed <-
         awaitRadio (fun t => awaited Unpairing (unpairDevice r t (address device))) ;;
       if removed then
         let updatedPairedDevices := withoutAddress device (pairedDevices snap) in
         setPairedDevices updatedPairedDevices ;;
         savePairedDevices p updatedPairedDevices ;;
         setStatus (lit "Successfully removed " ++ nameOrAddress device ++ lit ".")
       else
         setStatus (lit "Failed to remove " ++ nameOrAddress device))
    (fun _ => setStatus (lit "Error removing paired device.")).

End WithRadio.

(** The cleanup of the effect of the screen: [backHandler.remove();
    appStateListener.remove(); if (dataSubscription) {
    dataSubscription.remove(); }].  The module variable keeps the
    subscription that was removed; the trace has no event for the two
    handlers. *)
Definition effectCleanup : M unit :=
  st <- getState ;;
  match dataSubscription st with
  | Some _ => emit EvUnsubscribe
  | None => ret tt
  end.

End ScreenActions.

(* ===================================================================== *)
(** * android/app/src/main/java/com/bluetooth/SafFileModule.kt *)
(* ===================================================================== *)

Module SafFileModule.

Local Open Scope Z_scope.

(** A React Native promise is known by the number the bridge gave it. *)
Definition Promise := nat.

Definition Uri := str.
Definition Bytes := list ascii.

(** [Activity.RESULT_OK] and [Activity.RESULT_CANCELED]. *)
Definition RESULT_OK : Z := -1.
Definition RESULT_CANCELED : Z := 0.

(** The request code of the create-document dialog. *)
Definition REQUEST_CODE : Z := 2025.

Definition MIME : str :=
  lit "application/vnd.openxmlformats-officedocument.spreadsheetml.sheet".

(** An [Intent] delivered to [onActivityResult], reduced to [data.data]. *)
Record Intent : Type := mkIntent
  { intentData : option Uri }.

(** What the module does that can be observed from outside, oldest first. *)
Inductive Event : Type :=
| StartActivityForResult (title : str) (mime : str) (requestCode : Z)
| OpenOutputStream (uri : Uri)
| Write (uri : Uri) (bytes : Bytes)
| Close (uri : Uri)
| Resolve (promise : Promise) (value : str)
| Reject (promise : Promise) (code : str) (message : option str).

(** [activity.contentResolver.openOutputStream(uri)] returns a stream,
    returns [null], or throws. *)
Inductive Opened : Type :=
| Stream
| NoStream
| OpenThrows (message : option str).

(** The Android side of a dialog result.  A [Some message] in [writeThrows]
    or [closeThrows] is an exception with that [e.message]. *)
Record Android : Type := mkAndroid
  { openOutputStream : Uri -> Opened;
    base64Decode : str -> Bytes + option str;     (* bytes, or the exception *)
    writeThrows : Uri -> Bytes -> option (option str);
    closeThrows : Uri -> option (option str) }.

(** The three fields of the module. *)
Record State : Type := mkState
  { pendingPromise : option Promise;
    pendingFileName : option str;
    pendingBase64 : option str }.

Definition initial : State := mkState None None None.

(** [fun saveFileWithDialog(fileName: String, base64: String, promise: Promise)];
    [hasActivity] tells whether [currentActivity] is non-null. *)
Definition saveFileWithDialog (hasActivity : bool)
    (fileName base64 : str) (promise : Promise) (st : State)
  : State * list Event :=
  if negb hasActivity then
    (st, [Reject promise (lit "NO_ACTIVITY") (Some (lit "No current activity"))])
  else
    (mkState (Some promise) (Some fileName) (Some base64),
     [StartActivityForResult fileName MIME REQUEST_CODE]).

(** The [try] block of [onActivityResult]. *)
Definition writeAndSettle (android : Android) (promise : Promise)
    (uri : Uri) (base64 : str) : list Event :=
  let writeError m := Reject promise (lit "WRITE_ERROR") m in
  match openOutputStream android uri with
  | OpenThrows m => [OpenOutputStream uri; writeError m]
  | Stream =>
      match base64Decode android base64 with
      | inr m => [OpenOutputStream uri; writeError m]
      | inl bytes =>
          match writeThrows android uri bytes with
          | Some m => [OpenOutputStream uri; Write uri bytes; writeError m]
          | None =>
              match closeThrows android uri with
              | Some m =>
                  [OpenOutputStream uri; Write uri bytes; Close uri; writeError m]
              | None =>
                  [OpenOutputStream uri; Write uri bytes; Close uri;
                   Resolve promise uri]
              end
          end
      end
  | NoStream =>
      (* [out?.write(bytes)] and [out?.close()] are skipped *)
      match base64Decode android base64 with
      | inr m => [OpenOutputStream uri; writeError m]
      | inl _ => [OpenOutputStream uri; Resolve promise uri]
      end
  end.

(** [override fun onActivityResult(activity, requestCode, resultCode, data)] *)
Definition onActivityResult (android : Android)
    (requestCode resultCode : Z) (data : option Intent) (st : State)
  : State * list Event :=
  match pendingPromise st with
  | Some promise =>
      if requestCode =? REQUEST_CODE then
        let settled :=
          match data with
          | Some intent =>
              if resultCode =? RESULT_OK then
                match intentData intent, pendingBase64 st with
                | Some uri, Some base64 => writeAndSettle android promise uri base64
                | _, _ => [Reject promise (lit "NO_URI") (Some (lit "No URI returned"))]
                end
              else [Reject promise (lit "CANCELLED") (Some (lit "User cancelled"))]
          | None => [Reject promise (lit "CANCELLED") (Some (lit "User cancelled"))]
          end in
        (mkState None None None, settled)
      else (st, [])
  | None => (st, [])
  end.

(** The calls the bridge and the activity can make. *)
Inductive call : Type :=
| SaveFileWithDialog (hasActivity : bool) (fileName base64 : str) (promise : Promise)
| OnActivityResult (android : Android) (requestCode resultCode : Z)
                   (data : option Intent).

Definition step (c : call) (st : State) : State * list Event :=
  match c with
  | SaveFileWithDialog a f b pr => saveFileWithDialog a f b pr st
  | OnActivityResult android rq rc d => onActivityResult android rq rc d st
  end.

(** The states the module can be in. *)
Inductive reachable : State -> Prop :=
| reachable_initial : reachable initial
| reachable_step c st : reachable st -> reachable (fst (step c st)).

(** Settlements of [promise] among some events. *)
Definition settles (promise : Promise) (e : Event) : bool :=
  match e with
  | Resolve pr _ => Nat.eqb pr promise
  | Reject pr _ _ => Nat.eqb pr promise
  | _ => false
  end.

Definition settlements (promise : Promise) (evs : list Event) : list Event :=
  filter (settles promise) evs.

End SafFileModule.

(* ===================================================================== *)
(** * Facts about the matcher *)
(* ===================================================================== *)

Module RegexFacts.

Import Regex.

Lemma prevAfter_nil prev : prevAfter prev [] = prev.
Proof. reflexivity. Qed.

Lemma prevAfter_cons prev c t : prevAfter prev (c :: t) = prevAfter (Some c) t.
Proof.
  unfold prevAfter. simpl. destruct (rev t) as [|x l]; reflexivity.
Qed.

Lemma prevAfter_app prev a b :
  prevAfter prev (a ++ b) = prevAfter (prevAfter prev a) b.
Proof.
  revert prev. induction a as [|c a IH]; intros prev; simpl.
  - reflexivity.
  - rewrite !prevAfter_cons. apply IH.
Qed.

Lemma runLength_le_length cls hi s : runLength cls hi s <= List.length s.
Proof.
  revert hi. induction s as [|c s IH]; intros hi; simpl; [lia|].
  destruct (cls c); [|lia].
  destruct hi as [[|h]|]; [lia| |].
  - specialize (IH (Some h)). lia.
  - specialize (IH None). lia.
Qed.

Lemma runLength_le_hi cls h s : runLength cls (Some h) s <= h.
Proof.
  revert h. induction s as [|c s IH]; intros h; simpl; [lia|].
  destruct (cls c); [|lia].
  destruct h as [|h]; [lia|]. specialize (IH h). lia.
Qed.

(** Any prefix no longer than the run consists of characters of the class. *)
Lemma runLength_prefix cls hi s n :
  n <= runLength cls hi s ->
  Forall (fun c => cls c = true) (firstn n s) /\ List.length (firstn n s) = n.
Proof.
  revert hi n. induction s as [|c s IH]; intros hi n H; simpl in H.
  - assert (n = 0) by lia. subst. simpl. auto.
  - destruct n as [|n]; [simpl; auto|].
    destruct (cls c) eqn:Hc; [|lia].
    destruct hi as [[|h]|]; [lia| |].
    + destruct (IH (Some h) n) as [F L]; [lia|]. simpl. split; [constructor; auto | lia].
    + destruct (IH None n) as [F L]; [lia|]. simpl. split; [constructor; auto | lia].
Qed.

(** A run of class characters followed by a character outside the class
    (or by the end of the input) is taken whole, when the bound allows. *)
Lemma runLength_exact cls hi e tail :
  Forall (fun c => cls c = true) e ->
  match hi with Some h => List.length e <= h | None => True end ->
  match tail with c :: _ => cls c = false | [] => True end ->
  runLength cls hi (e ++ tail) = List.length e.
Proof.
  intros F. revert hi. induction F as [|c e Hc F IH]; intros hi Hhi Ht; simpl.
  - destruct tail as [|c t]; [reflexivity|]. simpl. rewrite Ht. reflexivity.
  - rewrite Hc. destruct hi as [[|h]|]; simpl in Hhi.
    + lia.
    + f_equal. apply IH; [lia | assumption].
    + f_equal. apply IH; [exact I | assumption].
Qed.

Lemma backtrack_eq k capture lo prev s n :
  backtrack k capture lo prev s n =
  if n <? lo then None else
  match k (prevAfter prev (firstn n s)) (skipn n s) with
  | Some r => Some (extend capture (firstn n s) r)
  | None =>
      match n with
      | 0 => None
      | S n' => backtrack k capture lo prev s n'
      end
  end.
Proof. destruct n; reflexivity. Qed.

Lemma backtrack_inv k capture lo prev s n r :
  backtrack k capture lo prev s n = Some r ->
  exists m res, (lo <= m <= n) /\
    (k (prevAfter prev (firstn m s)) (skipn m s) = Some res) /\
    (r = extend capture (firstn m s) res).
Proof.
  induction n as [|n IH]; rewrite backtrack_eq; intros H.
  - destruct (Nat.ltb_spec 0 lo) as [E|E]; [discriminate|].
    destruct (k (prevAfter prev (firstn 0 s)) (skipn 0 s)) as [r'|] eqn:K; [|discriminate].
    injection H as <-. exists 0, r'. repeat split; auto; lia.
  - destruct (Nat.ltb_spec (S n) lo) as [E|E]; [discriminate|].
    destruct (k (prevAfter prev (firstn (S n) s)) (skipn (S n) s)) as [r'|] eqn:K.
    + injection H as <-. exists (S n), r'. repeat split; auto; lia.
    + destruct (IH H) as (m & r' & Hm & Hk & Hr).
      exists m, r'. repeat split; auto; lia.
Qed.

Lemma backtrack_first k capture lo prev s n r' :
  lo <= n ->
  k (prevAfter prev (firstn n s)) (skipn n s) = Some r' ->
  backtrack k capture lo prev s n = Some (extend capture (firstn n s) r').
Proof.
  intros Hlo Hk. rewrite backtrack_eq.
  destruct (Nat.ltb_spec n lo) as [E|E]; [lia|].
  rewrite Hk. reflexivity.
Qed.

(** Below the lower bound nothing is tried. *)
Lemma backtrack_short k capture lo prev s n :
  n < lo -> backtrack k capture lo prev s n = None.
Proof.
  intros H. rewrite backtrack_eq.
  destruct (Nat.ltb_spec n lo) as [E|E]; [reflexivity | lia].
Qed.

(** A successful match splits the input into the match and the rest. *)
Lemma matchHere_split ic r : forall prev s res,
  matchHere ic r prev s = Some res -> s = matched res ++ rest res.
Proof.
  induction r as [|nd r IH]; intros prev s res H; simpl in H.
  - injection H as <-. reflexivity.
  - destruct nd as [c|capture cls lo hi| |].
    + destruct s as [|a s]; [discriminate|].
      destruct (charMatches ic c a); [|discriminate].
      destruct (matchHere ic r (Some a) s) as [res'|] eqn:E; [|discriminate].
      injection H as <-. simpl. f_equal. eapply IH; eauto.
    + apply backtrack_inv in H. destruct H as (m & r' & _ & Hk & ->).
      apply IH in Hk. simpl. rewrite <- app_assoc, <- Hk. symmetry. apply firstn_skipn.
    + destruct prev; [discriminate|]. eapply IH; eauto.
    + destruct (xorb _ _); [|discriminate]. eapply IH; eauto.
Qed.

(** What [search] returns is a match at the position it reports. *)
Lemma search_sound re : forall s prev f,
  search re prev s = Some f ->
  exists suffix, s = before f ++ suffix /\
    matchHere (ignoreCase re) (nodes re) (prevAfter prev (before f)) suffix
      = Some (hit f).
Proof.
  induction s as [|c s IH]; intros prev f H; simpl in H.
  - destruct (matchHere _ _ prev []) as [r|] eqn:E; [|discriminate].
    injection H as <-. exists []. simpl. auto.
  - destruct (matchHere _ _ prev (c :: s)) as [r|] eqn:E.
    + injection H as <-. exists (c :: s). simpl. auto.
    + destruct (search re (Some c) s) as [f'|] eqn:S'; [|discriminate].
      injection H as <-. destruct (IH _ _ S') as (suf & Hs & Hm).
      exists suf. simpl. rewrite prevAfter_cons. split; [f_equal; auto | auto].
Qed.

(** No position before the reported one matches: the match is leftmost. *)
Lemma search_leftmost re : forall s prev f,
  search re prev s = Some f ->
  forall pre suffix, s = pre ++ suffix -> List.length pre < List.length (before f) ->
    matchHere (ignoreCase re) (nodes re) (prevAfter prev pre) suffix = None.
Proof.
  induction s as [|c s IH]; intros prev f H pre suffix Hs Hlen; simpl in H.
  - destruct (matchHere _ _ prev []) as [r|] eqn:E; [|discriminate].
    injection H as <-. simpl in Hlen. lia.
  - destruct (matchHere _ _ prev (c :: s)) as [r|] eqn:E.
    + injection H as <-. simpl in Hlen. lia.
    + destruct (search re (Some c) s) as [f'|] eqn:S'; [|discriminate].
      injection H as <-. simpl in Hlen.
      destruct pre as [|p pre]; simpl in Hs.
      * subst suffix. exact E.
      * injection Hs as Hc Hs. rewrite prevAfter_cons, <- Hc.
        apply (IH (Some c) f' S' pre suffix Hs). simpl in Hlen. lia.
Qed.

(** A match anywhere in the input makes [search] succeed. *)
Lemma search_complete re : forall pre prev suffix r,
  matchHere (ignoreCase re) (nodes re) (prevAfter prev pre) suffix = Some r ->
  search re prev (pre ++ suffix) <> None.
Proof.
  induction pre as [|c pre IH]; intros prev suffix r H.
  - rewrite prevAfter_nil in H. simpl app.
    destruct suffix; simpl; rewrite H; discriminate.
  - simpl. destruct (matchHere _ _ prev (c :: pre ++ suffix)); [discriminate|].
    rewrite prevAfter_cons in H. specialize (IH _ _ _ H).
    destruct (search re (Some c) (pre ++ suffix)); [discriminate | contradiction].
Qed.

Lemma eqc_true a b : eqc a b = true <-> a = b.
Proof. apply Ascii.eqb_eq. Qed.

(** One step of the matcher at a literal. *)
Lemma matchHere_Lit ic c r prev s res :
  matchHere ic (Lit c :: r) prev s = Some res ->
  exists a t res', s = a :: t /\ charMatches ic c a = true /\
    matchHere ic r (Some a) t = Some res' /\ res = extend false [a] res'.
Proof.
  simpl. destruct s as [|a t]; [discriminate|].
  destruct (charMatches ic c a) eqn:E; [|discriminate].
  destruct (matchHere ic r (Some a) t) as [res'|] eqn:M; [|discriminate].
  intros H. injection H as <-. exists a, t, res'. auto.
Qed.

Lemma matchHere_Lit_intro ic c r prev a t res' :
  charMatches ic c a = true ->
  matchHere ic r (Some a) t = Some res' ->
  matchHere ic (Lit c :: r) prev (a :: t) = Some (extend false [a] res').
Proof. intros E M. simpl. rewrite E, M. reflexivity. Qed.

(** One step of the matcher at a quantified class: some prefix made of
    class characters, within the bounds, is taken. *)
Lemma matchHere_Rep ic capture cls lo hi r prev s res :
  matchHere ic (Rep capture cls lo hi :: r) prev s = Some res ->
  exists taken t res', s = taken ++ t /\
    Forall (fun c => cls c = true) taken /\
    lo <= List.length taken /\
    match hi with Some h => List.length taken <= h | None => True end /\
    matchHere ic r (prevAfter prev taken) t = Some res' /\
    res = extend capture taken res'.
Proof.
  simpl. intros H. apply backtrack_inv in H.
  destruct H as (m & res' & Hm & Hk & ->).
  destruct (runLength_prefix cls hi s m) as [F L]; [lia|].
  exists (firstn m s), (skipn m s), res'.
  split; [symmetry; apply firstn_skipn|].
  split; [exact F|]. split; [lia|]. split; [|auto].
  destruct hi as [h|]; [|exact I].
  pose proof (runLength_le_hi cls h s). lia.
Qed.

(** When the class characters are followed by something else, the greedy
    first attempt takes them all; if the rest of the pattern matches
    there, that is the match. *)
Lemma matchHere_Rep_intro ic capture cls lo hi r prev taken t res' :
  Forall (fun c => cls c = true) taken ->
  lo <= List.length taken ->
  match hi with Some h => List.length taken <= h | None => True end ->
  match t with c :: _ => cls c = false | [] => True end ->
  matchHere ic r (prevAfter prev taken) t = Some res' ->
  matchHere ic (Rep capture cls lo hi :: r) prev (taken ++ t)
    = Some (extend capture taken res').
Proof.
  intros F Hlo Hhi Ht M. simpl.
  rewrite (runLength_exact cls hi taken t F Hhi Ht).
  assert (E1 : firstn (List.length taken) (taken ++ t) = taken).
  { rewrite firstn_app, Nat.sub_diag, firstn_all. simpl. apply app_nil_r. }
  assert (E2 : skipn (List.length taken) (taken ++ t) = t).
  { rewrite skipn_app, Nat.sub_diag, skipn_all. reflexivity. }
  rewrite <- E1 at 3.
  apply backtrack_first; [exact Hlo|].
  rewrite E1, E2. exact M.
Qed.

(** A pattern that starts with [^] only matches at the start of the input. *)
Lemma search_anchored re r : nodes re = Bol :: r ->
  forall s c, search re (Some c) s = None.
Proof.
  intros Hn. induction s as [|a s IH]; intros c; simpl; rewrite Hn; simpl.
  - reflexivity.
  - rewrite IH. reflexivity.
Qed.

Lemma search_anchored_start re r s : nodes re = Bol :: r ->
  search re None s =
  match matchHere (ignoreCase re) r None s with
  | Some res => Some (mkFound [] res)
  | None => None
  end.
Proof.
  intros Hn. destruct s as [|a s]; simpl; rewrite Hn; simpl.
  - destruct (matchHere _ r None []); reflexivity.
  - destruct (matchHere _ r None (a :: s)); [reflexivity|].
    rewrite (search_anchored re r Hn). reflexivity.
Qed.

(** *** The fuel of [replaceAll] *)

Lemma search_length re s prev f :
  search re prev s = Some f ->
  List.length s =
  List.length (before f) + List.length (matched (hit f)) + List.length (rest (hit f)).
Proof.
  intros H. destruct (search_sound re s prev f H) as (suffix & E & M).
  apply matchHere_split in M. rewrite E, M, !length_app. lia.
Qed.

(** Any fuel above the length of the input gives the same result: every
    resumption starts on a strictly shorter input. *)
Lemma replaceAllFrom_fuel re fn : forall fuel fuel' s prev,
  List.length s < fuel -> List.length s < fuel' ->
  replaceAllFrom fuel re fn prev s = replaceAllFrom fuel' re fn prev s.
Proof.
  induction fuel as [|fuel IH]; intros fuel' s prev L L'; [lia|].
  destruct fuel' as [|fuel']; [lia|].
  cbn [replaceAllFrom].
  destruct (search re prev s) as [f|] eqn:Hs; [|reflexivity].
  pose proof (search_length re s prev f Hs) as Len.
  destruct (matched (hit f)) as [|c m] eqn:Em;
    destruct (rest (hit f)) as [|d r] eqn:Er;
    simpl in Len; try reflexivity.
  - rewrite (IH fuel' r (Some d)) by lia. reflexivity.
  - rewrite (IH fuel' [] (prevAfter prev (before f ++ c :: m))) by (simpl; lia).
    reflexivity.
  - rewrite (IH fuel' (d :: r) (prevAfter prev (before f ++ c :: m)))
      by (simpl; lia).
    reflexivity.
Qed.

End RegexFacts.

(* ===================================================================== *)
(** * The patterns of the exporter, declaratively *)
(* ===================================================================== *)

Module Patterns.

Import Regex RegexFacts LogContext LogsScreen.

Definition digits (s : str) : Prop := Forall (fun c => isDigit c = true) s.

Definition spaces (s : str) : Prop := Forall (fun c => isSpace c = true) s.

(** [s] starts with [(10-13 digits),(digits),(digits)#]: the three fields
    are [e], [o] and [i]. *)
Definition PpmAt (s e o i : str) : Prop :=
  exists post,
    s = e ++ ","%char :: o ++ ","%char :: i ++ "#"%char :: post /\
    digits e /\ 10 <= List.length e <= 13 /\
    digits o /\ 1 <= List.length o /\
    digits i /\ 1 <= List.length i.

(** The pattern occurs somewhere in [s]. *)
Definition ContainsPpm (s : str) : Prop :=
  exists pre suffix e o i, s = pre ++ suffix /\ PpmAt suffix e o i.

(** [e], [o], [i] are the fields of the leftmost occurrence in [s]. *)
Definition FirstPpm (s e o i : str) : Prop :=
  exists pre suffix,
    s = pre ++ suffix /\ PpmAt suffix e o i /\
    forall pre' suffix' e' o' i',
      s = pre' ++ suffix' -> List.length pre' < List.length pre ->
      ~ PpmAt suffix' e' o' i'.

(** [s] matches [^\s*D:] without regard to case. *)
Definition DataLine (s : str) : Prop :=
  exists ws c tail,
    s = ws ++ c :: ":"%char :: tail /\ spaces ws /\ (c = "D"%char \/ c = "d"%char).

Lemma comma_not_digit : isDigit ","%char = false.
Proof. reflexivity. Qed.

Lemma hash_not_digit : isDigit "#"%char = false.
Proof. reflexivity. Qed.

Lemma matchHere_ppm_sound prev s r :
  matchHere false (nodes ppmPattern) prev s = Some r ->
  exists e o i, PpmAt s e o i /\ groups r = [e; o; i].
Proof.
  unfold ppmPattern, nodes. intros H.
  apply matchHere_Rep in H.
  destruct H as (e & t1 & r1 & -> & De & Le & He & H & ->).
  apply matchHere_Lit in H.
  destruct H as (a1 & t2 & r2 & -> & C1 & H & ->).
  apply matchHere_Rep in H.
  destruct H as (o & t3 & r3 & -> & Do & Lo & _ & H & ->).
  apply matchHere_Lit in H.
  destruct H as (a2 & t4 & r4 & -> & C2 & H & ->).
  apply matchHere_Rep in H.
  destruct H as (i & t5 & r5 & -> & Di & Li & _ & H & ->).
  apply matchHere_Lit in H.
  destruct H as (a3 & t6 & r6 & -> & C3 & H & ->).
  simpl in H. injection H as <-.
  apply eqc_true in C1, C2, C3. subst a1 a2 a3.
  exists e, o, i. split; [|reflexivity].
  exists t6. repeat split; auto.
Qed.

Lemma matchHere_ppm_complete prev s e o i :
  PpmAt s e o i ->
  exists r, matchHere false (nodes ppmPattern) prev s = Some r /\
            groups r = [e; o; i].
Proof.
  intros (post & -> & De & Le & Do & Lo & Di & Li).
  unfold ppmPattern, nodes.
  eexists. split.
  - apply matchHere_Rep_intro; [exact De | lia | lia | exact comma_not_digit |].
    apply matchHere_Lit_intro; [reflexivity|].
    apply matchHere_Rep_intro; [exact Do | lia | exact I | exact comma_not_digit |].
    apply matchHere_Lit_intro; [reflexivity|].
    apply matchHere_Rep_intro; [exact Di | lia | exact I | exact hash_not_digit |].
    apply matchHere_Lit_intro; [reflexivity|].
    reflexivity.
  - reflexivity.
Qed.

(** At one position the fields are determined by the input. *)
Lemma PpmAt_unique s e o i e' o' i' :
  PpmAt s e o i -> PpmAt s e' o' i' -> e = e' /\ o = o' /\ i = i'.
Proof.
  intros H H'.
  destruct (matchHere_ppm_complete None s e o i H) as (r & M & G).
  destruct (matchHere_ppm_complete None s e' o' i' H') as (r' & M' & G').
  rewrite M in M'. injection M' as <-. rewrite G in G'.
  injection G' as -> -> ->. auto.
Qed.

(** [dataLine.match(/(\d{10,13}),(\d+),(\d+)#/)] finds the fields of the
    leftmost occurrence of the pattern. *)
Lemma exec_ppm_some s m :
  exec ppmPattern s = Some m ->
  exists e o i, FirstPpm s e o i /\ m = [e; o; i].
Proof.
  unfold exec. destruct (search ppmPattern None s) as [f|] eqn:S; [|discriminate].
  intros H. injection H as <-.
  destruct (search_sound ppmPattern s None f S) as (suffix & Hs & M).
  destruct (matchHere_ppm_sound _ _ _ M) as (e & o & i & P & G).
  exists e, o, i. split; [|exact G].
  exists (before f), suffix. split; [exact Hs|]. split; [exact P|].
  intros pre' suffix' e' o' i' Hs' Hlen P'.
  pose proof (search_leftmost ppmPattern s None f S pre' suffix' Hs' Hlen) as N.
  destruct (matchHere_ppm_complete (prevAfter None pre') suffix' e' o' i' P')
    as (r' & M' & _).
  change (ignoreCase ppmPattern) with false in N.
  rewrite M' in N. discriminate.
Qed.

(** ... and finds nothing exactly when the pattern does not occur. *)
Lemma exec_ppm_none s :
  exec ppmPattern s = None <-> ~ ContainsPpm s.
Proof.
  split.
  - intros N (pre & suffix & e & o & i & -> & P).
    destruct (matchHere_ppm_complete (prevAfter None pre) suffix e o i P)
      as (r & M & _).
    apply (search_complete ppmPattern pre None suffix r M).
    unfold exec in N. destruct (search ppmPattern None (pre ++ suffix)); [discriminate|reflexivity].
  - intros NC. destruct (exec ppmPattern s) as [m|] eqn:E; [|reflexivity].
    exfalso. apply NC.
    destruct (exec_ppm_some s m E) as (e & o & i & (pre & suffix & Hs & P & _) & _).
    exists pre, suffix, e, o, i. auto.
Qed.

Lemma FirstPpm_contains s e o i : FirstPpm s e o i -> ContainsPpm s.
Proof.
  intros (pre & suffix & Hs & P & _). exists pre, suffix, e, o, i. auto.
Qed.

(** Under the [i] flag the literal [D] accepts both cases and nothing else;
    the colon accepts only itself. *)
Lemma charMatches_D a :
  charMatches true "D"%char a = true <-> a = "D"%char \/ a = "d"%char.
Proof.
  destruct a as [[] [] [] [] [] [] [] []]; vm_compute;
    split; intros H; try discriminate; auto;
    destruct H as [H|H]; discriminate.
Qed.

Lemma charMatches_colon a :
  charMatches true ":"%char a = true <-> a = ":"%char.
Proof.
  destruct a as [[] [] [] [] [] [] [] []]; vm_compute;
    split; intros H; try discriminate; auto.
Qed.

Lemma D_not_space c : c = "D"%char \/ c = "d"%char -> isSpace c = false.
Proof. intros [-> | ->]; reflexivity. Qed.

(** [/^\s*D:/i.test(s)] decides [DataLine s]. *)
Lemma test_dataLine s : test dataLinePattern s = true <-> DataLine s.
Proof.
  unfold test.
  rewrite (search_anchored_start dataLinePattern
             [Rep false isSpace 0 None; Lit "D"; Lit ":"] s eq_refl).
  simpl ignoreCase. split.
  - destruct (matchHere true _ None s) as [r|] eqn:M; [|discriminate]. intros _.
    apply matchHere_Rep in M.
    destruct M as (ws & t & r1 & -> & W & _ & _ & M & ->).
    apply matchHere_Lit in M. destruct M as (c & t2 & r2 & -> & C & M & ->).
    apply matchHere_Lit in M. destruct M as (c2 & t3 & r3 & -> & C2 & M & ->).
    apply charMatches_D in C. apply charMatches_colon in C2. subst c2.
    exists ws, c, t3. auto.
  - intros (ws & c & tail & -> & W & C).
    erewrite matchHere_Rep_intro; [reflexivity | exact W | lia | exact I
      | apply D_not_space; exact C |].
    apply matchHere_Lit_intro; [apply charMatches_D; exact C|].
    apply matchHere_Lit_intro; [reflexivity|].
    reflexivity.
Qed.

End Patterns.

(* ===================================================================== *)
(** * The exported worksheet *)
(* ===================================================================== *)

Module ExportFacts.

Import Regex RegexFacts LogContext LogsScreen Patterns.

(** The prefix [D:] with the white space around it is removed; the [D] of
    this pattern is case sensitive. *)
Lemma stripPrefix_data ws ws' tail :
  spaces ws -> spaces ws' ->
  match tail with c :: _ => isSpace c = false | [] => True end ->
  stripPrefix (ws ++ "D"%char :: ":"%char :: ws' ++ tail) = tail.
Proof.
  intros W W' T. unfold stripPrefix, replaceFirst.
  rewrite (search_anchored_start prefixPattern
     [Rep false isSpace 0 None; Lit "D"; Lit ":"; Rep false isSpace 0 None] _ eq_refl).
  simpl ignoreCase.
  assert (M : matchHere false
                [Rep false isSpace 0 None; Lit "D"; Lit ":"; Rep false isSpace 0 None]
                None (ws ++ "D"%char :: ":"%char :: ws' ++ tail)
              = Some (extend false ws (extend false ["D"%char]
                       (extend false [":"%char]
                          (extend false ws' (mkResult [] [] tail)))))).
  { apply matchHere_Rep_intro; [exact W | lia | exact I | reflexivity |].
    apply matchHere_Lit_intro; [reflexivity|].
    apply matchHere_Lit_intro; [reflexivity|].
    apply matchHere_Rep_intro; [exact W' | lia | exact I | exact T |].
    reflexivity. }
  rewrite M. reflexivity.
Qed.

Section Rows.

Variable toLocaleDateString : Z -> str.
Variable toLocaleTimeString : Z -> str.

Abbreviation rowOf := (rowOf toLocaleDateString toLocaleTimeString).
Abbreviation forEachPush := (forEachPush toLocaleDateString toLocaleTimeString).
Abbreviation excelData := (excelData toLocaleDateString toLocaleTimeString).

(** The row of a measurement: serial number, date and time of the epoch
    field read as seconds, and the two PPM fields. *)
Definition dataRow (serial : nat) (e o i : str) : list str :=
  [natToString serial;
   toLocaleDateString (parseDigits e * 1000);
   toLocaleTimeString (parseDigits e * 1000);
   o; i].

(** The row of a data line without measurement. *)
Definition emptyRow (serial : nat) : list str :=
  [natToString serial; []; []; []; []].

(** The rows pushed for [items], the first with number [n]. *)
Fixpoint rowsFrom (n : nat) (items : list LogEntry) : list (list str) :=
  match items with
  | [] => []
  | item :: items' => rowOf n item :: rowsFrom (S n) items'
  end.

Lemma forEachPush_rows : forall items n acc,
  forEachPush n items acc = acc ++ rowsFrom n items.
Proof.
  induction items as [|item items IH]; intros n acc; simpl.
  - symmetry. apply app_nil_r.
  - rewrite IH, <- app_assoc. reflexivity.
Qed.

Lemma excelData_rows logData :
  excelData logData = header :: rowsFrom 1 (filtered logData).
Proof. unfold LogsScreen.excelData. rewrite forEachPush_rows. reflexivity. Qed.

Lemma rowsFrom_length : forall items n,
  List.length (rowsFrom n items) = List.length items.
Proof. induction items; intros n; simpl; auto. Qed.

Lemma rowsFrom_nth : forall items n k,
  nth_error (rowsFrom n items) k =
  option_map (rowOf (n + k)) (nth_error items k).
Proof.
  induction items as [|item items IH]; intros n k.
  - destruct k; reflexivity.
  - destruct k as [|k]; simpl.
    + rewrite Nat.add_0_r. reflexivity.
    + rewrite IH. replace (S n + k) with (n + S k) by lia. reflexivity.
Qed.

Lemma rowOf_cases serial item :
  (exists e o i, FirstPpm (stripPrefix (data item)) e o i /\
                 rowOf serial item = dataRow serial e o i)
  \/ (~ ContainsPpm (stripPrefix (data item)) /\
      rowOf serial item = emptyRow serial).
Proof.
  unfold LogsScreen.rowOf.
  destruct (exec ppmPattern (stripPrefix (data item))) as [m|] eqn:E.
  - left. destruct (exec_ppm_some _ _ E) as (e & o & i & F & ->).
    exists e, o, i. split; [exact F | reflexivity].
  - right. split; [apply exec_ppm_none; exact E | reflexivity].
Qed.

Lemma rowOf_empty serial item :
  ~ ContainsPpm (stripPrefix (data item)) -> rowOf serial item = emptyRow serial.
Proof.
  intros N. destruct (rowOf_cases serial item) as [(e & o & i & F & _) | [_ H]].
  - exfalso. apply N. exact (FirstPpm_contains _ _ _ _ F).
  - exact H.
Qed.

Lemma rowOf_serial serial item :
  nth_error (rowOf serial item) 0 = Some (natToString serial).
Proof.
  unfold LogsScreen.rowOf.
  destruct (exec ppmPattern (stripPrefix (data item))); reflexivity.
Qed.

End Rows.

End ExportFacts.

(* ===================================================================== *)
(** * The log context *)
(* ===================================================================== *)

Module LogContextFacts.

Import LogContext.

Lemma appendLog_keeps st now d k entry :
  nth_error (logData st) k = Some entry ->
  nth_error (logData (appendLog now d st)) k = Some entry.
Proof.
  intros H. simpl. rewrite nth_error_app1; [exact H|].
  apply nth_error_Some. rewrite H. discriminate.
Qed.

(** C9. Each operation of the log context changes only its own part of the
    state: [startLogging] and [stopLogging] set [isLogging] to true
    respectively false and leave [logData] as it is; [appendLog] adds
    exactly one entry at the end, every entry already present stays at its
    index, and [isLogging] is unchanged; [clearLogs] empties the list and
    leaves [isLogging] unchanged. *)
Theorem C9_log_context_frame (st : State) (now d : str) :
  (isLogging (startLogging st) = true /\
   logData (startLogging st) = logData st) /\
  (isLogging (stopLogging st) = false /\
   logData (stopLogging st) = logData st) /\
  (logData (appendLog now d st) = logData st ++ [mkLogEntry now d] /\
   List.length (logData (appendLog now d st)) = S (List.length (logData st)) /\
   (forall k entry, nth_error (logData st) k = Some entry ->
                    nth_error (logData (appendLog now d st)) k = Some entry) /\
   isLogging (appendLog now d st) = isLogging st) /\
  (logData (clearLogs st) = [] /\
   isLogging (clearLogs st) = isLogging st).
Proof.
  repeat split.
  - simpl. rewrite length_app. simpl. lia.
  - intros k entry H. apply appendLog_keeps. exact H.
Qed.

Definition sampleEntry : LogEntry :=
  mkLogEntry (lit "2024-01-01T00:00:00.000Z") (lit "D:1700000000,12,34#").

Definition sampleState : State := mkState true [sampleEntry].

(** C9 on a context that holds one entry: the entry is still first after
    an append. *)
Lemma C9_log_context_frame_witness :
  nth_error (logData sampleState) 0 = Some sampleEntry /\
  nth_error (logData (appendLog (lit "later") (lit "P:1") sampleState)) 0
    = Some sampleEntry.
Proof.
  split; [reflexivity|].
  destruct (C9_log_context_frame sampleState (lit "later") (lit "P:1"))
    as (_ & _ & (_ & _ & Keep & _) & _).
  apply (Keep 0 sampleEntry). reflexivity.
Defined.

End LogContextFacts.

(* ===================================================================== *)
(** * The data listener and the device filter of the main screen *)
(* ===================================================================== *)

Module MainScreenFacts.

Import LogContext MainScreen.

(** The listener appends whatever the value of [isLogging]. *)
Lemma onDataReceived_appends now d w ctx :
  logCtx (ui w) = Some ctx ->
  logCtx (ui (snd (onDataReceived now d w))) = Some (appendLog now d ctx).
Proof.
  intros H. unfold onDataReceived, bind, setStatus, modify, emit, getState, setLogCtx.
  simpl. rewrite H. reflexivity.
Qed.

(** C3, evaluated.  In the initial state logging is inactive; a payload
    that arrives from the device is appended to the log all the same. *)
Theorem C3_payload_logged_while_inactive :
  let w0 := mkWorld initialState 0 [] in
  let w1 := snd (onDataReceived (lit "2024-01-01T00:00:00.000Z")
                                (lit "D:1700000000,12,34#") w0) in
  option_map isLogging (logCtx (ui w0)) = Some false /\
  option_map isLogging (logCtx (ui w1)) = Some false /\
  option_map logData (logCtx (ui w0)) = Some [] /\
  option_map logData (logCtx (ui w1)) =
    Some [mkLogEntry (lit "2024-01-01T00:00:00.000Z") (lit "D:1700000000,12,34#")].
Proof. repeat split. Qed.

(** ** Substrings *)












(** ** Timeouts *)






End MainScreenFacts.

(* ===================================================================== *)
(** * The export of the logs screen *)
(* ===================================================================== *)

Module ExportTheorems.

Import Regex RegexFacts LogContext LogsScreen Patterns ExportFacts.

Section Sheet.

Variable toLocaleDateString : Z -> str.
Variable toLocaleTimeString : Z -> str.

Lemma isDataLine_spec item : isDataLine item = true <-> DataLine (data item).
Proof. apply test_dataLine. Qed.

Lemma sheet_tail logData :
  tl (excelData toLocaleDateString toLocaleTimeString logData)
  = rowsFrom toLocaleDateString toLocaleTimeString 1 (filtered logData).
Proof. rewrite excelData_rows. reflexivity. Qed.

Lemma sheet_row logData k :
  nth_error (tl (excelData toLocaleDateString toLocaleTimeString logData)) k
  = option_map (rowOf toLocaleDateString toLocaleTimeString (S k))
               (nth_error (filtered logData) k).
Proof. rewrite sheet_tail, rowsFrom_nth. reflexivity. Qed.

(** C10. The worksheet starts with the fixed header row.  After it comes
    one row for each captured entry whose data matches [^\s*D:] without
    regard to case, in log order; the first cell of the k-th of these rows
    is the decimal string of k; and the row of such an entry whose
    remainder does not contain [(10-13 digits),(digits),(digits)#] has
    empty date, time and PPM cells. *)
Theorem C10_worksheet_rows (logData : list LogEntry) :
  let sheet := excelData toLocaleDateString toLocaleTimeString logData in
  let matching := filter isDataLine logData in
  hd_error sheet = Some header /\
  header = map lit ["Serial Number"; "Date"; "Time"; "Outlet PPM"; "Inlet PPM"]%string /\
  (forall item, isDataLine item = true <-> DataLine (data item)) /\
  List.length (tl sheet) = List.length matching /\
  (forall k row, nth_error (tl sheet) k = Some row ->
     nth_error row 0 = Some (natToString (S k))) /\
  (forall k item, nth_error matching k = Some item ->
     ~ ContainsPpm (stripPrefix (data item)) ->
     nth_error (tl sheet) k = Some [natToString (S k); []; []; []; []]).
Proof.
  intros sheet matching. subst sheet matching.
  split; [rewrite excelData_rows; reflexivity|].
  split; [reflexivity|].
  split; [exact isDataLine_spec|].
  split; [rewrite sheet_tail; apply rowsFrom_length|].
  split.
  - intros k row H. rewrite sheet_row in H.
    destruct (nth_error (filtered logData) k) as [item|]; [|discriminate].
    injection H as <-. apply rowOf_serial.
  - intros k item H N. rewrite sheet_row.
    change (filter isDataLine logData) with (filtered logData) in H.
    rewrite H. simpl. f_equal. apply rowOf_empty. exact N.
Qed.

End Sheet.

(** ** Concrete logs *)

Definition entry (d : string) : LogEntry :=
  mkLogEntry (lit "2024-01-01T00:00:00.000Z") (lit d).

Definition sampleLog : list LogEntry :=
  [entry "D:hello"; entry "P:1700000000"; entry " d: 1700000000,12,34#"].

Definition isoDate (ms : Z) : str := lit "date " ++ ZToString ms.
Definition isoTime (ms : Z) : str := lit "time " ++ ZToString ms.

Example sample_sheet :
  map (map show) (excelData isoDate isoTime sampleLog) =
  [["Serial Number"; "Date"; "Time"; "Outlet PPM"; "Inlet PPM"];
   ["1"; ""; ""; ""; ""];
   ["2"; "date 1700000000000"; "time 1700000000000"; "12"; "34"]]%string.
Proof. vm_compute. reflexivity. Qed.

Lemma hello_has_no_fields : ~ ContainsPpm (stripPrefix (data (entry "D:hello"))).
Proof. apply exec_ppm_none. vm_compute. reflexivity. Qed.

(** C10 on the sample log: the first data row is empty but for its number,
    the second is numbered 2. *)
Lemma C10_worksheet_rows_witness :
  nth_error (tl (excelData isoDate isoTime sampleLog)) 0
    = Some [natToString 1; []; []; []; []] /\
  (exists row, nth_error (tl (excelData isoDate isoTime sampleLog)) 1 = Some row /\
               nth_error row 0 = Some (natToString 2)).
Proof.
  destruct (C10_worksheet_rows isoDate isoTime sampleLog)
    as (_ & _ & _ & _ & Serial & Empty).
  split.
  - apply (Empty 0 (entry "D:hello")); [reflexivity | exact hello_has_no_fields].
  - eexists. split; [vm_compute; reflexivity|].
    apply (Serial 1). vm_compute. reflexivity.
Defined.

End ExportTheorems.

(* ===================================================================== *)
(** * Running the export *)
(* ===================================================================== *)

Module ExportRun.

Import LogContext LogsScreen.

(** The name of the exported file ends in [.xlsx]. *)
Lemma fileName_extension env :
  exists stem, fileName env = stem ++ lit ".xlsx".
Proof.
  unfold fileName.
  exists (lit "bluetooth_logs_" ++ replaceColons (slice0 19 (nowISO env))).
  rewrite <- app_assoc. reflexivity.
Qed.

Definition isShare (e : Event) : bool :=
  match e with EvShare _ _ => true | _ => false end.

(** Off Android the file is written by [RNFS.writeFile], and the share
    sheet is opened only after that call resolved: the run shows it.  On
    Android the writing is the native module's and the run does not tell. *)
Definition writtenByRNFS (env : Env) (ctx : LogContext.State) : bool :=
  existsb isShare (events (exportToExcel env ctx)).

(** The request that hands the workbook to the platform. *)
Definition saveRequest (env : Env) (content : str) : Event :=
  if os_android env
  then EvSaveDialog (fileName env) content
  else EvWriteFile (documentDirectoryPath env ++ lit "/" ++ fileName env) content.

(** The answer of the platform to that request. *)
Definition saveAnswer (env : Env) (content : str) : option (Outcome unit) :=
  if os_android env
  then match await (saveFileWithDialog env (fileName env) content) with
       | Some (Resolved _) => Some (Resolved tt)
       | Some (Rejected e) => Some (Rejected e)
       | None => None
       end
  else await (writeFile env (documentDirectoryPath env ++ lit "/" ++ fileName env)
                        content).

Definition isWorkbook (e : Event) : bool :=
  match e with EvWorkbook _ => true | _ => false end.

Definition isFileRequest (e : Event) : bool :=
  match e with EvSaveDialog _ _ | EvWriteFile _ _ => true | _ => false end.

(** The run of [exportToExcel] past its guard. *)
Definition nonEmptyRun (env : Env) (ctx : LogContext.State) : Run :=
  let rows := excelData (toLocaleDateString env) (toLocaleTimeString env)
                        (logData ctx) in
  let excelBuffer := xlsxWrite env rows in
  let name := fileName env in
  if os_android env then
    let started := [EvWorkbook rows; EvSaveDialog name excelBuffer] in
    match await (saveFileWithDialog env name excelBuffer) with
    | Some (Resolved uri) =>
        mkRun ctx (started ++ [EvToast (lit "Log file saved!")]) true
    | Some (Rejected e) => mkRun ctx (started ++ [errorAlert e]) true
    | None => mkRun ctx started false
    end
  else
    let filePath := documentDirectoryPath env ++ lit "/" ++ name in
    let started := [EvWorkbook rows; EvWriteFile filePath excelBuffer] in
    match await (writeFile env filePath excelBuffer) with
    | Some (Resolved _) =>
        let url := lit "file://" ++ filePath in
        let shared := started ++ [EvShare url name] in
        match await (shareOpen env url name) with
        | Some (Resolved _) =>
            mkRun ctx (shared ++ [EvAlert (lit "Success")
                                          (lit "Log file saved to device.")]) true
        | Some (Rejected e) => mkRun ctx (shared ++ [errorAlert e]) true
        | None => mkRun ctx shared false
        end
    | Some (Rejected e) => mkRun ctx (started ++ [errorAlert e]) true
    | None => mkRun ctx started false
    end.

Lemma exportToExcel_nonempty env ctx :
  logData ctx <> [] -> exportToExcel env ctx = nonEmptyRun env ctx.
Proof.
  intros NE. unfold exportToExcel, nonEmptyRun.
  destruct (logData ctx) as [|item items]; [contradiction | reflexivity].
Qed.

(** No setter of the log context is called. *)
Lemma exportToExcel_after env ctx : after (exportToExcel env ctx) = ctx.
Proof.
  unfold exportToExcel. destruct (logData ctx); [reflexivity|].
  destruct (os_android env).
  - destruct (await (saveFileWithDialog env _ _)) as [[u|e]|]; reflexivity.
  - destruct (await (writeFile env _ _)) as [[u|e]|]; [|reflexivity|reflexivity].
    destruct (await (shareOpen env _ _)) as [[u'|e']|]; reflexivity.
Qed.

(** The event that follows the request when the platform call succeeds:
    the toast on Android, the share sheet elsewhere. *)
Definition afterSave (env : Env) : Event :=
  if os_android env
  then EvToast (lit "Log file saved!")
  else EvShare (lit "file://" ++ documentDirectoryPath env ++ lit "/" ++ fileName env)
               (fileName env).

(** C7, amended.  With an empty log the export shows the [No Data] alert
    and does nothing else: no workbook is generated, no file is requested
    and the log context is unchanged.  With a non-empty log the workbook is
    generated from the captured entries and handed to the platform, once,
    under a name that ends in [.xlsx] (the save dialog on Android, a file
    write elsewhere), the log context again unchanged.  What becomes of the
    file is the platform's doing: when the call is rejected the run ends
    with the [Error] alert and does nothing more, when it resolves the run
    goes on to report the save (the toast on Android, the share sheet
    elsewhere). *)
Theorem C7_export_guard (env : Env) (ctx : LogContext.State) :
  let run := exportToExcel env ctx in
  let rows := excelData (toLocaleDateString env) (toLocaleTimeString env)
                        (logData ctx) in
  let content := xlsxWrite env rows in
  (logData ctx = [] ->
     events run = [EvAlert (lit "No Data") (lit "No log data to export.")] /\
     filter isWorkbook (events run) = [] /\
     filter isFileRequest (events run) = [] /\
     after run = ctx /\ finished run = true) /\
  (logData ctx <> [] ->
     after run = ctx /\
     (exists stem, fileName env = stem ++ lit ".xlsx") /\
     (exists later, events run = EvWorkbook rows :: saveRequest env content :: later) /\
     filter isWorkbook (events run) = [EvWorkbook rows] /\
     filter isFileRequest (events run) = [saveRequest env content] /\
     (forall e, saveAnswer env content = Some (Rejected e) ->
        events run = [EvWorkbook rows; saveRequest env content; errorAlert e] /\
        finished run = true) /\
     (saveAnswer env content = Some (Resolved tt) ->
        nth_error (events run) 2 = Some (afterSave env))).
Proof.
  intros run rows content. subst run rows content. split.
  - intros E. unfold exportToExcel. rewrite E.
    repeat split; reflexivity.
  - intros NE.
    split; [apply exportToExcel_after|].
    split; [apply fileName_extension|].
    rewrite (exportToExcel_nonempty env ctx NE).
    unfold nonEmptyRun, saveRequest, saveAnswer, afterSave.
    destruct (os_android env).
    + destruct (await (saveFileWithDialog env _ _)) as [[u|e0]|];
        cbn [events finished app filter isWorkbook isFileRequest errorAlert];
        (split; [eexists; reflexivity|]);
        (split; [reflexivity|]); (split; [reflexivity|]);
        (split; [intros e H; try discriminate | intros H; try discriminate]).
      * reflexivity.
      * injection H as <-. split; reflexivity.
    + destruct (await (writeFile env _ _)) as [[[]|e0]|].
      * destruct (await (shareOpen env _ _)) as [[u'|e']|];
          cbn [events finished app filter isWorkbook isFileRequest errorAlert];
          (split; [eexists; reflexivity|]);
          (split; [reflexivity|]); (split; [reflexivity|]);
          (split; [intros e H; discriminate | intros _; reflexivity]).
      * cbn [events finished app filter isWorkbook isFileRequest errorAlert].
        split; [eexists; reflexivity|].
        split; [reflexivity|]. split; [reflexivity|].
        split; [|intros H; discriminate].
        intros e H. injection H as <-. split; reflexivity.
      * cbn [events finished app filter isWorkbook isFileRequest errorAlert].
        split; [eexists; reflexivity|].
        split; [reflexivity|]. split; [reflexivity|].
        split; [intros e H; discriminate | intros H; discriminate].
Qed.

(** ** A cancelled save *)

(** An Android device on which the user dismisses the save dialog: the
    native module rejects with [CANCELLED], "User cancelled". *)
Definition cancelling : Env :=
  mkEnv true (lit "2024-01-01T10:20:30.000Z")
        (fun ms => lit "date") (fun ms => lit "time")
        (fun rows => lit "UEsDBBQ=")
        (fun name content => Settles 0 (Rejected (ErrorObj (lit "User cancelled"))))
        (lit "/data/user/0/com.bluetooth/files")
        (fun path content => Settles 0 (Resolved tt))
        (fun url name => Settles 0 (Resolved tt)).

Definition oneEntry : LogContext.State :=
  mkState true [mkLogEntry (lit "2024-01-01T10:20:00.000Z") (lit "D:1700000000,12,34#")].

Example cancelled_file_name :
  show (fileName cancelling) = "bluetooth_logs_2024-01-01T10-20-30.xlsx"%string.
Proof. reflexivity. Qed.

(** C7 on the empty log, and on a log of one entry when the save dialog is
    dismissed. *)
Lemma C7_export_guard_witness :
  events (exportToExcel cancelling LogContext.initial)
    = [EvAlert (lit "No Data") (lit "No log data to export.")] /\
  events (exportToExcel cancelling oneEntry)
    = [EvWorkbook (excelData (toLocaleDateString cancelling)
                             (toLocaleTimeString cancelling) (logData oneEntry));
       saveRequest cancelling (lit "UEsDBBQ=");
       errorAlert (ErrorObj (lit "User cancelled"))].
Proof.
  destruct (C7_export_guard cancelling LogContext.initial) as [Empty _].
  destruct (C7_export_guard cancelling oneEntry) as [_ Full].
  split.
  - apply Empty. reflexivity.
  - destruct Full as (_ & _ & _ & _ & _ & Rej & _); [discriminate|].
    apply (Rej (ErrorObj (lit "User cancelled"))). reflexivity.
Defined.

End ExportRun.

(* ===================================================================== *)
(** * The save dialog of the native module *)
(* ===================================================================== *)

Module SafFacts.

Import SafFileModule.

Local Open Scope Z_scope.

(** While a promise is pending, so are the file name and the content. *)
Definition consistent (st : State) : Prop :=
  pendingPromise st <> None ->
  pendingFileName st <> None /\ pendingBase64 st <> None.

Lemma step_consistent c st : consistent st -> consistent (fst (step c st)).
Proof.
  intros I. destruct c as [a f b pr | android rq rc d]; simpl.
  - unfold saveFileWithDialog. destruct a; simpl; [|exact I].
    intros _. split; discriminate.
  - unfold onActivityResult.
    destruct (pendingPromise st) as [pr|] eqn:P; [|exact I].
    destruct (rq =? REQUEST_CODE); [|exact I].
    simpl. intros H. contradiction.
Qed.

Lemma reachable_consistent st : reachable st -> consistent st.
Proof.
  induction 1 as [|c st R IH].
  - intros H. contradiction.
  - apply step_consistent. exact IH.
Qed.

Lemma reachable_base64 st pr :
  reachable st -> pendingPromise st = Some pr ->
  exists base64, pendingBase64 st = Some base64.
Proof.
  intros R P. destruct (reachable_consistent st R) as [_ B].
  - rewrite P. discriminate.
  - destruct (pendingBase64 st) as [b|]; [exists b; reflexivity | contradiction].
Qed.

(** Every run of the [try] block settles the promise once, as its last
    action. *)
Lemma writeAndSettle_once android pr uri base64 :
  List.length (settlements pr (writeAndSettle android pr uri base64)) = 1%nat.
Proof.
  unfold writeAndSettle, settlements.
  destruct (openOutputStream android uri);
    destruct (base64Decode android base64) as [bytes|m];
    try destruct (writeThrows android uri bytes);
    try destruct (closeThrows android uri);
    simpl; rewrite Nat.eqb_refl; reflexivity.
Qed.

Definition cancelled (pr : Promise) : Event :=
  Reject pr (lit "CANCELLED") (Some (lit "User cancelled")).

Definition noUri (pr : Promise) : Event :=
  Reject pr (lit "NO_URI") (Some (lit "No URI returned")).

Definition noActivity (pr : Promise) : Event :=
  Reject pr (lit "NO_ACTIVITY") (Some (lit "No current activity")).

Definition writeError (pr : Promise) (m : option str) : Event :=
  Reject pr (lit "WRITE_ERROR") m.

(** C8, amended.  [saveFileWithDialog] rejects with [NO_ACTIVITY] when
    there is no current activity and otherwise records the promise and
    opens the create-document dialog.  A result of that dialog, while a
    promise is pending, settles the promise exactly once and nothing is
    pending afterwards, so that no later result settles it again: it is
    rejected with [CANCELLED] when the result code is not [RESULT_OK] or no
    intent is delivered, with [NO_URI] when the intent carries no URI, and
    with [WRITE_ERROR] when opening the stream, decoding, writing or
    closing throws; when a stream is opened and nothing throws, the decoded
    bytes are written to the URI and the promise is then resolved with the
    URI string.  A result with another request code, or with nothing
    pending, changes nothing. *)
Theorem C8_saf_settlement (android : Android) (st : State) (pr : Promise) :
  (forall fileName base64,
     saveFileWithDialog false fileName base64 pr st = (st, [noActivity pr])) /\
  (forall fileName base64,
     saveFileWithDialog true fileName base64 pr st =
       (mkState (Some pr) (Some fileName) (Some base64),
        [StartActivityForResult fileName MIME REQUEST_CODE])) /\
  (reachable st -> pendingPromise st = Some pr ->
   forall resultCode data,
     let out := onActivityResult android REQUEST_CODE resultCode data st in
     fst out = initial /\
     List.length (settlements pr (snd out)) = 1%nat /\
     (forall rq rc d, onActivityResult android rq rc d (fst out) = (fst out, [])) /\
     (resultCode <> RESULT_OK \/ data = None -> snd out = [cancelled pr]) /\
     (resultCode = RESULT_OK -> data = Some (mkIntent None) ->
        snd out = [noUri pr]) /\
     (forall uri base64,
        resultCode = RESULT_OK -> data = Some (mkIntent (Some uri)) ->
        pendingBase64 st = Some base64 ->
        (forall bytes,
           openOutputStream android uri = Stream ->
           base64Decode android base64 = inl bytes ->
           writeThrows android uri bytes = None ->
           closeThrows android uri = None ->
           snd out = [OpenOutputStream uri; Write uri bytes; Close uri;
                      Resolve pr uri]) /\
        (forall m, openOutputStream android uri = OpenThrows m ->
           snd out = [OpenOutputStream uri; writeError pr m]) /\
        (forall m,
           openOutputStream android uri = Stream \/
           openOutputStream android uri = NoStream ->
           base64Decode android base64 = inr m ->
           snd out = [OpenOutputStream uri; writeError pr m]) /\
        (forall bytes m,
           openOutputStream android uri = Stream ->
           base64Decode android base64 = inl bytes ->
           writeThrows android uri bytes = Some m ->
           snd out = [OpenOutputStream uri; Write uri bytes; writeError pr m]) /\
        (forall bytes m,
           openOutputStream android uri = Stream ->
           base64Decode android base64 = inl bytes ->
           writeThrows android uri bytes = None ->
           closeThrows android uri = Some m ->
           snd out = [OpenOutputStream uri; Write uri bytes; Close uri;
                      writeError pr m]))) /\
  (forall requestCode resultCode data,
     requestCode <> REQUEST_CODE \/ pendingPromise st = None ->
     onActivityResult android requestCode resultCode data st = (st, [])).
Proof.
  split; [reflexivity|]. split; [reflexivity|]. split.
  - intros R P resultCode data out.
    destruct (reachable_base64 st pr R P) as (b & B).
    subst out. unfold onActivityResult. rewrite P, B, Z.eqb_refl.
    cbn [fst snd].
    split; [reflexivity|]. split.
    { destruct data as [[[uri|]]|]; destruct (Z.eqb_spec resultCode RESULT_OK);
        try (unfold settlements; simpl; rewrite Nat.eqb_refl; reflexivity).
      apply writeAndSettle_once. }
    split; [reflexivity|]. split.
    { intros [N | ->]; [|reflexivity].
      destruct data as [intent|]; [|reflexivity].
      destruct (Z.eqb_spec resultCode RESULT_OK); [contradiction | reflexivity]. }
    split.
    { intros -> ->. reflexivity. }
    intros uri base64 -> -> E. injection E as <-. cbn [intentData Z.eqb RESULT_OK].
    change (-1 =? -1) with true. cbv iota.
    unfold writeAndSettle, writeError.
    split; [intros bytes -> -> -> ->; reflexivity|].
    split; [intros m ->; reflexivity|].
    split; [intros m [-> | ->] ->; reflexivity|].
    split; [intros bytes m -> -> ->; reflexivity|].
    intros bytes m -> -> -> ->. reflexivity.
  - intros requestCode resultCode data [N | P]; unfold onActivityResult.
    + destruct (pendingPromise st); [|reflexivity].
      destruct (Z.eqb_spec requestCode REQUEST_CODE); [contradiction | reflexivity].
    + rewrite P. reflexivity.
Qed.

(** ** A dialog in progress *)

Definition asked : State :=
  fst (step (SaveFileWithDialog true (lit "bluetooth_logs.xlsx") (lit "UEsDBBQ=") 7%nat)
            initial).

Lemma asked_reachable : reachable asked.
Proof. apply reachable_step. apply reachable_initial. Defined.

(** A content resolver that hands out no stream. *)
Definition streamless : Android :=
  mkAndroid (fun uri => NoStream) (fun s => inl s)
            (fun uri bytes => None) (fun uri => None).

(** A content resolver that works. *)
Definition working : Android :=
  mkAndroid (fun uri => Stream) (fun s => inl s)
            (fun uri bytes => None) (fun uri => None).

(** C8 on a dialog in progress: a document is chosen and written, or the
    dialog is cancelled. *)
Lemma C8_saf_settlement_witness :
  snd (onActivityResult working REQUEST_CODE RESULT_OK
         (Some (mkIntent (Some (lit "content://doc/1")))) asked)
  = [OpenOutputStream (lit "content://doc/1");
     Write (lit "content://doc/1") (lit "UEsDBBQ=");
     Close (lit "content://doc/1");
     Resolve 7%nat (lit "content://doc/1")] /\
  snd (onActivityResult working REQUEST_CODE RESULT_CANCELED None asked)
  = [cancelled 7%nat].
Proof.
  destruct (C8_saf_settlement working asked 7%nat) as (_ & _ & Result & _).
  split.
  - destruct (Result asked_reachable eq_refl RESULT_OK
                (Some (mkIntent (Some (lit "content://doc/1")))))
      as (_ & _ & _ & _ & _ & Uri).
    destruct (Uri (lit "content://doc/1") (lit "UEsDBBQ=") eq_refl eq_refl eq_refl)
      as (Ok & _).
    apply (Ok (lit "UEsDBBQ=")); reflexivity.
  - destruct (Result asked_reachable eq_refl RESULT_CANCELED None)
      as (_ & _ & _ & Cancel & _).
    apply Cancel. right. reflexivity.
Defined.

(** C8 as stated fails in two places.  When the content resolver returns
    no stream, nothing is written and the promise is resolved with the URI
    all the same; and a result with [RESULT_OK] that delivers no intent, so
    no URI either, is rejected with [CANCELLED], not with [NO_URI]. *)
Lemma C8_resolves_without_writing :
  snd (onActivityResult streamless REQUEST_CODE RESULT_OK
         (Some (mkIntent (Some (lit "content://doc/1")))) asked)
  = [OpenOutputStream (lit "content://doc/1");
     Resolve 7%nat (lit "content://doc/1")] /\
  snd (onActivityResult working REQUEST_CODE RESULT_OK None asked)
  = [cancelled 7%nat].
Proof. split; reflexivity. Qed.

End SafFacts.

(* ===================================================================== *)
(** * An export on Android whose save dialog is dismissed *)
(* ===================================================================== *)

Module ExportOnAndroid.

Import LogContext LogsScreen ExportRun.

(** What the JavaScript side sees of the promise [pr] after the native
    events [evs]: [promise.resolve(value)] resolves it with the value,
    [promise.reject(code, message)] rejects it with an [Error] that has the
    message; without either the promise stays pending. *)
Fixpoint settledBy (pr : SafFileModule.Promise) (evs : list SafFileModule.Event)
  : Timed str :=
  match evs with
  | [] => Never
  | SafFileModule.Resolve q value :: rest =>
      if Nat.eqb q pr then Settles 0 (Resolved value) else settledBy pr rest
  | SafFileModule.Reject q code message :: rest =>
      if Nat.eqb q pr
      then Settles 0 (Rejected (ErrorObj (match message with
                                          | Some m => m
                                          | None => []
                                          end)))
      else settledBy pr rest
  | _ :: rest => settledBy pr rest
  end.

(** The native events of one export: the module opens the dialog for
    promise 1, the user leaves it, and the activity reports
    [RESULT_CANCELED]. *)
Definition dismissedDialog (name content : str) : list SafFileModule.Event :=
  let opened :=
    SafFileModule.saveFileWithDialog true name content 1 SafFileModule.initial in
  snd opened ++
  snd (SafFileModule.onActivityResult SafFacts.working SafFileModule.REQUEST_CODE
         SafFileModule.RESULT_CANCELED None (fst opened)).

Definition isWrite (e : SafFileModule.Event) : bool :=
  match e with SafFileModule.Write _ _ => true | _ => false end.

(** An Android device on which the save dialog is dismissed. *)
Definition dismissed : Env :=
  mkEnv true (lit "2024-01-01T10:20:30.000Z")
        (fun ms => lit "date") (fun ms => lit "time")
        (fun rows => lit "UEsDBBQ=")
        (fun name content => settledBy 1 (dismissedDialog name content))
        (lit "/data/user/0/com.bluetooth/files")
        (fun path content => Settles 0 (Resolved tt))
        (fun url name => Settles 0 (Resolved tt)).

(** C7 as stated fails when the save dialog is dismissed: the log is not
    empty and the workbook has been generated, but the native module
    rejects the promise without opening a stream or writing a byte, and the
    run ends with the [Error] alert: no file is produced. *)
Lemma C7_cancelled_save_writes_no_file :
  logData oneEntry = [mkLogEntry (lit "2024-01-01T10:20:00.000Z")
                                 (lit "D:1700000000,12,34#")] /\
  dismissedDialog (fileName dismissed) (lit "UEsDBBQ=")
    = [SafFileModule.StartActivityForResult (fileName dismissed)
         SafFileModule.MIME SafFileModule.REQUEST_CODE;
       SafFileModule.Reject 1 (lit "CANCELLED") (Some (lit "User cancelled"))] /\
  filter isWrite (dismissedDialog (fileName dismissed) (lit "UEsDBBQ=")) = [] /\
  events (exportToExcel dismissed oneEntry)
    = [EvWorkbook (excelData (toLocaleDateString dismissed)
                             (toLocaleTimeString dismissed) (logData oneEntry));
       EvSaveDialog (fileName dismissed) (lit "UEsDBBQ=");
       EvAlert (lit "Error") (lit "Failed to generate Excel file: User cancelled")] /\
  finished (exportToExcel dismissed oneEntry) = true.
Proof. repeat split. Qed.

End ExportOnAndroid.

(* ===================================================================== *)
(** * Start-up of the main screen *)
(* ===================================================================== *)

Module InitFacts.

Import MainScreen.

Local Open Scope async_scope.

(** ** What is counted *)

(** A run of [connectToDevice] starts by setting the status
    [Connecting...]; no other statement of the screen sets this status. *)
Definition isAttempt (e : Event) : bool :=
  match e with
  | EvStatus s => eqs s (lit "Connecting...")
  | _ => false
  end.

(** The device a call of [device.connect()] is made on. *)
Definition connectedOf (e : Event) : list BluetoothDevice :=
  match e with
  | EvConnect d => [d]
  | _ => []
  end.

Definition attempts (w : World) : nat := List.length (filter isAttempt (trace w)).
(** The devices [device.connect()] was called on, the latest first. *)
Definition connects (w : World) : list BluetoothDevice :=
  flat_map connectedOf (trace w).

(** Nothing that is counted has changed between [w] and [w']. *)
Definition same (w w' : World) : Prop :=
  attempts w' = attempts w /\
  connects w' = connects w /\
  isAppReady (ui w') = isAppReady (ui w).

Lemma same_refl w : same w w.
Proof. repeat split. Qed.

Lemma same_trans w1 w2 w3 : same w1 w2 -> same w2 w3 -> same w1 w3.
Proof.
  intros (A & C & R) (A' & C' & R'). repeat split; congruence.
Qed.

(** ** Two kinds of well-behaved computations *)

(** [calm m]: [m] returns or throws, and changes nothing that is counted. *)
Definition calm {A : Type} (m : M A) : Prop :=
  forall w, match m w with
            | (Suspended, _) => False
            | (_, w') => same w w'
            end.

(** [quiet m]: [m] returns, and changes nothing that is counted. *)
Definition quiet {A : Type} (m : M A) : Prop :=
  forall w, match m w with
            | (Val _, w') => same w w'
            | _ => False
            end.

Lemma quiet_calm {A : Type} (m : M A) : quiet m -> calm m.
Proof.
  intros Q w. specialize (Q w).
  destruct (m w) as [[a|e|] w']; try contradiction; exact Q.
Qed.

Lemma quiet_ret {A : Type} (a : A) : quiet (ret a).
Proof. intros w. apply same_refl. Qed.

Lemma calm_throw {A : Type} (e : JsError) : calm (@throw A e).
Proof. intros w. apply same_refl. Qed.

Lemma quiet_bind {A B : Type} (m : M A) (f : A -> M B) :
  quiet m -> (forall a, quiet (f a)) -> quiet (bind m f).
Proof.
  intros Qm Qf w. unfold bind. specialize (Qm w).
  destruct (m w) as [[a|e|] w1]; try contradiction.
  specialize (Qf a w1). destruct (f a w1) as [[b|e|] w2]; try contradiction.
  eapply same_trans; eauto.
Qed.

Lemma calm_bind {A B : Type} (m : M A) (f : A -> M B) :
  calm m -> (forall a, calm (f a)) -> calm (bind m f).
Proof.
  intros Cm Cf w. unfold bind. specialize (Cm w).
  destruct (m w) as [[a|e|] w1]; try contradiction; [|exact Cm].
  specialize (Cf a w1). destruct (f a w1) as [[b|e|] w2]; try contradiction;
    eapply same_trans; eauto.
Qed.

Lemma quiet_tryCatch {A : Type} (body : M A) (handler : JsError -> M A) :
  calm body -> (forall e, quiet (handler e)) -> quiet (tryCatch body handler).
Proof.
  intros Cb Qh w. unfold tryCatch. specialize (Cb w).
  destruct (body w) as [[a|e|] w1]; try contradiction; [exact Cb|].
  specialize (Qh e w1). destruct (handler e w1) as [[b|e'|] w2]; try contradiction.
  eapply same_trans; eauto.
Qed.

Lemma calm_tryCatch {A : Type} (body : M A) (handler : JsError -> M A) :
  calm body -> (forall e, calm (handler e)) -> calm (tryCatch body handler).
Proof.
  intros Cb Ch w. unfold tryCatch. specialize (Cb w).
  destruct (body w) as [[a|e|] w1]; try contradiction; [exact Cb|].
  specialize (Ch e w1). destruct (handler e w1) as [[b|e'|] w2]; try contradiction;
    eapply same_trans; eauto.
Qed.

Lemma quiet_emit (e : Event) :
  isAttempt e = false -> connectedOf e = [] -> quiet (emit e).
Proof.
  intros NA NC w. unfold emit, same, attempts, connects. simpl.
  rewrite NA, NC. repeat split.
Qed.

Lemma quiet_modify (f : State -> State) :
  (forall st, isAppReady (f st) = isAppReady st) -> quiet (modify f).
Proof.
  intros K w. unfold modify, same, attempts, connects. simpl. auto.
Qed.

Lemma quiet_getState : quiet getState.
Proof. intros w. apply same_refl. Qed.

Lemma quiet_setStatus (s : str) :
  eqs s (lit "Connecting...") = false -> quiet (setStatus s).
Proof.
  intros N. unfold setStatus. apply quiet_bind.
  - apply quiet_modify. reflexivity.
  - intros _. apply quiet_emit; [exact N | reflexivity].
Qed.

Lemma calm_awaitCall {A : Type} (e : Event) (f : nat -> Timed A) :
  isAttempt e = false -> connectedOf e = [] ->
  (forall t, f t <> Never) -> calm (awaitCall e f).
Proof.
  intros NA NC S w. unfold awaitCall. specialize (S (calls w)).
  destruct (f (calls w)) as [t [a|err]|]; simpl; try contradiction;
    unfold same, attempts, connects; simpl; rewrite NA, NC; repeat split.
Qed.

(** A guarded call never stays pending. *)
Lemma awaited_guarded {A : Type} site ms msg (q : Timed A) :
  guard site = Some (ms, msg) -> awaited site q <> Never.
Proof.
  intros G. unfold awaited. rewrite G. destruct q as [t o|]; simpl.
  - destruct (t <? ms)%N; discriminate.
  - discriminate.
Qed.

(** [a === b] on strings decides equality. *)
Lemma eqs_true a b : eqs a b = true <-> a = b.
Proof.
  revert b. induction a as [|x a IH]; intros [|y b]; simpl;
    try (split; [discriminate | discriminate]); [tauto|].
  rewrite andb_true_iff, IH. unfold eqc. rewrite Ascii.eqb_eq.
  split; [intros [-> ->]; reflexivity | intros E; injection E; auto].
Qed.

(** ** The helpers of the screen *)

(** The platform answers every call that the screen awaits without a
    timer. *)
Definition responsive (p : Platform) : Prop :=
  (forall t, isBluetoothEnabled_ p t <> Never) /\
  (forall t perms, requestMultiple p t perms <> Never) /\
  (forall t key, asyncGetItem p t key <> Never) /\
  (forall t key value, asyncSetItem p t key value <> Never).

Section Helpers.

Variable p : Platform.
Variable snap : State.
Hypothesis answers : responsive p.

Lemma calm_getItem key : calm (getItem p key).
Proof.
  apply calm_awaitCall; [reflexivity | reflexivity |].
  intros t. apply answers.
Qed.

Lemma calm_setItem key value : calm (setItem p key value).
Proof.
  apply calm_awaitCall; [reflexivity | reflexivity |].
  intros t. apply answers.
Qed.

Lemma calm_getJSON key : calm (getJSON p key).
Proof.
  unfold getJSON. apply calm_bind; [apply calm_getItem|].
  intros [r|]; [|apply quiet_calm, quiet_ret].
  destruct (truthy r); [|apply quiet_calm, quiet_ret].
  destruct (jsonParse p r); [apply quiet_calm, quiet_ret | apply calm_throw].
Qed.

Lemma quiet_savePairedDevices devices : quiet (savePairedDevices p devices).
Proof.
  apply quiet_tryCatch; [apply calm_setItem | intros e; apply quiet_ret].
Qed.

Lemma quiet_loadPairedDevices : quiet (loadPairedDevices p).
Proof.
  apply quiet_tryCatch; [|intros e; apply quiet_ret].
  apply calm_bind; [apply calm_getJSON|].
  intros saved. apply quiet_calm, quiet_ret.
Qed.

Lemma quiet_getDeviceInfo : quiet (getDeviceInfo p).
Proof.
  apply quiet_tryCatch; [|intros e; apply quiet_ret].
  apply quiet_calm, quiet_modify. reflexivity.
Qed.

Lemma quiet_checkBluetoothEnabled : quiet (checkBluetoothEnabled p).
Proof.
  apply quiet_tryCatch.
  - apply calm_bind.
    + apply calm_awaitCall; [reflexivity | reflexivity | apply answers].
    + intros enabled. apply quiet_calm.
      apply quiet_bind; [apply quiet_modify; reflexivity|]. intros _.
      apply quiet_bind.
      * destruct enabled; apply quiet_setStatus; reflexivity.
      * intros _. destruct enabled; simpl;
          [apply quiet_ret | apply quiet_emit; reflexivity].
  - intros e. apply quiet_setStatus. reflexivity.
Qed.

Lemma quiet_showPermissionGuidance : quiet (showPermissionGuidance snap).
Proof. apply quiet_emit; reflexivity. Qed.

Lemma quiet_requestPermissions : quiet (requestPermissions p snap).
Proof.
  unfold requestPermissions. destruct (os_android p); simpl; [|apply quiet_ret].
  apply quiet_tryCatch.
  - apply calm_bind.
    + apply calm_awaitCall; [reflexivity | reflexivity |].
      intros t. apply answers.
    + intros granted. apply quiet_calm.
      apply quiet_bind; [apply quiet_modify; reflexivity|]. intros _.
      apply quiet_bind; [|intros _; apply quiet_ret].
      destruct (negb _); [apply quiet_showPermissionGuidance | apply quiet_ret].
  - intros e. apply quiet_bind; [apply quiet_setStatus; reflexivity|].
    intros _. apply quiet_ret.
Qed.

Lemma quiet_fetchPairedDevices : quiet (fetchPairedDevices p snap).
Proof.
  apply quiet_tryCatch; [|intros e; apply quiet_setStatus; reflexivity].
  apply calm_bind; [apply quiet_calm, quiet_requestPermissions|].
  intros granted. destruct granted; simpl.
  - apply calm_bind; [apply quiet_calm, quiet_loadPairedDevices|]. intros saved.
    apply calm_bind.
    + apply calm_awaitCall; [reflexivity | reflexivity |].
      intros t. apply (awaited_guarded FetchBonded _ _ _ eq_refl).
    + intros systemDevices. apply quiet_calm.
      apply quiet_bind; [apply quiet_modify; reflexivity|]. intros _.
      apply quiet_bind; [apply quiet_savePairedDevices|]. intros _.
      apply quiet_setStatus. reflexivity.
  - apply quiet_calm, quiet_setStatus. reflexivity.
Qed.

Lemma quiet_pairFirst device : quiet (pairFirst p snap device).
Proof.
  unfold pairFirst.
  apply quiet_bind; [apply quiet_setStatus; reflexivity|]. intros _.
  apply quiet_tryCatch.
  - apply calm_bind.
    + apply calm_awaitCall; [reflexivity | reflexivity |].
      intros t. apply (awaited_guarded Pairing _ _ _ eq_refl).
    + intros paired. apply quiet_calm. destruct paired; simpl.
      * apply quiet_bind; [apply quiet_setStatus; reflexivity|]. intros _.
        apply quiet_bind; [apply quiet_fetchPairedDevices|]. intros _.
        apply quiet_bind; [apply quiet_savePairedDevices|]. intros _.
        apply quiet_ret.
      * apply quiet_bind; [apply quiet_setStatus; reflexivity|]. intros _.
        apply quiet_ret.
  - intros e. apply quiet_bind; [apply quiet_setStatus; reflexivity|].
    intros _. apply quiet_ret.
Qed.

End Helpers.

(** ** Following one run *)

(** [post m w Q]: the run of [m] from [w] ends in a result and a world that
    satisfy [Q]. *)
Definition post {A : Type} (m : M A) (w : World)
    (Q : Res A -> World -> Prop) : Prop :=
  Q (fst (m w)) (snd (m w)).

Lemma post_bind {A B : Type} (m : M A) (f : A -> M B) w Q :
  post m w (fun r w1 =>
              match r with
              | Val a => post (f a) w1 Q
              | Exn e => Q (Exn e) w1
              | Suspended => Q Suspended w1
              end) ->
  post (bind m f) w Q.
Proof.
  unfold post, bind. destruct (m w) as [[a|e|] w1]; simpl; auto.
Qed.

Lemma post_tryCatch {A : Type} (body : M A) (handler : JsError -> M A) w Q :
  post body w (fun r w1 =>
                 match r with
                 | Exn e => post (handler e) w1 Q
                 | Val a => Q (Val a) w1
                 | Suspended => Q Suspended w1
                 end) ->
  post (tryCatch body handler) w Q.
Proof.
  unfold post, tryCatch. destruct (body w) as [[a|e|] w1]; simpl; auto.
Qed.

Lemma post_quiet {A : Type} (m : M A) w (Q : Res A -> World -> Prop) :
  quiet m -> (forall a w1, same w w1 -> Q (Val a) w1) -> post m w Q.
Proof.
  intros Qm K. unfold post. specialize (Qm w).
  destruct (m w) as [[a|e|] w1]; simpl; try contradiction. apply K, Qm.
Qed.

Lemma post_calm {A : Type} (m : M A) w (Q : Res A -> World -> Prop) :
  calm m ->
  (forall a w1, same w w1 -> Q (Val a) w1) ->
  (forall e w1, same w w1 -> Q (Exn e) w1) ->
  post m w Q.
Proof.
  intros Cm K1 K2. unfold post. specialize (Cm w).
  destruct (m w) as [[a|e|] w1]; simpl; try contradiction; auto.
Qed.

Lemma post_ret {A : Type} (a : A) w (Q : Res A -> World -> Prop) :
  Q (Val a) w -> post (ret a) w Q.
Proof. auto. Qed.

Definition withStatus (s : str) (w : World) : World :=
  mkWorld
    (mkState (isBluetoothEnabled (ui w)) (isScanning (ui w)) (pairedDevices (ui w))
       (unpairedDevices (ui w)) (connectedDevice (ui w)) s (deviceInfo (ui w))
       (isAppReady (ui w)) (permissionStatus (ui w)) (dataSubscription (ui w))
       (logCtx (ui w)))
    (calls w) (EvStatus s :: trace w).

Lemma post_setStatus s w (Q : Res unit -> World -> Prop) :
  Q (Val tt) (withStatus s w) -> post (setStatus s) w Q.
Proof. auto. Qed.

Definition afterCall (e : Event) (w : World) : World :=
  mkWorld (ui w) (S (calls w)) (e :: trace w).

Lemma post_awaitCall {A : Type} (e : Event) (f : nat -> Timed A) w
    (Q : Res A -> World -> Prop) :
  f (calls w) <> Never ->
  (forall a, Q (Val a) (afterCall e w)) ->
  (forall err, Q (Exn err) (afterCall e w)) ->
  post (awaitCall e f) w Q.
Proof.
  intros S K1 K2. unfold post, awaitCall.
  destruct (f (calls w)) as [t [a|err]|]; simpl; auto. contradiction.
Qed.

Lemma post_awaitCall_resolved {A : Type} (e : Event) (f : nat -> Timed A) w
    (Q : Res A -> World -> Prop) ms a :
  f (calls w) = Settles ms (Resolved a) ->
  Q (Val a) (afterCall e w) ->
  post (awaitCall e f) w Q.
Proof.
  intros E K. unfold post, awaitCall. rewrite E. exact K.
Qed.

Lemma attempts_withStatus s w :
  attempts (withStatus s w) =
  if eqs s (lit "Connecting...") then S (attempts w) else attempts w.
Proof.
  unfold attempts, withStatus. cbn [trace filter isAttempt].
  destruct (eqs s (lit "Connecting...")); reflexivity.
Qed.

Lemma connects_withStatus s w : connects (withStatus s w) = connects w.
Proof. reflexivity. Qed.

Lemma attempts_afterCall e w :
  attempts (afterCall e w) = if isAttempt e then S (attempts w) else attempts w.
Proof.
  unfold attempts, afterCall. cbn [trace filter].
  destruct (isAttempt e); reflexivity.
Qed.

Lemma connects_afterCall e w :
  connects (afterCall e w) = connectedOf e ++ connects w.
Proof. reflexivity. Qed.

Lemma ready_afterCall e w : isAppReady (ui (afterCall e w)) = isAppReady (ui w).
Proof. reflexivity. Qed.

Lemma ready_withStatus s w : isAppReady (ui (withStatus s w)) = isAppReady (ui w).
Proof. reflexivity. Qed.

(** ** Permissions that are granted *)

(** Every request for permissions is answered, and with [GRANTED] for each
    permission (or the platform is not Android, where nothing is asked). *)
Definition grants (p : Platform) : Prop :=
  os_android p = false \/
  forall t perms, exists ms answer,
    requestMultiple p t perms = Settles ms (Resolved answer) /\
    forallb (fun kv => isGranted (snd kv)) answer = true.

Section Runs.

Variable p : Platform.
Variable snap : State.
Hypothesis answers : responsive p.

Lemma requestPermissions_granted w :
  grants p -> fst (requestPermissions p snap w) = Val true.
Proof.
  intros G. unfold requestPermissions.
  destruct (os_android p) eqn:OS; simpl; [|reflexivity].
  destruct G as [G | G]; [congruence|].
  unfold tryCatch, bind, awaitCall.
  match goal with |- context [requestMultiple p ?t ?perms] =>
    destruct (G t perms) as (ms & answer & E & All); rewrite E end.
  simpl. rewrite All. reflexivity.
Qed.

Lemma post_requestPermissions w (Q : Res bool -> World -> Prop) :
  (forall g w1, same w w1 -> (grants p -> g = true) -> Q (Val g) w1) ->
  post (requestPermissions p snap) w Q.
Proof.
  intros K. unfold post.
  pose proof (quiet_requestPermissions p snap answers w) as S.
  pose proof (requestPermissions_granted w) as G.
  destruct (requestPermissions p snap w) as [[g|e|] w1]; try contradiction.
  simpl in *. apply K; [exact S|]. intros H. specialize (G H). congruence.
Qed.

(** What one run of [connectToDevice] adds to the counts. *)
Definition oneAttempt (device : BluetoothDevice) (w w' : World) : Prop :=
  attempts w' = S (attempts w) /\
  (connects w' = connects w \/ connects w' = device :: connects w) /\
  isAppReady (ui w') = isAppReady (ui w) /\
  (grants p -> bonded device = true -> connects w' = device :: connects w).

Ltac close :=
  unfold oneAttempt, same in *;
  repeat match goal with
         | H : _ /\ _ |- _ => destruct H
         | H : _ \/ _ |- _ => destruct H
         end;
  repeat rewrite ?attempts_withStatus, ?connects_withStatus,
                 ?attempts_afterCall, ?connects_afterCall,
                 ?ready_afterCall, ?ready_withStatus in *;
  cbn [isAttempt connectedOf app] in *;
  repeat split; try lia; try congruence;
  try solve [left; congruence | right; congruence];
  try solve [
    intros Gp Bd;
    repeat match goal with
           | H : grants p -> _ = true -> _ |- _ => specialize (H Gp Bd)
           | H : grants p -> _ |- _ => specialize (H Gp)
           end;
    first [lia | congruence | discriminate] ].

(** The statements of [connectToDevice] after a successful
    [device.connect()] return or throw, and count nothing. *)
Ltac calm_connected :=
  apply calm_bind; [apply quiet_calm, quiet_modify; reflexivity|]; intros _;
  apply calm_bind; [apply quiet_calm, quiet_setStatus; reflexivity|]; intros _;
  apply calm_bind; [apply calm_setItem; exact answers|]; intros _;
  apply quiet_calm;
  apply quiet_bind; [apply quiet_getState|]; intros st;
  apply quiet_bind;
  [ destruct (dataSubscription st);
    [ apply quiet_bind; [apply quiet_emit; reflexivity|];
      intros _; apply quiet_modify; reflexivity
    | apply quiet_ret ]
  | intros _; apply quiet_bind; [apply quiet_emit; reflexivity|];
    intros _; apply quiet_modify; reflexivity ].

(** From [device.connect()] to the end of [connectToDevice]. *)
Ltac connect_part K Handler :=
  apply post_bind, post_awaitCall;
  [ apply (awaited_guarded Connecting _ _ _ eq_refl)
  | let connected := fresh "connected" in
    intros connected; destruct connected;
    [ apply post_calm;
      [ calm_connected
      | intros [] ? ?; apply K; close
      | intros ? ? ?; apply Handler; close ]
    | apply post_quiet;
      [ apply quiet_bind; [apply quiet_setStatus; reflexivity|];
        intros _; apply quiet_emit; reflexivity
      | intros [] ? ?; apply K; close ] ]
  | intros ?; apply Handler; close ].

(** [connectToDevice] always returns; it sets [Connecting...] once and
    calls [device.connect()] at most once, on the device it was given. *)
Lemma post_connectToDevice device w (Q : Res unit -> World -> Prop) :
  (forall w', oneAttempt device w w' -> Q (Val tt) w') ->
  post (connectToDevice p snap device) w Q.
Proof.
  intros K. unfold connectToDevice.
  assert (Handler : forall e w1,
            attempts w1 = S (attempts w) ->
            (connects w1 = connects w \/ connects w1 = device :: connects w) ->
            isAppReady (ui w1) = isAppReady (ui w) ->
            (grants p -> bonded device = true -> connects w1 = device :: connects w) ->
            post (setStatus (lit "Connection error: " ++ connectionErrorMsg e) ;;
                  emit (EvToast (lit "Connection failed. Please try again."))) w1 Q).
  { intros e w1 A C R G. apply post_quiet.
    - apply quiet_bind; [apply quiet_setStatus; reflexivity|].
      intros _. apply quiet_emit; reflexivity.
    - intros [] w2 S2. apply K. close. }
  apply post_tryCatch, post_bind, post_setStatus.
  assert (A0 : attempts (withStatus (lit "Connecting...") w) = S (attempts w))
    by (rewrite attempts_withStatus; reflexivity).
  assert (C0 : connects (withStatus (lit "Connecting...") w) = connects w)
    by reflexivity.
  assert (R0 : isAppReady (ui (withStatus (lit "Connecting...") w))
               = isAppReady (ui w)) by reflexivity.
  generalize dependent (withStatus (lit "Connecting...") w). intros w0 A0 C0 R0.
  apply post_bind, post_requestPermissions. intros granted w1 S1 G1.
  destruct granted; cbn [negb].
  2:{ apply post_quiet; [apply quiet_setStatus; reflexivity|].
      intros [] w2 S2. apply K. close. }
  apply post_bind.
  destruct (bonded device) eqn:B; cbn [negb].
  - (* a bonded device is connected to directly *)
    apply post_ret. cbn [negb]. connect_part K Handler.
  - (* pairing comes first *)
    apply post_quiet; [apply quiet_pairFirst; exact answers|].
    intros proceed w2 S2. destruct proceed; cbn [negb].
    + connect_part K Handler.
    + apply post_ret. apply K. close.
Qed.

Lemma findByAddress_found lastAddress paired device :
  findByAddress lastAddress paired = Some device ->
  In device paired /\ eqs (address device) lastAddress = true.
Proof. apply find_some. Qed.

(** [paired.find(d => d.address === lastAddress)] is the first device of
    the list that has the address. *)
Lemma findByAddress_first lastAddress earlier device later :
  address device = lastAddress ->
  Forall (fun d => address d <> lastAddress) earlier ->
  findByAddress lastAddress (earlier ++ device :: later) = Some device.
Proof.
  intros A F. unfold findByAddress.
  induction F as [|d earlier N F IH]; cbn [app find].
  - assert (E : eqs (address device) lastAddress = true) by (apply eqs_true, A).
    rewrite E. reflexivity.
  - destruct (eqs (address d) lastAddress) eqn:E; [|exact IH].
    apply eqs_true in E. contradiction.
Qed.

Definition readyWorld (w : World) : World :=
  mkWorld
    (mkState (isBluetoothEnabled (ui w)) (isScanning (ui w)) (pairedDevices (ui w))
       (unpairedDevices (ui w)) (connectedDevice (ui w)) appReadyStatus
       (deviceInfo (ui w)) true (permissionStatus (ui w))
       (dataSubscription (ui w)) (logCtx (ui w)))
    (calls w) (EvStatus appReadyStatus :: trace w).

(** C6, amended.  On launch, when the permissions are granted, a
    last-connected address is stored and [device] is the first of the
    bonded devices that has this address, [initializeApp] runs
    [connectToDevice] for that device exactly once and calls
    [device.connect()] at most once, on that device (exactly once when the
    device is bonded).  Whatever the outcome of that attempt (the
    connection is refused, fails, or never answers and times out),
    initialization goes on without another attempt: [initializeApp]
    returns, the status is the [App ready] message and [isAppReady] is
    true.  All this provided the platform answers the calls that are
    awaited without a timer ([isBluetoothEnabled], the permission request,
    [AsyncStorage] and [getBondedDevices]). *)
Theorem C6_single_reconnect_attempt
    (w : World) (lastAddress : str)
    (earlier later : list BluetoothDevice) (device : BluetoothDevice) :
  grants p ->
  truthy lastAddress = true ->
  (forall t, exists ms,
     asyncGetItem p t (lit "lastConnectedDevice")
       = Settles ms (Resolved (Some lastAddress))) ->
  (forall t, exists ms,
     getBondedDevices p t = Settles ms (Resolved (earlier ++ device :: later))) ->
  address device = lastAddress ->
  Forall (fun d => address d <> lastAddress) earlier ->
  let out := initializeApp p snap w in
  fst out = Val tt /\
  isAppReady (ui (snd out)) = true /\
  status (ui (snd out)) = appReadyStatus /\
  attempts (snd out) = S (attempts w) /\
  (connects (snd out) = connects w \/
   connects (snd out) = device :: connects w) /\
  (bonded device = true -> connects (snd out) = device :: connects w).
Proof.
  intros G T Stored Bonded Same First out. subst out.
  pose proof (findByAddress_first lastAddress earlier device later Same First)
    as Found.
  set (paired := earlier ++ device :: later) in *.
  change (post (initializeApp p snap) w
            (fun r w' =>
               r = Val tt /\
               isAppReady (ui w') = true /\
               status (ui w') = appReadyStatus /\
               attempts w' = S (attempts w) /\
               (connects w' = connects w \/ connects w' = device :: connects w) /\
               (bonded device = true -> connects w' = device :: connects w))).
  unfold initializeApp.
  apply post_tryCatch, post_bind.
  apply post_quiet; [apply quiet_setStatus; reflexivity|]. intros [] w1 S1.
  apply post_bind.
  apply post_quiet; [apply quiet_getDeviceInfo|]. intros [] w2 S2.
  apply post_bind.
  apply post_quiet; [apply quiet_checkBluetoothEnabled; exact answers|].
  intros [] w3 S3.
  apply post_bind, post_requestPermissions. intros g w4 S4 G4.
  rewrite (G4 G). clear G4 g.
  apply post_bind, post_bind.
  apply post_quiet; [apply quiet_fetchPairedDevices; exact answers|].
  intros [] w5 S5.
  apply post_bind. unfold getItem.
  destruct (Stored (calls w5)) as (ms & E).
  apply (post_awaitCall_resolved _ _ _ _ ms (Some lastAddress) E).
  rewrite T.
  apply post_bind, post_bind.
  destruct (Bonded (calls (afterCall (EvStorageGet (lit "lastConnectedDevice")) w5)))
    as (ms' & E').
  apply (post_awaitCall_resolved _ _ _ _ ms' paired E').
  rewrite Found.
  apply post_tryCatch, post_bind.
  apply post_quiet; [apply quiet_setStatus; reflexivity|]. intros [] w6 S6.
  apply post_connectToDevice. intros w7 One.
  apply post_setStatus.
  unfold post, setIsAppReady, modify. cbn [fst snd].
  change (mkWorld _ _ _) with (readyWorld w7).
  assert (A : attempts (readyWorld w7) = attempts w7) by reflexivity.
  assert (C : connects (readyWorld w7) = connects w7) by reflexivity.
  split; [reflexivity|]. split; [reflexivity|]. split; [reflexivity|].
  rewrite A, C. clear A C.
  unfold oneAttempt, same in *.
  repeat match goal with H : _ /\ _ |- _ => destruct H end.
  repeat rewrite ?attempts_afterCall, ?connects_afterCall, ?ready_afterCall in *.
  cbn [isAttempt connectedOf app] in *.
  split; [lia|]. split.
  - match goal with H : _ \/ _ |- _ => destruct H end;
      [left | right]; congruence.
  - intros B.
    match goal with H : grants p -> _ = true -> _ |- _ => specialize (H G B) end.
    congruence.
Qed.

End Runs.

End InitFacts.

(* ===================================================================== *)
(** * A launch with a device that does not answer *)
(* ===================================================================== *)

Module Launch.

Import MainScreen InitFacts.

Definition sensor : BluetoothDevice :=
  mkDevice (Some (lit "HC-05")) (lit "98:D3:31:F5:2A:10") true.

(** An Android 13 phone: Bluetooth is on, every permission is granted, the
    sensor is bonded and was the last device connected to; the sensor is
    switched off, so that [device.connect()] never settles. *)
Definition phone : Platform :=
  mkPlatform true 33 (lit "Google") (lit "Pixel 7") (lit "13")
    (fun t => Settles 5 (Resolved true))
    (fun t perms => Settles 50 (Resolved (map (fun x => (x, GRANTED)) perms)))
    (fun t => Settles 20 (Resolved [sensor]))
    (fun t addr => Never)
    (fun t d => Never)
    (fun t key =>
       Settles 1 (Resolved (if eqs key (lit "lastConnectedDevice")
                            then Some (address sensor) else None)))
    (fun t key value => Settles 1 (Resolved tt))
    (fun devices => lit "[]")
    (fun raw => Resolved []).

Definition launch : World := mkWorld initialState 0 [].

Lemma phone_responsive : responsive phone.
Proof. repeat split; intros; discriminate. Defined.

Lemma phone_grants : grants phone.
Proof.
  right. intros t perms. exists 50%N, (map (fun x => (x, GRANTED)) perms).
  split; [reflexivity|]. induction perms; simpl; auto.
Defined.

Example launch_statuses :
  map show
    (rev (flat_map (fun e => match e with EvStatus s => [s] | _ => [] end)
                   (trace (snd (initializeApp phone initialState launch)))))
  = ["Initializing..."; "Bluetooth is enabled."; "Found 1 paired devices.";
     "Reconnecting to last device..."; "Connecting...";
     "Connection error: Connection timeout";
     show appReadyStatus]%string.
Proof. vm_compute. reflexivity. Qed.

Definition earbuds : BluetoothDevice :=
  mkDevice (Some (lit "Buds")) (lit "11:22:33:44:55:66") true.

(** The same phone with a second bonded device, listed first;
    [store] is what the storage answers when something is set. *)
Definition pocket (store : Timed unit) : Platform :=
  mkPlatform true 33 (lit "Google") (lit "Pixel 7") (lit "13")
    (fun t => Settles 5 (Resolved true))
    (fun t perms => Settles 50 (Resolved (map (fun x => (x, GRANTED)) perms)))
    (fun t => Settles 20 (Resolved [earbuds; sensor]))
    (fun t addr => Never)
    (fun t d => Never)
    (fun t key =>
       Settles 1 (Resolved (if eqs key (lit "lastConnectedDevice")
                            then Some (address sensor) else None)))
    (fun t key value => store)
    (fun devices => lit "[]")
    (fun raw => Resolved []).

Lemma pocket_responsive : responsive (pocket (Settles 1 (Resolved tt))).
Proof. repeat split; intros; discriminate. Defined.

Lemma pocket_grants store : grants (pocket store).
Proof.
  right. intros t perms. exists 50%N, (map (fun x => (x, GRANTED)) perms).
  split; [reflexivity|]. induction perms; simpl; auto.
Defined.

(** C6 on this launch: the sensor is the second bonded device, the
    connection times out, the app is ready. *)
Lemma C6_single_reconnect_attempt_witness :
  let out := initializeApp (pocket (Settles 1 (Resolved tt))) initialState launch in
  fst out = Val tt /\
  isAppReady (ui (snd out)) = true /\
  status (ui (snd out)) = appReadyStatus /\
  attempts (snd out) = S (attempts launch) /\
  (connects (snd out) = connects launch \/
   connects (snd out) = sensor :: connects launch) /\
  (bonded sensor = true -> connects (snd out) = sensor :: connects launch).
Proof.
  apply (C6_single_reconnect_attempt (pocket (Settles 1 (Resolved tt)))
           initialState pocket_responsive
           launch (address sensor) [earbuds] [] sensor).
  - apply pocket_grants.
  - reflexivity.
  - intros t. exists 1%N. reflexivity.
  - intros t. exists 20%N. reflexivity.
  - reflexivity.
  - constructor; [discriminate | constructor].
Defined.

(** C6 as stated fails when a call that is awaited without a timer is not
    answered.  On this launch the permissions are granted, the stored
    address is the address of the bonded sensor, and [AsyncStorage.setItem]
    never answers: [initializeApp] stays suspended where
    [fetchPairedDevices] saves the list, no attempt to connect is made and
    the app is never ready. *)
Lemma C6_no_attempt_when_storage_hangs :
  let stuck := pocket Never in
  let out := initializeApp stuck initialState launch in
  (forall t perms,
     requestMultiple stuck t perms
       = Settles 50 (Resolved (map (fun x => (x, GRANTED)) perms))) /\
  (forall t, asyncGetItem stuck t (lit "lastConnectedDevice")
             = Settles 1 (Resolved (Some (address sensor)))) /\
  (forall t, getBondedDevices stuck t = Settles 20 (Resolved [earbuds; sensor])) /\
  fst out = Suspended /\
  attempts (snd out) = 0 /\
  connects (snd out) = [] /\
  isAppReady (ui (snd out)) = false.
Proof. repeat split. Qed.

End Launch.

(* ===================================================================== *)
(** * Timestamps in the live log view *)
(* ===================================================================== *)

Module TimestampFacts.

Import Regex LogsScreen.

Local Open Scope Z_scope.

(** X1. The numbers [isEpoch] accepts: seconds from 2000 up to
    2 000 000 000 (May 2033), and milliseconds from 2000 to 2100. *)
Lemma isEpoch_accepts n :
  isEpoch n = true <->
  946684800 <= n <= 2000000000 \/ 946684800000 <= n <= 4102444800999.
Proof.
  unfold isEpoch. rewrite andb_true_iff, !Z.leb_le.
  destruct (Z.ltb_spec 2000000000 n) as [L|L].
  - pose proof (Z.div_mod n 1000 ltac:(lia)) as D.
    pose proof (Z.mod_pos_bound n 1000 ltac:(lia)) as M.
    lia.
  - lia.
Qed.

Example convert_seconds :
  show (convertLineTimestamps (lit "D:1700000000,12,34#"))
  = "D:Tue Nov 14 22:13:20 2023,12,34#"%string.
Proof. vm_compute. reflexivity. Qed.

Example convert_millis :
  show (convertLineTimestamps (lit "at 1700000000123 ms"))
  = "at Tue Nov 14 22:13:20 2023 ms"%string.
Proof. vm_compute. reflexivity. Qed.

Example convert_embedded_token_kept :
  show (convertLineTimestamps (lit "x1700000000 12345678901234"))
  = "x1700000000 12345678901234"%string.
Proof. vm_compute. reflexivity. Qed.

(** C2, evaluated.  3000000000 seconds after the epoch is 24 January 2065,
    inside the years 2000-2100; the token is standalone and has ten digits.
    [isEpoch] takes every number above 2 000 000 000 for milliseconds,
    finds 3000000 seconds out of range, and the line is left as it is.  A
    token of the year 2023 in the same place is replaced. *)
Theorem C2_seconds_after_2033_not_converted :
  (946684800 <= 3000000000 <= 4102444800) /\
  show (formatEpoch (3000000000 * 1000)) = "Sat Jan 24 05:20:00 2065"%string /\
  isEpoch 3000000000 = false /\
  show (convertLineTimestamps (lit "T=3000000000;"))
    = "T=3000000000;"%string /\
  show (convertLineTimestamps (lit "T=1700000000;"))
    = "T=Tue Nov 14 22:13:20 2023;"%string.
Proof.
  split; [lia|]. split; [vm_compute; reflexivity|]. split; [reflexivity|].
  split; vm_compute; reflexivity.
Qed.

End TimestampFacts.

(* ===================================================================== *)
(** * More on the timestamps of the live view *)
(* ===================================================================== *)

Module TimestampMore.

Import Regex RegexFacts LogsScreen Patterns.

(** ** Seconds and milliseconds *)

Section Millis.

Local Open Scope Z_scope.

(** The calendar fields of a [Date] only depend on the whole seconds. *)
Lemma whole_seconds s k : 0 <= k < 1000 -> (s * 1000 + k) / 1000 = s.
Proof.
  intros K. symmetry. apply Z.div_unique with (r := k); lia.
Qed.

Lemma millis_div s k c :
  0 <= k < 1000 -> 0 < c ->
  (s * 1000 + k) / (1000 * c) = (s * 1000) / (1000 * c).
Proof.
  intros K C. rewrite <- !Z.div_div by lia.
  rewrite (whole_seconds s k K).
  replace (s * 1000) with (s * 1000 + 0) by lia.
  rewrite (whole_seconds s 0) by lia. reflexivity.
Qed.

Lemma formatEpoch_millis ms k :
  0 <= k < 1000 ->
  let t := ms * 1000 in
  UTCDate.getUTCDay (t + k) = UTCDate.getUTCDay t /\
  UTCDate.getUTCMonth (t + k) = UTCDate.getUTCMonth t /\
  UTCDate.getUTCDate (t + k) = UTCDate.getUTCDate t /\
  UTCDate.getUTCHours (t + k) = UTCDate.getUTCHours t /\
  UTCDate.getUTCMinutes (t + k) = UTCDate.getUTCMinutes t /\
  UTCDate.getUTCSeconds (t + k) = UTCDate.getUTCSeconds t /\
  UTCDate.getUTCFullYear (t + k) = UTCDate.getUTCFullYear t.
Proof.
  intros K t. subst t.
  assert (D : UTCDate.Day (ms * 1000 + k) = UTCDate.Day (ms * 1000)).
  { unfold UTCDate.Day, UTCDate.msPerDay.
    exact (millis_div ms k 86400 K ltac:(lia)). }
  unfold UTCDate.getUTCDay, UTCDate.getUTCMonth, UTCDate.getUTCDate,
    UTCDate.getUTCFullYear, UTCDate.getUTCHours, UTCDate.getUTCMinutes,
    UTCDate.getUTCSeconds.
  rewrite D.
  rewrite (millis_div ms k 3600 K ltac:(lia) : (ms * 1000 + k) / 3600000 = _).
  rewrite (millis_div ms k 60 K ltac:(lia) : (ms * 1000 + k) / 60000 = _).
  rewrite (millis_div ms k 1 K ltac:(lia) : (ms * 1000 + k) / 1000 = _).
  repeat split; reflexivity.
Qed.

(** X2. A token that gives an instant in seconds and a token that gives
    the same instant in milliseconds are both accepted and are shown as the
    same text: the milliseconds are dropped, not rounded.  This holds for
    the seconds that [isEpoch] accepts, from 2000 to 2 000 000 000. *)
Theorem seconds_and_millis_agree (s k : Z) :
  946684800 <= s <= 2000000000 -> 0 <= k < 1000 ->
  isEpoch s = true /\
  isEpoch (s * 1000 + k) = true /\
  formatEpoch (s * 1000 + k) = formatEpoch s.
Proof.
  intros S K.
  assert (Small : (2000000000 <? s) = false) by (apply Z.ltb_ge; lia).
  assert (Big : (2000000000 <? s * 1000 + k) = true) by (apply Z.ltb_lt; lia).
  split; [|split].
  - unfold isEpoch. rewrite Small. apply andb_true_iff. rewrite !Z.leb_le. lia.
  - unfold isEpoch. rewrite Big, (whole_seconds s k K).
    apply andb_true_iff. rewrite !Z.leb_le. lia.
  - unfold formatEpoch. rewrite Small, Big.
    destruct (formatEpoch_millis s k K) as (E1 & E2 & E3 & E4 & E5 & E6 & E7).
    rewrite E1, E2, E3, E4, E5, E6, E7. reflexivity.
Qed.

Lemma seconds_and_millis_agree_witness :
  isEpoch 1700000000 = true /\
  isEpoch (1700000000 * 1000 + 123) = true /\
  formatEpoch (1700000000 * 1000 + 123) = formatEpoch 1700000000.
Proof. apply seconds_and_millis_agree; lia. Defined.

End Millis.

(** ** Lines and tokens *)

(** [s] contains [n] decimal digits in a row. *)
Definition hasDigitRun (n : nat) (s : str) : Prop :=
  exists pre run post, s = pre ++ run ++ post /\ digits run /\ List.length run = n.

Lemma hasDigitRun_app_l n a b : hasDigitRun n a -> hasDigitRun n (a ++ b).
Proof.
  intros (pre & run & post & -> & D & L).
  exists pre, run, (post ++ b). rewrite <- !app_assoc. auto.
Qed.

Lemma hasDigitRun_app_r n a b : hasDigitRun n b -> hasDigitRun n (a ++ b).
Proof.
  intros (pre & run & post & -> & D & L).
  exists (a ++ pre), run, post. rewrite <- !app_assoc. auto.
Qed.

Lemma digits_firstn n s : digits s -> digits (firstn n s).
Proof.
  intros D. rewrite <- (firstn_skipn n s) in D.
  apply Forall_app in D. apply D.
Qed.

(** Deciding [hasDigitRun]: some suffix starts with [n] digits. *)
Fixpoint hasRunB (n : nat) (s : str) : bool :=
  (n <=? runLength isDigit None s) ||
  match s with
  | [] => false
  | _ :: s' => hasRunB n s'
  end.

Lemma runLength_covers cls run post :
  Forall (fun c => cls c = true) run ->
  List.length run <= runLength cls None (run ++ post).
Proof.
  induction 1 as [|c run Hc F IH]; simpl; [lia|].
  rewrite Hc. lia.
Qed.

Lemma hasRunB_spec n : forall s, hasRunB n s = true <-> hasDigitRun n s.
Proof.
  induction s as [|c s IH]; cbn [hasRunB]; rewrite orb_true_iff.
  - split.
    + intros [H | H]; [|discriminate]. apply Nat.leb_le in H. simpl in H.
      assert (n = 0) by lia. subst. exists [], [], []. repeat split. constructor.
    + intros (pre & run & post & E & D & L). left. apply Nat.leb_le.
      destruct pre; [|discriminate]. destruct run; [simpl in L; lia | discriminate].
  - rewrite IH. split.
    + intros [H | (pre & run & post & -> & D & L)].
      * apply Nat.leb_le in H.
        destruct (runLength_prefix isDigit None (c :: s) n H) as [F Len].
        exists [], (firstn n (c :: s)), (skipn n (c :: s)).
        rewrite app_nil_l, firstn_skipn. auto.
      * exists (c :: pre), run, post. auto.
    + intros (pre & run & post & E & D & L). destruct pre as [|a pre].
      * left. apply Nat.leb_le. simpl in E. rewrite E, <- L.
        apply runLength_covers. exact D.
      * right. injection E as _ E. exists pre, run, post. auto.
Qed.

(** One step of the matcher at a word boundary. *)
Lemma matchHere_WordB ic r prev s res :
  matchHere ic (WordB :: r) prev s = Some res ->
  xorb (isWordOpt prev) (isWordOpt (hd_error s)) = true /\
  matchHere ic r prev s = Some res.
Proof.
  cbn [matchHere]. destruct (xorb _ _); [auto | discriminate].
Qed.

Lemma matchHere_WordB_intro ic r prev s res :
  xorb (isWordOpt prev) (isWordOpt (hd_error s)) = true ->
  matchHere ic r prev s = Some res ->
  matchHere ic (WordB :: r) prev s = Some res.
Proof. intros B M. cbn [matchHere]. rewrite B. exact M. Qed.

(** A match of [\b\d{10,13}\b] starts with ten digits. *)
Lemma token_match prev s r :
  matchHere false (nodes epochToken) prev s = Some r ->
  exists taken t, s = taken ++ t /\ digits taken /\ 10 <= List.length taken.
Proof.
  unfold epochToken, nodes. intros H.
  apply matchHere_WordB in H. destruct H as [_ H].
  apply matchHere_Rep in H.
  destruct H as (taken & t & r' & -> & D & L & _).
  exists taken, t. auto.
Qed.

Lemma token_match_run prev s r :
  matchHere false (nodes epochToken) prev s = Some r -> hasDigitRun 10 s.
Proof.
  intros H. destruct (token_match prev s r H) as (taken & t & -> & D & L).
  exists [], (firstn 10 taken), (skipn 10 taken ++ t). rewrite app_nil_l.
  rewrite app_assoc, firstn_skipn. split; [reflexivity|].
  split; [apply digits_firstn; exact D|].
  rewrite length_firstn. lia.
Qed.

(** Without ten digits in a row there is nothing to find. *)
Lemma search_token_none : forall s prev,
  ~ hasDigitRun 10 s -> search epochToken prev s = None.
Proof.
  induction s as [|c s IH]; intros prev N; cbn [search].
  - destruct (matchHere (ignoreCase epochToken) (nodes epochToken) prev [])
      as [r|] eqn:M; [|reflexivity].
    exfalso. apply N. exact (token_match_run _ _ _ M).
  - destruct (matchHere (ignoreCase epochToken) (nodes epochToken) prev (c :: s))
      as [r|] eqn:M.
    + exfalso. apply N. exact (token_match_run _ _ _ M).
    + rewrite IH; [reflexivity|].
      intros H. apply N. apply (hasDigitRun_app_r 10 [c] s H).
Qed.

Lemma replaceAll_none re fn fuel prev s :
  search re prev s = None -> replaceAllFrom fuel re fn prev s = s.
Proof. intros H. destruct fuel; simpl; [reflexivity|]. rewrite H. reflexivity. Qed.

(** X3. A line that nowhere has ten digits in a row comes back from
    [convertLineTimestamps] as it went in. *)
Theorem short_numbers_untouched (line : str) :
  ~ hasDigitRun 10 line -> convertLineTimestamps line = line.
Proof.
  intros N. unfold convertLineTimestamps, replaceAll.
  apply replaceAll_none, search_token_none, N.
Qed.

Lemma short_numbers_untouched_witness :
  convertLineTimestamps (lit "P:42,17;ok 2024-01-01 123456789")
  = lit "P:42,17;ok 2024-01-01 123456789".
Proof.
  apply short_numbers_untouched.
  intros H. apply hasRunB_spec in H. vm_compute in H. discriminate.
Defined.

(** ** One standalone token *)

Lemma digit_is_word c : isDigit c = true -> isWord c = true.
Proof. intros D. unfold isWord. rewrite D. reflexivity. Qed.

Lemma nonword_not_digit c : isWord c = false -> isDigit c = false.
Proof.
  intros W. destruct (isDigit c) eqn:D; [|reflexivity].
  rewrite (digit_is_word c D) in W. discriminate.
Qed.

Lemma prevAfter_last prev a z : prevAfter prev (a ++ [z]) = Some z.
Proof. rewrite prevAfter_app. reflexivity. Qed.

Lemma digits_run x : digits x -> 10 <= List.length x -> hasDigitRun 10 x.
Proof.
  intros D L. exists [], (firstn 10 x), (skipn 10 x).
  rewrite app_nil_l, firstn_skipn. split; [reflexivity|].
  split; [apply digits_firstn; exact D | rewrite length_firstn; lia].
Qed.

(** The leftmost match is the first position at which the pattern
    matches. *)
Lemma search_first re : forall pre prev suffix r,
  (forall p1 p2, pre = p1 ++ p2 -> p2 <> [] ->
     matchHere (ignoreCase re) (nodes re) (prevAfter prev p1) (p2 ++ suffix) = None) ->
  matchHere (ignoreCase re) (nodes re) (prevAfter prev pre) suffix = Some r ->
  search re prev (pre ++ suffix) = Some (mkFound pre r).
Proof.
  induction pre as [|c pre IH]; intros prev suffix r Before Here.
  - change (matchHere (ignoreCase re) (nodes re) prev suffix = Some r) in Here.
    rewrite app_nil_l.
    destruct suffix; cbn [search]; rewrite Here; reflexivity.
  - cbn [app search].
    rewrite (Before [] (c :: pre) eq_refl ltac:(discriminate)
             : matchHere _ _ prev (c :: pre ++ suffix) = None).
    rewrite (IH (Some c) suffix r); [reflexivity | |].
    + intros p1 p2 E NE. rewrite <- (prevAfter_cons prev c p1).
      apply Before; [rewrite E; reflexivity | exact NE].
    + rewrite <- (prevAfter_cons prev c pre). exact Here.
Qed.

(** Before a token that follows a non-word character, a match would have
    to lie in the text before it. *)
Lemma no_match_before pre tail p1 p2 prev :
  isWordOpt (prevAfter None pre) = false ->
  ~ hasDigitRun 10 pre ->
  pre = p1 ++ p2 -> p2 <> [] ->
  matchHere false (nodes epochToken) prev (p2 ++ tail) = None.
Proof.
  intros W N E NE.
  destruct (matchHere false (nodes epochToken) prev (p2 ++ tail)) as [r|] eqn:M;
    [|reflexivity].
  exfalso.
  destruct (token_match _ _ _ M) as (taken & t & Et & D & L).
  destruct (exists_last NE) as (p2' & z & ->).
  assert (Z : isDigit z = false).
  { apply nonword_not_digit. rewrite E, app_assoc, prevAfter_last in W. exact W. }
  rewrite <- app_assoc in Et. cbn [app] in Et.
  symmetry in Et. apply app_eq_app in Et. destruct Et as (l & [[E1 E2] | [E1 E2]]).
  - (* the digits reach past the end of [p2'] *)
    destruct l as [|a l].
    + rewrite app_nil_r in E1. subst taken.
      apply N. rewrite E. apply hasDigitRun_app_r, hasDigitRun_app_l.
      apply digits_run; assumption.
    + cbn [app] in E2. injection E2 as <- _.
      rewrite E1 in D. apply Forall_app in D. destruct D as [_ D].
      inversion D as [|? ? Dz _]. congruence.
  - apply N. rewrite E, E1. apply hasDigitRun_app_r.
    rewrite <- app_assoc. apply hasDigitRun_app_l. apply digits_run; assumption.
Qed.

(** A standalone token matches whole. *)
Lemma token_matches prev tok post :
  digits tok -> 10 <= List.length tok <= 13 ->
  isWordOpt prev = false ->
  isWordOpt (hd_error post) = false ->
  matchHere false (nodes epochToken) prev (tok ++ post)
  = Some (mkResult (tok ++ []) [] post).
Proof.
  intros D L Wp Wq. unfold epochToken, nodes.
  assert (NE : tok <> []) by (destruct tok; [simpl in L; lia | discriminate]).
  apply matchHere_WordB_intro.
  - rewrite Wp. destruct tok as [|d tok]; [contradiction|]. cbn [app hd_error isWordOpt].
    inversion D as [|? ? Dd _]. rewrite (digit_is_word d Dd). reflexivity.
  - apply (matchHere_Rep_intro false false isDigit 10 (Some 13) [WordB] prev tok post
             (mkResult [] [] post) D); [lia | lia | |].
    + destruct post as [|c post]; [exact I|].
      apply nonword_not_digit. exact Wq.
    + apply matchHere_WordB_intro; [|reflexivity].
      destruct (exists_last NE) as (tok' & z & ->).
      rewrite prevAfter_last, Wq. cbn [isWordOpt].
      apply Forall_app in D. destruct D as [_ D]. inversion D as [|? ? Dz _].
      rewrite (digit_is_word z Dz). reflexivity.
Qed.

(** X4. A token of ten to thirteen digits that stands alone (no word
    character on either side) in a line that has no other run of ten
    digits is the one thing [convertLineTimestamps] touches: the text
    before and after it stays, and the token is replaced by its formatted
    time exactly when [isEpoch] accepts its value. *)
Theorem standalone_token_converted (pre tok post : str) :
  digits tok -> 10 <= List.length tok <= 13 ->
  isWordOpt (prevAfter None pre) = false ->
  isWordOpt (hd_error post) = false ->
  ~ hasDigitRun 10 pre -> ~ hasDigitRun 10 post ->
  convertLineTimestamps (pre ++ tok ++ post)
  = pre ++ (if isEpoch (parseDigits tok)
            then formatEpoch (parseDigits tok) else tok) ++ post.
Proof.
  intros D L Wp Wq Np Nq.
  unfold convertLineTimestamps, replaceAll. cbn [replaceAllFrom].
  rewrite (search_first epochToken pre None (tok ++ post)
             (mkResult (tok ++ []) [] post)).
  - cbn [hit before matched rest]. rewrite app_nil_r.
    destruct tok as [|d tok]; [simpl in L; lia|].
    rewrite replaceAll_none by (apply search_token_none; exact Nq).
    unfold convertToken. destruct (isEpoch (parseDigits (d :: tok))); reflexivity.
  - intros p1 p2 E NE. apply (no_match_before pre (tok ++ post) p1 p2 _ Wp Np E NE).
  - apply token_matches; assumption.
Qed.

Lemma standalone_token_converted_witness :
  convertLineTimestamps (lit "D:" ++ lit "1700000000" ++ lit ",12,34#")
  = lit "D:" ++ (if isEpoch (parseDigits (lit "1700000000"))
                 then formatEpoch (parseDigits (lit "1700000000"))
                 else lit "1700000000") ++ lit ",12,34#".
Proof.
  apply standalone_token_converted.
  - repeat constructor.
  - simpl. lia.
  - reflexivity.
  - reflexivity.
  - intros H. apply hasRunB_spec in H. vm_compute in H. discriminate.
  - intros H. apply hasRunB_spec in H. vm_compute in H. discriminate.
Defined.

End TimestampMore.

(* ===================================================================== *)
(** * More on the export *)
(* ===================================================================== *)

Module ExportMore.

Import Regex RegexFacts LogContext LogsScreen Patterns ExportFacts ExportRun.

(** ** The prefix and the fields *)

(** A pattern without [^] and [\b] does not look at the character before
    the position it is tried at. *)
Definition plain (r : list node) : bool :=
  forallb (fun n => match n with Bol | WordB => false | _ => true end) r.

Lemma backtrack_plain k capture lo s :
  (forall prev prev' t, k prev t = k prev' t) ->
  forall n prev prev',
    backtrack k capture lo prev s n = backtrack k capture lo prev' s n.
Proof.
  intros K. induction n as [|n IH]; intros prev prev'.
  - rewrite (backtrack_eq k capture lo prev s 0),
            (backtrack_eq k capture lo prev' s 0).
    destruct (0 <? lo); [reflexivity|].
    rewrite (K _ (prevAfter prev' (firstn 0 s))). reflexivity.
  - rewrite (backtrack_eq k capture lo prev s (S n)),
            (backtrack_eq k capture lo prev' s (S n)).
    destruct (S n <? lo); [reflexivity|].
    rewrite (K _ (prevAfter prev' (firstn (S n) s))).
    rewrite (IH prev prev'). reflexivity.
Qed.

Lemma matchHere_plain ic : forall r, plain r = true ->
  forall prev prev' s, matchHere ic r prev s = matchHere ic r prev' s.
Proof.
  induction r as [|nd r IH]; intros P prev prev' s; [reflexivity|].
  cbn [plain forallb] in P. apply andb_true_iff in P. destruct P as [Pn P].
  destruct nd as [c|capture cls lo hi| |]; try discriminate; cbn [matchHere].
  - reflexivity.
  - apply backtrack_plain. intros q q' t. apply IH. exact P.
Qed.

Lemma search_plain re : plain (nodes re) = true ->
  forall s prev prev', search re prev s = search re prev' s.
Proof.
  intros P. induction s as [|c s IH]; intros prev prev'; cbn [search];
    rewrite (matchHere_plain _ _ P prev prev'); reflexivity.
Qed.

(** The pattern of the fields starts with a digit. *)
Lemma ppm_needs_digit prev c s :
  isDigit c = false ->
  matchHere false (nodes ppmPattern) prev (c :: s) = None.
Proof.
  intros D. unfold ppmPattern, nodes. cbn [matchHere runLength].
  rewrite D. apply backtrack_short. lia.
Qed.

Lemma exec_skip_nondigits : forall nd s,
  Forall (fun c => isDigit c = false) nd ->
  exec ppmPattern (nd ++ s) = exec ppmPattern s.
Proof.
  induction 1 as [|c nd Dc F IH]; [reflexivity|].
  rewrite <- IH. unfold exec. cbn [app search].
  change (ignoreCase ppmPattern) with false.
  rewrite (ppm_needs_digit None c (nd ++ s) Dc).
  rewrite (search_plain ppmPattern eq_refl (nd ++ s) (Some c) None).
  destruct (search ppmPattern None (nd ++ s)); reflexivity.
Qed.

Lemma space_not_digit c : isSpace c = true -> isDigit c = false.
Proof.
  destruct c as [[] [] [] [] [] [] [] []]; vm_compute; intros H;
    (reflexivity || discriminate).
Qed.

Lemma spaces_not_digits ws : spaces ws -> Forall (fun c => isDigit c = false) ws.
Proof.
  induction 1 as [|c ws Hc F IH]; constructor; [apply space_not_digit; exact Hc | exact IH].
Qed.

(** What [/^\s*D:\s*/] matches has no digit in it. *)
Lemma prefix_match s r :
  matchHere false [Rep false isSpace 0 None; Lit "D"; Lit ":";
                   Rep false isSpace 0 None] None s = Some r ->
  s = matched r ++ rest r /\ Forall (fun c => isDigit c = false) (matched r).
Proof.
  intros M. split; [exact (matchHere_split _ _ _ _ _ M)|].
  apply matchHere_Rep in M. destruct M as (ws & t & r1 & -> & W & _ & _ & M & ->).
  apply matchHere_Lit in M. destruct M as (a & t2 & r2 & -> & C & M & ->).
  apply matchHere_Lit in M. destruct M as (b & t3 & r3 & -> & C2 & M & ->).
  apply matchHere_Rep in M. destruct M as (ws' & t4 & r4 & -> & W' & _ & _ & M & ->).
  cbn [matchHere] in M. injection M as <-.
  apply eqc_true in C, C2. subst a b.
  cbn [extend matched]. rewrite app_nil_r.
  apply Forall_app. split; [apply spaces_not_digits; exact W|].
  constructor; [reflexivity|]. constructor; [reflexivity|].
  apply spaces_not_digits. exact W'.
Qed.

(** X5. Removing the [D:] prefix makes no difference to the fields: the
    match of [(\d{10,13}),(\d+),(\d+)#] in the remainder is the match in
    the whole data line.  In particular a line with a lower-case [d:],
    which [/^\s*D:\s*/] leaves in place, is read like any other. *)
Theorem prefix_irrelevant_for_fields (s : str) :
  exec ppmPattern (stripPrefix s) = exec ppmPattern s.
Proof.
  unfold stripPrefix, replaceFirst.
  rewrite (search_anchored_start prefixPattern
     [Rep false isSpace 0 None; Lit "D"; Lit ":"; Rep false isSpace 0 None] s eq_refl).
  change (ignoreCase prefixPattern) with false.
  destruct (matchHere false _ None s) as [r|] eqn:M; [|reflexivity].
  destruct (prefix_match s r M) as [E F].
  cbn [before hit app]. rewrite E.
  symmetry. apply exec_skip_nondigits. exact F.
Qed.

(** ** The shape of the sheet *)

Section Shape.

Variable toLocaleDateString : Z -> str.
Variable toLocaleTimeString : Z -> str.

Lemma rowsFrom_width : forall items n row,
  In row (rowsFrom toLocaleDateString toLocaleTimeString n items) ->
  List.length row = 5.
Proof.
  induction items as [|item items IH]; intros n row H; [contradiction|].
  destruct H as [<- | H]; [|exact (IH _ _ H)].
  destruct (rowOf_cases toLocaleDateString toLocaleTimeString n item)
    as [(e & o & i & _ & ->) | [_ ->]]; reflexivity.
Qed.

(** X6. The sheet is rectangular: the header and every data row have five
    cells, whatever was logged. *)
Theorem sheet_rows_have_five_cells (logData : list LogEntry) (row : list str) :
  In row (excelData toLocaleDateString toLocaleTimeString logData) ->
  List.length row = 5.
Proof.
  rewrite excelData_rows. intros [<- | H]; [reflexivity|].
  exact (rowsFrom_width _ _ _ H).
Qed.

End Shape.

Lemma sheet_rows_have_five_cells_witness :
  List.length [natToString 1; []; []; []; []] = 5.
Proof.
  apply (sheet_rows_have_five_cells ExportTheorems.isoDate ExportTheorems.isoTime
           ExportTheorems.sampleLog).
  right. left. reflexivity.
Defined.

(** ** The name of the file *)

Lemma replaceColons_no_colon s : ~ In ":"%char (replaceColons s).
Proof.
  unfold replaceColons. intros H. apply in_map_iff in H.
  destruct H as (c & E & _). unfold eqc in E.
  destruct (Ascii.eqb_spec c ":"%char) as [Ec|N]; [discriminate | congruence].
Qed.

(** X7. Whatever the clock returns, the name of the exported file has no
    colon in it, starts with [bluetooth_logs_] and ends with [.xlsx]; with
    an ISO time of at least 19 characters it is 39 characters long. *)
Theorem file_name_is_safe (env : Env) :
  ~ In ":"%char (fileName env) /\
  (exists stamp, fileName env = lit "bluetooth_logs_" ++ stamp ++ lit ".xlsx" /\
                 List.length stamp = Nat.min 19 (List.length (nowISO env))) /\
  (19 <= List.length (nowISO env) -> List.length (fileName env) = 39).
Proof.
  assert (L : List.length (replaceColons (slice0 19 (nowISO env)))
              = Nat.min 19 (List.length (nowISO env))).
  { unfold replaceColons, slice0. rewrite length_map, length_firstn. reflexivity. }
  split; [|split].
  - unfold fileName. intros H.
    apply in_app_or in H. destruct H as [H | H].
    + vm_compute in H. repeat (destruct H as [H | H]; [discriminate|]). contradiction.
    + apply in_app_or in H. destruct H as [H | H].
      * exact (replaceColons_no_colon _ H).
      * vm_compute in H. repeat (destruct H as [H | H]; [discriminate|]). contradiction.
  - exists (replaceColons (slice0 19 (nowISO env))). split; [reflexivity | exact L].
  - intros Long. unfold fileName. rewrite !length_app, L.
    change (List.length (lit "bluetooth_logs_")) with 15.
    change (List.length (lit ".xlsx")) with 5. lia.
Qed.

Lemma file_name_is_safe_witness :
  List.length (fileName cancelling) = 39.
Proof.
  destruct (file_name_is_safe cancelling) as (_ & _ & Long).
  apply Long. vm_compute. lia.
Defined.

(** ** A share sheet that fails *)

(** X8. Off Android the file is written before the share sheet opens.  When
    the write succeeds and sharing is rejected, the run ends with the
    [Error] alert "Failed to generate Excel file" although the file is
    there. *)
Theorem share_failure_reports_error (env : Env) (ctx : LogContext.State)
    (e : JsError) :
  logData ctx <> [] ->
  os_android env = false ->
  (forall path content, await (writeFile env path content) = Some (Resolved tt)) ->
  (forall url name, await (shareOpen env url name) = Some (Rejected e)) ->
  writtenByRNFS env ctx = true /\
  finished (exportToExcel env ctx) = true /\
  last (events (exportToExcel env ctx)) (EvToast []) = errorAlert e /\
  filter isFileRequest (events (exportToExcel env ctx))
  = [EvWriteFile (documentDirectoryPath env ++ lit "/" ++ fileName env)
       (xlsxWrite env (excelData (toLocaleDateString env) (toLocaleTimeString env)
                                 (logData ctx)))].
Proof.
  intros NE OS W S.
  unfold writtenByRNFS. rewrite (exportToExcel_nonempty env ctx NE).
  unfold nonEmptyRun. rewrite OS, W, S. repeat split.
Qed.

(** An iPhone on which the share sheet is dismissed. *)
Definition dismissing : Env :=
  mkEnv false (lit "2024-01-01T10:20:30.000Z")
        (fun ms => lit "date") (fun ms => lit "time")
        (fun rows => lit "UEsDBBQ=")
        (fun name content => Never)
        (lit "/var/mobile/Documents")
        (fun path content => Settles 3 (Resolved tt))
        (fun url name => Settles 9 (Rejected (ErrorObj (lit "User did not share")))).

Lemma share_failure_reports_error_witness :
  writtenByRNFS dismissing oneEntry = true /\
  finished (exportToExcel dismissing oneEntry) = true /\
  last (events (exportToExcel dismissing oneEntry)) (EvToast [])
    = errorAlert (ErrorObj (lit "User did not share")) /\
  filter isFileRequest (events (exportToExcel dismissing oneEntry))
  = [EvWriteFile (documentDirectoryPath dismissing ++ lit "/" ++ fileName dismissing)
       (xlsxWrite dismissing
          (excelData (toLocaleDateString dismissing) (toLocaleTimeString dismissing)
                     (logData oneEntry)))].
Proof.
  apply share_failure_reports_error.
  - discriminate.
  - reflexivity.
  - reflexivity.
  - reflexivity.
Defined.

End ExportMore.

(* ===================================================================== *)
(** * The fields of a data line *)
(* ===================================================================== *)

Module ExportFields.

Import Regex RegexFacts LogContext LogsScreen Patterns ExportFacts ExportTheorems
       ExportMore.

Lemma app_same_length {A : Type} : forall (a c b d : list A),
  a ++ b = c ++ d -> List.length a = List.length c -> a = c /\ b = d.
Proof.
  induction a as [|x a IH]; intros [|y c] b d E L; try discriminate.
  - split; [reflexivity | exact E].
  - injection E as -> E. injection L as L.
    destruct (IH c b d E L) as [-> ->]. split; reflexivity.
Qed.

(** The leftmost occurrence is what the pattern finds. *)
Lemma FirstPpm_exec s e o i :
  FirstPpm s e o i -> exec ppmPattern s = Some [e; o; i].
Proof.
  intros F. destruct (exec ppmPattern s) as [m|] eqn:E.
  - destruct (exec_ppm_some s m E) as (e' & o' & i' & F' & ->).
    destruct F as (pre & suf & Hs & P & Min).
    destruct F' as (pre' & suf' & Hs' & P' & Min').
    assert (L : List.length pre = List.length pre').
    { destruct (Nat.lt_trichotomy (List.length pre) (List.length pre'))
        as [Lt | [Eq | Gt]]; [|exact Eq|].
      - destruct (Min' pre suf e o i Hs Lt P).
      - destruct (Min pre' suf' e' o' i' Hs' Gt P'). }
    rewrite Hs in Hs'. destruct (app_same_length _ _ _ _ Hs' L) as [_ <-].
    destruct (PpmAt_unique _ _ _ _ _ _ _ P P') as (-> & -> & ->). reflexivity.
  - apply exec_ppm_none in E. destruct E. exact (FirstPpm_contains _ _ _ _ F).
Qed.

Lemma ContainsPpm_first s :
  ContainsPpm s -> exists e o i, FirstPpm s e o i.
Proof.
  intros C. destruct (exec ppmPattern s) as [m|] eqn:E.
  - destruct (exec_ppm_some s m E) as (e & o & i & F & _). eauto.
  - apply exec_ppm_none in E. contradiction.
Qed.

(** What [item.data.replace(/^\s*D:\s*/, '')] removes is at the start of the
    line and holds no digit. *)
Lemma stripPrefix_split s :
  exists pre, s = pre ++ stripPrefix s /\ Forall (fun c => isDigit c = false) pre.
Proof.
  unfold stripPrefix, replaceFirst.
  rewrite (search_anchored_start prefixPattern
     [Rep false isSpace 0 None; Lit "D"; Lit ":"; Rep false isSpace 0 None] s eq_refl).
  change (ignoreCase prefixPattern) with false.
  destruct (matchHere false _ None s) as [r|] eqn:M.
  - destruct (prefix_match s r M) as [E F].
    exists (matched r). cbn [before hit app]. split; [exact E | exact F].
  - exists []. split; [reflexivity | constructor].
Qed.

Section Sheet.

Variable toLocaleDateString : Z -> str.
Variable toLocaleTimeString : Z -> str.

(** The pattern is looked for in what is left of the line: that is the
    line itself as far as the fields go. *)
Lemma rowOf_line serial item :
  rowOf toLocaleDateString toLocaleTimeString serial item =
  match exec ppmPattern (data item) with
  | Some m =>
      [natToString serial;
       toLocaleDateString (parseDigits (nth 0 m []) * 1000);
       toLocaleTimeString (parseDigits (nth 0 m []) * 1000);
       nth 1 m []; nth 2 m []]
  | None => [natToString serial; []; []; []; []]
  end.
Proof.
  unfold rowOf.
  destruct (stripPrefix_split (data item)) as (pre & E & F).
  assert (X : exec ppmPattern (stripPrefix (data item))
              = exec ppmPattern (data item)).
  { rewrite <- (exec_skip_nondigits pre (stripPrefix (data item)) F).
    f_equal. symmetry. exact E. }
  rewrite X. destruct (exec ppmPattern (data item)); reflexivity.
Qed.

(** C1, amended.  The data rows of the worksheet are the rows of the
    entries whose data matches [^\s*D:] without regard to case, one each
    and in log order: the k-th data row belongs to the k-th matching entry
    and carries the number k; the other entries produce no row.  When the
    data line contains [(10-13 digits),(digits),(digits)#], the fields of
    the leftmost occurrence fill the row: the date and time cells are the
    locale-formatted date and time of the first field read as epoch
    seconds, the PPM cells are the second and the third field.  When the
    line contains no occurrence the row is there all the same, with empty
    date, time and PPM cells. *)
Theorem C1_export_rows (logData : list LogEntry) :
  let sheet := excelData toLocaleDateString toLocaleTimeString logData in
  let matching := filter isDataLine logData in
  (forall item, isDataLine item = true <-> DataLine (data item)) /\
  List.length (tl sheet) = List.length matching /\
  (forall k item e o i,
     nth_error matching k = Some item ->
     FirstPpm (data item) e o i ->
     nth_error (tl sheet) k =
       Some [natToString (S k);
             toLocaleDateString (parseDigits e * 1000);
             toLocaleTimeString (parseDigits e * 1000);
             o; i]) /\
  (forall k item,
     nth_error matching k = Some item ->
     ~ ContainsPpm (data item) ->
     nth_error (tl sheet) k = Some [natToString (S k); []; []; []; []]) /\
  (forall s, ContainsPpm s -> exists e o i, FirstPpm s e o i).
Proof.
  intros sheet matching. subst sheet matching.
  split; [exact isDataLine_spec|].
  split; [rewrite sheet_tail; apply rowsFrom_length|].
  split; [|split; [|exact ContainsPpm_first]].
  - intros k item e o i H F. rewrite sheet_row.
    change (filter isDataLine logData) with (filtered logData) in H.
    rewrite H. cbn [option_map]. f_equal.
    rewrite rowOf_line, (FirstPpm_exec _ _ _ _ F). reflexivity.
  - intros k item H N. rewrite sheet_row.
    change (filter isDataLine logData) with (filtered logData) in H.
    rewrite H. cbn [option_map]. f_equal.
    rewrite rowOf_line. apply exec_ppm_none in N. rewrite N. reflexivity.
Qed.

End Sheet.

Lemma measurement_fields :
  FirstPpm (data (entry " d: 1700000000,12,34#"))
           (lit "1700000000") (lit "12") (lit "34").
Proof.
  destruct (exec_ppm_some (data (entry " d: 1700000000,12,34#"))
              [lit "1700000000"; lit "12"; lit "34"])
    as (e & o & i & F & E); [vm_compute; reflexivity|].
  injection E as <- <- <-. exact F.
Qed.

Lemma hello_line_has_no_fields :
  ContainsPpm (data (entry "D:hello")) -> False.
Proof. apply exec_ppm_none. vm_compute. reflexivity. Qed.

(** C1 on the sample log: the third entry is the second data line; its
    fields are read although its prefix is a lower-case [d:], and its row
    is the second. *)
Lemma C1_export_rows_witness :
  nth_error (tl (excelData isoDate isoTime sampleLog)) 1 =
    Some [natToString 2;
          isoDate (parseDigits (lit "1700000000") * 1000);
          isoTime (parseDigits (lit "1700000000") * 1000);
          lit "12"; lit "34"] /\
  nth_error (tl (excelData isoDate isoTime sampleLog)) 0
    = Some [natToString 1; []; []; []; []].
Proof.
  destruct (C1_export_rows isoDate isoTime sampleLog) as (_ & _ & Fields & Blank & _).
  split.
  - apply (Fields 1 (entry " d: 1700000000,12,34#")); [reflexivity|].
    exact measurement_fields.
  - apply (Blank 0 (entry "D:hello")); [reflexivity|].
    exact hello_line_has_no_fields.
Defined.

(** C1 as stated fails on a data line without measurement: the entry
    [D:hello] is prefixed [D:], no field can be extracted from it, and its
    row is there all the same, with empty date, time and PPM cells. *)
Lemma C1_data_line_without_fields :
  isDataLine (entry "D:hello") = true /\
  (ContainsPpm (data (entry "D:hello")) -> False) /\
  (ContainsPpm (stripPrefix (data (entry "D:hello"))) -> False) /\
  excelData isoDate isoTime [entry "D:hello"]
    = [header; [natToString 1; []; []; []; []]].
Proof.
  split; [reflexivity|]. split; [exact hello_line_has_no_fields|].
  split; [exact hello_has_no_fields|].
  vm_compute. reflexivity.
Qed.

End ExportFields.

(* ===================================================================== *)
(** * A logging session *)
(* ===================================================================== *)

Module LogSession.

Import LogContext.

(** What can happen to the log context while the app runs: the three
    buttons of the logs screen ([startLogging], [stopLogging] and, after
    the confirmation, [clearLogs]) and a payload handed to [appendLog] by
    the data listener of the main screen. *)
Inductive action : Type :=
| PressStart
| PressStop
| PressClear
| Payload (now payload : str).

Definition perform (st : State) (a : action) : State :=
  match a with
  | PressStart => startLogging st
  | PressStop => stopLogging st
  | PressClear => clearLogs st
  | Payload now payload => appendLog now payload st
  end.

Definition run (acts : list action) (st : State) : State :=
  fold_left perform acts st.

(** The entries of the payloads among some actions, in order. *)
Definition entriesOf (acts : list action) : list LogEntry :=
  flat_map (fun a => match a with
                     | Payload now payload => [mkLogEntry now payload]
                     | _ => []
                     end) acts.

Definition noClear (acts : list action) : bool :=
  forallb (fun a => match a with PressClear => false | _ => true end) acts.

Lemma run_app a b st : run (a ++ b) st = run b (run a st).
Proof. apply fold_left_app. Qed.

Lemma run_no_clear : forall acts st,
  noClear acts = true -> logData (run acts st) = logData st ++ entriesOf acts.
Proof.
  induction acts as [|a acts IH]; intros st N.
  - symmetry. apply app_nil_r.
  - cbn [noClear forallb] in N. apply andb_true_iff in N. destruct N as [Na N].
    change (run (a :: acts) st) with (run acts (perform st a)).
    rewrite (IH _ N).
    destruct a; try discriminate; cbn [perform entriesOf flat_map];
      try reflexivity.
    simpl. rewrite <- app_assoc. reflexivity.
Qed.

(** X9. The captured list holds the payloads received since the last
    [clearLogs], in the order of arrival; pressing start or stop in between
    changes nothing of it. *)
Theorem captured_since_last_clear (acts : list action) (st : State) :
  (noClear acts = true ->
     logData (run acts st) = logData st ++ entriesOf acts) /\
  (forall earlier later,
     acts = earlier ++ PressClear :: later -> noClear later = true ->
     logData (run acts st) = entriesOf later).
Proof.
  split; [apply run_no_clear|].
  intros earlier later -> N.
  rewrite run_app. change (run (PressClear :: later) ?s)
    with (run later (clearLogs s)).
  rewrite (run_no_clear later _ N). reflexivity.
Qed.

Lemma captured_since_last_clear_witness :
  logData (run [Payload (lit "t0") (lit "D:old"); PressStart; PressClear; PressStop;
                Payload (lit "t1") (lit "D:1"); PressStart;
                Payload (lit "t2") (lit "D:2")] initial)
  = [mkLogEntry (lit "t1") (lit "D:1"); mkLogEntry (lit "t2") (lit "D:2")].
Proof.
  destruct (captured_since_last_clear
              [Payload (lit "t0") (lit "D:old"); PressStart; PressClear; PressStop;
               Payload (lit "t1") (lit "D:1"); PressStart;
               Payload (lit "t2") (lit "D:2")] initial) as [_ Since].
  apply (Since [Payload (lit "t0") (lit "D:old"); PressStart]
               [PressStop; Payload (lit "t1") (lit "D:1"); PressStart;
                Payload (lit "t2") (lit "D:2")]); reflexivity.
Defined.

End LogSession.

(* ===================================================================== *)
(** * The save dialog over many calls *)
(* ===================================================================== *)

Module SafRuns.

Import SafFileModule SafFacts.

Local Open Scope Z_scope.

(** ** The three fields go together *)

Definition together (st : State) : Prop :=
  st = initial \/
  exists promise fileName base64,
    st = mkState (Some promise) (Some fileName) (Some base64).

Lemma step_together c st : together st -> together (fst (step c st)).
Proof.
  intros T. destruct c as [a f b pr | android rq rc d]; cbn [step].
  - unfold saveFileWithDialog. destruct a; cbn [negb fst]; [|exact T].
    right. exists pr, f, b. reflexivity.
  - unfold onActivityResult.
    destruct (pendingPromise st) as [pr|]; [|exact T].
    destruct (rq =? REQUEST_CODE); [left; reflexivity | exact T].
Qed.

(** X10. In every state the module can reach, a promise is pending exactly
    when a file name and a content are: [onActivityResult] never finds a
    pending promise without its content. *)
Theorem pending_fields_go_together (st : State) :
  reachable st -> together st.
Proof.
  induction 1 as [|c st R IH]; [left; reflexivity|].
  apply step_together, IH.
Qed.

Lemma pending_fields_go_together_witness : together asked.
Proof. apply pending_fields_go_together. exact asked_reachable. Defined.

(** ** Runs *)

(** The events of a sequence of calls, oldest first, and the state it
    ends in. *)
Fixpoint runCalls (cs : list call) (st : State) : State * list Event :=
  match cs with
  | [] => (st, [])
  | c :: cs' =>
      let (st1, e1) := step c st in
      let (st2, e2) := runCalls cs' st1 in
      (st2, e1 ++ e2)
  end.

(** The promises handed to [saveFileWithDialog] in a sequence of calls. *)
Definition registered (cs : list call) : list Promise :=
  flat_map (fun c => match c with
                     | SaveFileWithDialog _ _ _ pr => [pr]
                     | OnActivityResult _ _ _ _ => []
                     end) cs.

Definition count (pr : Promise) (evs : list Event) : nat :=
  List.length (settlements pr evs).

Lemma count_app pr a b : count pr (a ++ b) = (count pr a + count pr b)%nat.
Proof. unfold count, settlements. rewrite filter_app, length_app. reflexivity. Qed.

Lemma writeAndSettle_other android q uri base64 pr :
  pr <> q -> count pr (writeAndSettle android q uri base64) = 0%nat.
Proof.
  intros N. apply Nat.eqb_neq in N. rewrite Nat.eqb_sym in N.
  unfold count, settlements, writeAndSettle.
  destruct (openOutputStream android uri);
    destruct (base64Decode android base64) as [bytes|m];
    try destruct (writeThrows android uri bytes);
    try destruct (closeThrows android uri);
    simpl; rewrite N; reflexivity.
Qed.

(** A dialog result settles the pending promise once and no other. *)
Lemma result_counts android rq rc d st pr :
  count pr (snd (onActivityResult android rq rc d st)) =
  match pendingPromise st with
  | Some q => if (rq =? REQUEST_CODE) && Nat.eqb q pr then 1%nat else 0%nat
  | None => 0%nat
  end.
Proof.
  unfold onActivityResult.
  destruct (pendingPromise st) as [q|]; [|reflexivity].
  destruct (rq =? REQUEST_CODE); [|reflexivity]. cbn [snd andb].
  destruct (Nat.eqb_spec q pr) as [->|N].
  - destruct d as [[[uri|]]|]; destruct (rc =? RESULT_OK);
      try destruct (pendingBase64 st);
      try apply writeAndSettle_once;
      unfold count, settlements; simpl; rewrite Nat.eqb_refl; reflexivity.
  - assert (N' : pr <> q) by congruence.
    assert (B : Nat.eqb q pr = false) by (apply Nat.eqb_neq; exact N).
    destruct d as [[[uri|]]|]; destruct (rc =? RESULT_OK);
      try destruct (pendingBase64 st);
      try (apply writeAndSettle_other; exact N');
      unfold count, settlements; simpl; rewrite B; reflexivity.
Qed.

Lemma result_state android rq rc d st :
  fst (onActivityResult android rq rc d st) =
  match pendingPromise st with
  | Some _ => if rq =? REQUEST_CODE then initial else st
  | None => st
  end.
Proof.
  unfold onActivityResult. destruct (pendingPromise st); [|reflexivity].
  destruct (rq =? REQUEST_CODE); reflexivity.
Qed.

Lemma runCalls_cons c cs st :
  runCalls (c :: cs) st =
  (fst (runCalls cs (fst (step c st))),
   snd (step c st) ++ snd (runCalls cs (fst (step c st)))).
Proof.
  cbn [runCalls]. destruct (step c st) as [st1 e1]. cbn [fst snd].
  destruct (runCalls cs st1) as [st2 e2]. reflexivity.
Qed.

(** A promise that is neither pending nor handed in later is not settled. *)
Lemma never_settled : forall cs st pr,
  ~ In pr (registered cs) -> pendingPromise st <> Some pr ->
  count pr (snd (runCalls cs st)) = 0%nat.
Proof.
  induction cs as [|c cs IH]; intros st pr NR NP; [reflexivity|].
  rewrite runCalls_cons. cbn [snd]. rewrite count_app.
  destruct c as [a f b q | android rq rc d]; cbn [step registered flat_map] in *.
  - assert (Q : q <> pr) by (intros ->; apply NR; left; reflexivity).
    assert (NR' : ~ In pr (registered cs)) by (intros H; apply NR; right; exact H).
    unfold saveFileWithDialog. destruct a; cbn [negb fst snd].
    + rewrite (IH _ pr NR'); [reflexivity|]. cbn. congruence.
    + rewrite (IH _ pr NR' NP).
      unfold count, settlements. simpl.
      apply Nat.eqb_neq in Q. rewrite Q. reflexivity.
  - rewrite result_counts, result_state.
    destruct (pendingPromise st) as [q|] eqn:P.
    + assert (B : Nat.eqb q pr = false) by (apply Nat.eqb_neq; congruence).
      rewrite B, andb_false_r.
      destruct (rq =? REQUEST_CODE).
      * rewrite (IH initial pr NR); [reflexivity | discriminate].
      * rewrite (IH st pr NR); [reflexivity | congruence].
    + rewrite (IH st pr NR); [reflexivity | congruence].
Qed.

(** X11. If no promise is handed to [saveFileWithDialog] twice, no promise
    is settled twice, whatever the calls and the results are and in
    whatever order they come. *)
Theorem no_promise_settled_twice (cs : list call) (pr : Promise) :
  NoDup (registered cs) ->
  (count pr (snd (runCalls cs initial)) <= 1)%nat.
Proof.
  intros ND.
  assert (G : forall cs st,
            NoDup (registered cs) ->
            (forall q, pendingPromise st = Some q -> ~ In q (registered cs)) ->
            (count pr (snd (runCalls cs st)) <= 1)%nat).
  { clear cs ND. induction cs as [|c cs IH]; intros st ND NP;
      [unfold count; simpl; lia|].
    rewrite runCalls_cons. cbn [snd]. rewrite count_app.
    destruct c as [a f b q | android rq rc d]; cbn [step registered flat_map app] in *.
    - inversion ND as [|? ? Nq ND']; subst.
      assert (Pq : pendingPromise st <> Some q).
      { intros P. apply (NP q P). left. reflexivity. }
      unfold saveFileWithDialog. destruct a; cbn [negb fst snd].
      + (* the dialog opens: nothing is settled now *)
        assert (L : (count pr (snd (runCalls cs (mkState (Some q) (Some f) (Some b)))) <= 1)%nat).
        { apply IH; [exact ND'|]. intros q' E. injection E as <-. exact Nq. }
        unfold count at 1, settlements. simpl. exact L.
      + (* no activity: [q] is rejected now and never again *)
        destruct (Nat.eq_dec q pr) as [->|Q].
        * rewrite (never_settled cs st pr Nq Pq).
          unfold count, settlements. simpl. rewrite Nat.eqb_refl. simpl. lia.
        * assert (L : (count pr (snd (runCalls cs st)) <= 1)%nat).
          { apply IH; [exact ND'|]. intros q' E H. apply (NP q' E). right. exact H. }
          unfold count at 1, settlements. simpl.
          apply Nat.eqb_neq in Q. rewrite Q. simpl. exact L.
    - rewrite result_counts, result_state.
      destruct (pendingPromise st) as [q|] eqn:P.
      + destruct (rq =? REQUEST_CODE); cbn [andb].
        * destruct (Nat.eqb_spec q pr) as [->|Q].
          -- rewrite (never_settled cs initial pr (NP pr eq_refl)); [lia | discriminate].
          -- assert (L : (count pr (snd (runCalls cs initial)) <= 1)%nat).
             { apply IH; [exact ND | discriminate]. }
             lia.
        * assert (L : (count pr (snd (runCalls cs st)) <= 1)%nat).
          { apply IH; [exact ND|]. intros q' E. apply NP. congruence. }
          lia.
      + assert (L : (count pr (snd (runCalls cs st)) <= 1)%nat).
        { apply IH; [exact ND|]. intros q' E. congruence. }
        lia. }
  apply G; [exact ND | discriminate].
Qed.

(** Two exports started one after the other, then the result of a dialog. *)
Definition twoExports : list call :=
  [SaveFileWithDialog true (lit "a.xlsx") (lit "QQ==") 1%nat;
   SaveFileWithDialog true (lit "b.xlsx") (lit "Qg==") 2%nat;
   OnActivityResult working REQUEST_CODE RESULT_OK
     (Some (mkIntent (Some (lit "content://doc/2"))));
   OnActivityResult working REQUEST_CODE RESULT_OK
     (Some (mkIntent (Some (lit "content://doc/1"))))].

Lemma no_promise_settled_twice_witness :
  (count 2%nat (snd (runCalls twoExports initial)) <= 1)%nat.
Proof.
  apply no_promise_settled_twice.
  change (NoDup [1%nat; 2%nat]).
  constructor; [simpl; intros [H | []]; discriminate|].
  constructor; [simpl; tauto|]. constructor.
Defined.

(** X12. A second [saveFileWithDialog] while a dialog is open displaces the
    promise of the first: that promise is never resolved and never
    rejected, whatever happens afterwards, and the content written on the
    next result is that of the second call. *)
Theorem displaced_promise_never_settled
    (st : State) (f1 b1 f2 b2 : str) (pr1 pr2 : Promise) (later : list call) :
  pr1 <> pr2 ->
  ~ In pr1 (registered later) ->
  let calls := SaveFileWithDialog true f1 b1 pr1
               :: SaveFileWithDialog true f2 b2 pr2 :: later in
  count pr1 (snd (runCalls calls st)) = 0%nat /\
  fst (runCalls [SaveFileWithDialog true f1 b1 pr1;
                 SaveFileWithDialog true f2 b2 pr2] st)
  = mkState (Some pr2) (Some f2) (Some b2).
Proof.
  intros N NR calls. subst calls. split; [|reflexivity].
  rewrite !runCalls_cons. cbn [step saveFileWithDialog negb fst snd].
  rewrite !count_app.
  rewrite (never_settled later _ pr1 NR); [reflexivity|].
  cbn. congruence.
Qed.

Lemma displaced_promise_never_settled_witness :
  count 1%nat (snd (runCalls twoExports initial)) = 0%nat /\
  fst (runCalls [SaveFileWithDialog true (lit "a.xlsx") (lit "QQ==") 1%nat;
                 SaveFileWithDialog true (lit "b.xlsx") (lit "Qg==") 2%nat] initial)
  = mkState (Some 2%nat) (Some (lit "b.xlsx")) (Some (lit "Qg==")).
Proof.
  apply (displaced_promise_never_settled initial (lit "a.xlsx") (lit "QQ==")
           (lit "b.xlsx") (lit "Qg==") 1%nat 2%nat).
  - discriminate.
  - simpl. tauto.
Defined.

End SafRuns.

(* ===================================================================== *)
(** * What the helpers of the main screen leave alone *)
(* ===================================================================== *)

Module ScreenFrames.

Import MainScreen InitFacts.

Local Open Scope async_scope.

(** ** Computations that respect a relation *)

Section Relation.

Variable R : World -> World -> Prop.
Hypothesis R_refl : forall w, R w w.
Hypothesis R_trans : forall w1 w2 w3, R w1 w2 -> R w2 w3 -> R w1 w3.

(** [m] returns or throws, and relates the world it ends in to the world
    it started from. *)
Definition calmBy {A : Type} (m : M A) : Prop :=
  forall w, match m w with
            | (Suspended, _) => False
            | (_, w') => R w w'
            end.

(** The same, and [m] does not throw. *)
Definition quietBy {A : Type} (m : M A) : Prop :=
  forall w, match m w with
            | (Val _, w') => R w w'
            | _ => False
            end.

Lemma quietBy_calmBy {A : Type} (m : M A) : quietBy m -> calmBy m.
Proof.
  intros Q w. specialize (Q w).
  destruct (m w) as [[a|e|] w']; try contradiction; exact Q.
Qed.

Lemma quietBy_ret {A : Type} (a : A) : quietBy (ret a).
Proof. intros w. apply R_refl. Qed.

Lemma calmBy_throw {A : Type} (e : JsError) : calmBy (@throw A e).
Proof. intros w. apply R_refl. Qed.

Lemma quietBy_bind {A B : Type} (m : M A) (f : A -> M B) :
  quietBy m -> (forall a, quietBy (f a)) -> quietBy (bind m f).
Proof.
  intros Qm Qf w. unfold bind. specialize (Qm w).
  destruct (m w) as [[a|e|] w1]; try contradiction.
  specialize (Qf a w1). destruct (f a w1) as [[b|e|] w2]; try contradiction.
  eapply R_trans; eauto.
Qed.

Lemma calmBy_bind {A B : Type} (m : M A) (f : A -> M B) :
  calmBy m -> (forall a, calmBy (f a)) -> calmBy (bind m f).
Proof.
  intros Cm Cf w. unfold bind. specialize (Cm w).
  destruct (m w) as [[a|e|] w1]; try contradiction; [|exact Cm].
  specialize (Cf a w1). destruct (f a w1) as [[b|e|] w2]; try contradiction;
    eapply R_trans; eauto.
Qed.

Lemma quietBy_tryCatch {A : Type} (body : M A) (handler : JsError -> M A) :
  calmBy body -> (forall e, quietBy (handler e)) -> quietBy (tryCatch body handler).
Proof.
  intros Cb Qh w. unfold tryCatch. specialize (Cb w).
  destruct (body w) as [[a|e|] w1]; try contradiction; [exact Cb|].
  specialize (Qh e w1). destruct (handler e w1) as [[b|e'|] w2]; try contradiction.
  eapply R_trans; eauto.
Qed.

Lemma post_quietBy {A : Type} (m : M A) w (Q : Res A -> World -> Prop) :
  quietBy m -> (forall a w1, R w w1 -> Q (Val a) w1) -> post m w Q.
Proof.
  intros Qm K. unfold post. specialize (Qm w).
  destruct (m w) as [[a|e|] w1]; simpl; try contradiction. apply K, Qm.
Qed.

Lemma post_calmBy {A : Type} (m : M A) w (Q : Res A -> World -> Prop) :
  calmBy m ->
  (forall a w1, R w w1 -> Q (Val a) w1) ->
  (forall e w1, R w w1 -> Q (Exn e) w1) ->
  post m w Q.
Proof.
  intros Cm K1 K2. unfold post. specialize (Cm w).
  destruct (m w) as [[a|e|] w1]; simpl; try contradiction; auto.
Qed.

End Relation.

(** ** Views *)

(** An event that tells nothing about connections and listeners. *)
Definition minor (e : Event) : bool :=
  match e with
  | EvConnect _ | EvSubscribe _ | EvUnsubscribe => false
  | _ => true
  end.

(** A view of the world is [tolerant] when it does not see the call
    counter, the minor events, nor the status, the permission status, the
    device information and the Bluetooth flag of the screen. *)
Record tolerant {V : Type} (view : World -> V) : Prop := mkTolerant
  { tol_event : forall u c t e,
      minor e = true -> view (mkWorld u (S c) (e :: t)) = view (mkWorld u c t);
    tol_emit : forall u c t e,
      minor e = true -> view (mkWorld u c (e :: t)) = view (mkWorld u c t);
    tol_status : forall st s c t,
      view (mkWorld
              (mkState (isBluetoothEnabled st) (isScanning st) (pairedDevices st)
                 (unpairedDevices st) (connectedDevice st) s (deviceInfo st)
                 (isAppReady st) (permissionStatus st) (dataSubscription st)
                 (logCtx st)) c t)
      = view (mkWorld st c t);
    tol_permission : forall st g c t,
      view (mkWorld
              (mkState (isBluetoothEnabled st) (isScanning st) (pairedDevices st)
                 (unpairedDevices st) (connectedDevice st) (status st) (deviceInfo st)
                 (isAppReady st) g (dataSubscription st) (logCtx st)) c t)
      = view (mkWorld st c t);
    tol_info : forall st i c t,
      view (mkWorld
              (mkState (isBluetoothEnabled st) (isScanning st) (pairedDevices st)
                 (unpairedDevices st) (connectedDevice st) (status st) i
                 (isAppReady st) (permissionStatus st) (dataSubscription st)
                 (logCtx st)) c t)
      = view (mkWorld st c t);
    tol_bluetooth : forall st b c t,
      view (mkWorld
              (mkState b (isScanning st) (pairedDevices st)
                 (unpairedDevices st) (connectedDevice st) (status st) (deviceInfo st)
                 (isAppReady st) (permissionStatus st) (dataSubscription st)
                 (logCtx st)) c t)
      = view (mkWorld st c t) }.

(** A view that does not see the list of paired devices either. *)
Definition blindToPaired {V : Type} (view : World -> V) : Prop :=
  forall st l c t,
    view (mkWorld
            (mkState (isBluetoothEnabled st) (isScanning st) l
               (unpairedDevices st) (connectedDevice st) (status st) (deviceInfo st)
               (isAppReady st) (permissionStatus st) (dataSubscription st)
               (logCtx st)) c t)
    = view (mkWorld st c t).

Section View.

Context {V : Type} (view : World -> V).
Hypothesis tol : tolerant view.

Definition keeps (w w' : World) : Prop := view w' = view w.

Lemma keeps_refl w : keeps w w.
Proof. reflexivity. Qed.

Lemma keeps_trans w1 w2 w3 : keeps w1 w2 -> keeps w2 w3 -> keeps w1 w3.
Proof. unfold keeps. congruence. Qed.

Lemma world_eta w : w = mkWorld (ui w) (calls w) (trace w).
Proof. destruct w; reflexivity. Qed.

Lemma state_eta st :
  st = mkState (isBluetoothEnabled st) (isScanning st) (pairedDevices st)
         (unpairedDevices st) (connectedDevice st) (status st) (deviceInfo st)
         (isAppReady st) (permissionStatus st) (dataSubscription st) (logCtx st).
Proof. destruct st; reflexivity. Qed.

Lemma kept_emit e : minor e = true -> quietBy keeps (emit e).
Proof.
  intros Mi w. unfold emit, keeps. rewrite (tol_emit view tol _ _ _ e Mi).
  rewrite <- world_eta. reflexivity.
Qed.

Lemma kept_setStatus s : quietBy keeps (setStatus s).
Proof.
  intros w. unfold setStatus, bind, modify, emit, keeps. cbn [ui calls trace].
  rewrite (tol_emit view tol _ _ _ (EvStatus s) eq_refl).
  rewrite (tol_status view tol). rewrite <- world_eta. reflexivity.
Qed.

Lemma kept_setPermissionStatus g : quietBy keeps (setPermissionStatus g).
Proof.
  intros w. unfold setPermissionStatus, modify, keeps.
  rewrite (tol_permission view tol). rewrite <- world_eta. reflexivity.
Qed.

Lemma kept_setDeviceInfo i : quietBy keeps (setDeviceInfo i).
Proof.
  intros w. unfold setDeviceInfo, modify, keeps.
  rewrite (tol_info view tol). rewrite <- world_eta. reflexivity.
Qed.

Lemma kept_setIsBluetoothEnabled b : quietBy keeps (setIsBluetoothEnabled b).
Proof.
  intros w. unfold setIsBluetoothEnabled, modify, keeps.
  rewrite (tol_bluetooth view tol). rewrite <- world_eta. reflexivity.
Qed.

Lemma kept_awaitCall {A : Type} (e : Event) (f : nat -> Timed A) :
  minor e = true -> (forall t, f t <> Never) -> calmBy keeps (awaitCall e f).
Proof.
  intros Mi S w. unfold awaitCall. specialize (S (calls w)).
  destruct (f (calls w)) as [t [a|err]|]; simpl; try contradiction;
    unfold keeps; rewrite (tol_event view tol _ _ _ e Mi);
    rewrite <- world_eta; reflexivity.
Qed.

Variable p : Platform.
Variable snap : State.
Hypothesis answers : responsive p.

Ltac kbind := apply (quietBy_bind keeps keeps_trans).
Ltac cbind := apply (calmBy_bind keeps keeps_trans).
Ltac kret := apply (quietBy_ret keeps keeps_refl).
Ltac ktry := apply (quietBy_tryCatch keeps keeps_trans).
Ltac calmly := apply (quietBy_calmBy keeps).

Lemma kept_getItem key : calmBy keeps (getItem p key).
Proof. apply kept_awaitCall; [reflexivity | intros t; apply answers]. Qed.

Lemma kept_setItem key value : calmBy keeps (setItem p key value).
Proof. apply kept_awaitCall; [reflexivity | intros t; apply answers]. Qed.

Lemma kept_getJSON key : calmBy keeps (getJSON p key).
Proof.
  unfold getJSON. cbind; [apply kept_getItem|].
  intros [r|]; [|calmly; kret].
  destruct (truthy r); [|calmly; kret].
  destruct (jsonParse p r); [calmly; kret | apply (calmBy_throw keeps keeps_refl)].
Qed.

Lemma kept_savePairedDevices devices : quietBy keeps (savePairedDevices p devices).
Proof. ktry; [apply kept_setItem | intros e; kret]. Qed.

Lemma kept_loadPairedDevices : quietBy keeps (loadPairedDevices p).
Proof.
  ktry; [|intros e; kret].
  cbind; [apply kept_getJSON|]. intros saved. calmly. kret.
Qed.

Lemma kept_getDeviceInfo : quietBy keeps (getDeviceInfo p).
Proof. ktry; [calmly; apply kept_setDeviceInfo | intros e; kret]. Qed.

Lemma kept_checkBluetoothEnabled : quietBy keeps (checkBluetoothEnabled p).
Proof.
  ktry.
  - cbind; [apply kept_awaitCall; [reflexivity | apply answers]|].
    intros enabled. calmly.
    kbind; [apply kept_setIsBluetoothEnabled|]. intros _.
    kbind; [apply kept_setStatus|]. intros _.
    destruct enabled; simpl; [kret | apply kept_emit; reflexivity].
  - intros e. apply kept_setStatus.
Qed.

Lemma kept_requestPermissions : quietBy keeps (requestPermissions p snap).
Proof.
  unfold requestPermissions. destruct (os_android p); simpl; [|kret].
  ktry.
  - cbind; [apply kept_awaitCall; [reflexivity | intros t; apply answers]|].
    intros granted. calmly.
    kbind; [apply kept_setPermissionStatus|]. intros _.
    kbind; [|intros _; kret].
    destruct (negb _); [apply kept_emit; reflexivity | kret].
  - intros e. kbind; [apply kept_setStatus|]. intros _. kret.
Qed.

Hypothesis blind : blindToPaired view.

Lemma kept_setPairedDevices l : quietBy keeps (setPairedDevices l).
Proof.
  intros w. unfold setPairedDevices, modify, keeps.
  rewrite (blind (ui w)). rewrite <- world_eta. reflexivity.
Qed.

Lemma kept_fetchPairedDevices : quietBy keeps (fetchPairedDevices p snap).
Proof.
  ktry; [|intros e; apply kept_setStatus].
  cbind; [calmly; apply kept_requestPermissions|].
  intros granted. destruct granted; simpl.
  - cbind; [calmly; apply kept_loadPairedDevices|]. intros saved.
    cbind.
    + apply kept_awaitCall; [reflexivity|].
      intros t. apply (awaited_guarded FetchBonded _ _ _ eq_refl).
    + intros systemDevices. calmly.
      kbind; [apply kept_setPairedDevices|]. intros _.
      kbind; [apply kept_savePairedDevices|]. intros _.
      apply kept_setStatus.
  - calmly. apply kept_setStatus.
Qed.

Lemma kept_pairFirst device : quietBy keeps (pairFirst p snap device).
Proof.
  unfold pairFirst. kbind; [apply kept_setStatus|]. intros _.
  ktry.
  - cbind.
    + apply kept_awaitCall; [reflexivity|].
      intros t. apply (awaited_guarded Pairing _ _ _ eq_refl).
    + intros paired. calmly. destruct paired; simpl.
      * kbind; [apply kept_setStatus|]. intros _.
        kbind; [apply kept_fetchPairedDevices|]. intros _.
        kbind; [apply kept_savePairedDevices|]. intros _. kret.
      * kbind; [apply kept_setStatus|]. intros _. kret.
  - intros e. kbind; [apply kept_setStatus|]. intros _. kret.
Qed.

End View.

End ScreenFrames.

(* ===================================================================== *)
(** * Runs of the main screen *)
(* ===================================================================== *)

Module ScreenRuns.

Import MainScreen InitFacts ScreenFrames.

Local Open Scope async_scope.

(** ** Two views *)

(** The events about connections and listeners, latest first. *)
Definition wires (w : World) : list Event :=
  filter (fun e => negb (minor e)) (trace w).

(** What the helpers never touch: the connection, the listener, the ready
    flag, the log context, the scan state and the wire events. *)
Definition wiring (w : World) :=
  (connectedDevice (ui w), dataSubscription (ui w), isAppReady (ui w),
   logCtx (ui w), isScanning (ui w), unpairedDevices (ui w), wires w).

(** The same with the list of paired devices. *)
Definition wiringAndPaired (w : World) := (wiring w, pairedDevices (ui w)).

Lemma wires_minor u c t e :
  minor e = true -> wires (mkWorld u c (e :: t)) = wires (mkWorld u c t).
Proof. intros Mi. unfold wires. cbn [trace filter]. rewrite Mi. reflexivity. Qed.

Lemma wiring_tolerant : tolerant wiring.
Proof.
  constructor; intros; unfold wiring; cbn [ui];
    try (rewrite (wires_minor _ _ _ e) by assumption); reflexivity.
Qed.

Lemma wiringAndPaired_tolerant : tolerant wiringAndPaired.
Proof.
  constructor; intros; unfold wiringAndPaired, wiring; cbn [ui];
    try (rewrite (wires_minor _ _ _ e) by assumption); reflexivity.
Qed.

Lemma wiring_blind : blindToPaired wiring.
Proof. intros st l c t. reflexivity. Qed.

(** ** Rules *)

Lemma post_awaitCall_cases {A : Type} (e : Event) (f : nat -> Timed A) w
    (Q : Res A -> World -> Prop) :
  (forall ms a, f (calls w) = Settles ms (Resolved a) -> Q (Val a) (afterCall e w)) ->
  (forall ms err, f (calls w) = Settles ms (Rejected err) ->
     Q (Exn err) (afterCall e w)) ->
  (f (calls w) = Never -> Q Suspended (afterCall e w)) ->
  post (awaitCall e f) w Q.
Proof.
  intros K1 K2 K3. unfold post, awaitCall.
  destruct (f (calls w)) as [t [a|err]|]; simpl; eauto.
Qed.

(** What a guarded call resolves with, the binding resolved with in
    time. *)
Lemma awaited_resolved {A : Type} site ms msg (q : Timed A) t a :
  guard site = Some (ms, msg) ->
  awaited site q = Settles t (Resolved a) ->
  q = Settles t (Resolved a) /\ (t < ms)%N.
Proof.
  intros G. unfold awaited. rewrite G.
  destruct q as [tq oq|]; simpl.
  - destruct (N.ltb_spec tq ms) as [L|L]; intros E.
    + injection E as <- <-. auto.
    + discriminate.
  - discriminate.
Qed.

Lemma awaited_in_time {A : Type} site ms msg t (a : A) :
  guard site = Some (ms, msg) -> (t < ms)%N ->
  awaited site (Settles t (Resolved a)) = Settles t (Resolved a).
Proof.
  intros G L. unfold awaited. rewrite G. simpl.
  destruct (N.ltb_spec t ms); [reflexivity | lia].
Qed.

Section Runs.

Variable p : Platform.
Variable snap : State.
Hypothesis answers : responsive p.

Lemma post_requestPermissions_kept {V : Type} (view : World -> V)
    (tol : tolerant view) w (Q : Res bool -> World -> Prop) :
  (forall g w1, keeps view w w1 -> (grants p -> g = true) -> Q (Val g) w1) ->
  post (requestPermissions p snap) w Q.
Proof.
  intros K. unfold post.
  pose proof (kept_requestPermissions view tol p snap answers w) as S.
  pose proof (requestPermissions_granted p snap w) as G.
  destruct (requestPermissions p snap w) as [[g|e|] w1]; try contradiction.
  simpl in *. apply K; [exact S|]. intros H. specialize (G H). congruence.
Qed.

(** [savePairedDevices] returns, leaves the state of the screen alone and
    asks the storage to store the list. *)
Lemma post_savePairedDevices devices w (Q : Res unit -> World -> Prop) :
  (forall w1, ui w1 = ui w ->
              trace w1 = EvStorageSet (lit "pairedDevices") (jsonStringify p devices)
                         :: trace w ->
              Q (Val tt) w1) ->
  post (savePairedDevices p devices) w Q.
Proof.
  intros K. unfold post, savePairedDevices, tryCatch, setJSON, setItem, awaitCall.
  destruct answers as (_ & _ & _ & S).
  specialize (S (calls w) (lit "pairedDevices") (jsonStringify p devices)).
  destruct (asyncSetItem p (calls w) _ _) as [t [[]|err]|]; [| |contradiction];
    simpl; apply K; reflexivity.
Qed.

Definition withPaired (l : list BluetoothDevice) (w : World) : World :=
  mkWorld
    (mkState (isBluetoothEnabled (ui w)) (isScanning (ui w)) l
       (unpairedDevices (ui w)) (connectedDevice (ui w)) (status (ui w))
       (deviceInfo (ui w)) (isAppReady (ui w)) (permissionStatus (ui w))
       (dataSubscription (ui w)) (logCtx (ui w)))
    (calls w) (trace w).

Lemma post_setPairedDevices l w (Q : Res unit -> World -> Prop) :
  Q (Val tt) (withPaired l w) -> post (setPairedDevices l) w Q.
Proof. auto. Qed.

Definition foundStatus (n : nat) : str :=
  lit "Found " ++ natToString n ++ lit " paired devices.".

(** X13. When the permissions are granted and [getBondedDevices] resolves
    within ten seconds, [fetchPairedDevices] sets the list of paired
    devices to the real devices among the bonded ones, asks the storage to
    store exactly that list, and reports their number; the connection, the
    listener and the log context are as before. *)
Theorem fetch_sets_real_devices (w : World) (systemDevices : list BluetoothDevice) :
  grants p ->
  (forall t, exists ms, (ms < 10000)%N /\
     getBondedDevices p t = Settles ms (Resolved systemDevices)) ->
  let out := fetchPairedDevices p snap w in
  let real := realPairedDevices systemDevices in
  fst out = Val tt /\
  pairedDevices (ui (snd out)) = real /\
  status (ui (snd out)) = foundStatus (List.length real) /\
  In (EvStorageSet (lit "pairedDevices") (jsonStringify p real)) (trace (snd out)) /\
  wiring (snd out) = wiring w.
Proof.
  intros G B out real. subst out.
  change (post (fetchPairedDevices p snap) w
            (fun r w' =>
               r = Val tt /\
               pairedDevices (ui w') = real /\
               status (ui w') = foundStatus (List.length real) /\
               In (EvStorageSet (lit "pairedDevices") (jsonStringify p real))
                  (trace w') /\
               wiring w' = wiring w)).
  unfold fetchPairedDevices.
  apply post_tryCatch, post_bind.
  apply (post_requestPermissions_kept wiring wiring_tolerant).
  intros g w1 K1 G1. rewrite (G1 G). cbn [negb].
  apply post_bind.
  apply (post_quietBy (keeps wiring) (loadPairedDevices p) w1);
    [apply (kept_loadPairedDevices wiring wiring_tolerant p answers)|].
  intros saved w2 K2.
  apply post_bind.
  destruct (B (calls w2)) as (ms & L & E).
  apply (post_awaitCall_resolved EvGetBonded _ w2 _ ms systemDevices).
  { rewrite E. apply (awaited_in_time FetchBonded _ _ _ _ eq_refl L). }
  fold real.
  apply post_bind, post_setPairedDevices.
  apply post_bind, post_savePairedDevices. intros w3 U3 T3.
  apply post_setStatus.
  split; [reflexivity|].
  split; [cbn; rewrite U3; reflexivity|].
  split; [reflexivity|].
  split; [cbn [withStatus trace]; rewrite T3; right; left; reflexivity|].
  unfold keeps in K1, K2. rewrite <- K1, <- K2.
  unfold wiring, wires. cbn [withStatus ui trace filter minor negb].
  rewrite U3, T3. reflexivity.
Qed.

End Runs.

(** ** How [connectToDevice] ends *)

Lemma post_modify f w (Q : Res unit -> World -> Prop) :
  Q (Val tt) (mkWorld (f (ui w)) (calls w) (trace w)) -> post (modify f) w Q.
Proof. auto. Qed.

Lemma post_emit e w (Q : Res unit -> World -> Prop) :
  Q (Val tt) (mkWorld (ui w) (calls w) (e :: trace w)) -> post (emit e) w Q.
Proof. auto. Qed.

Lemma post_getState w (Q : Res State -> World -> Prop) :
  Q (Val (ui w)) w -> post getState w Q.
Proof. auto. Qed.

(** The state variables no function of the screen but the scan writes. *)
Definition others (w w' : World) : Prop :=
  isAppReady (ui w') = isAppReady (ui w) /\
  logCtx (ui w') = logCtx (ui w) /\
  isScanning (ui w') = isScanning (ui w) /\
  unpairedDevices (ui w') = unpairedDevices (ui w).

Lemma wiring_inv w w' :
  wiring w' = wiring w ->
  others w w' /\
  connectedDevice (ui w') = connectedDevice (ui w) /\
  dataSubscription (ui w') = dataSubscription (ui w) /\
  wires w' = wires w.
Proof.
  unfold wiring, others. intros E. injection E as -> -> -> -> -> -> ->.
  repeat split.
Qed.

(** [dataSubscription.remove()], when there is a subscription. *)
Definition removal (d : option BluetoothDevice) : list Event :=
  match d with
  | Some _ => [EvUnsubscribe]
  | None => []
  end.

Definition connectedStatus (device : BluetoothDevice) : str :=
  lit "Connected to " ++ nameOrAddress device ++ lit "!".

Definition connectionErrorStatus (e : JsError) : str :=
  lit "Connection error: " ++ connectionErrorMsg e.

Definition failedToast : Event := EvToast (lit "Connection failed. Please try again.").

Section Connect.

Variable p : Platform.
Variable snap : State.
Hypothesis answers : responsive p.
Variable device : BluetoothDevice.

(** The call of [pairDevice] numbered [t] confirms the pairing within
    fifteen seconds. *)
Definition pairedAt (t : nat) : Prop :=
  exists ms, pairDevice p t (address device) = Settles ms (Resolved true) /\
             (ms < 15000)%N.

(** The call of [device.connect()] numbered [t] confirms the connection
    within twenty seconds. *)
Definition connectedAt (t : nat) : Prop :=
  exists ms, connect p t device = Settles ms (Resolved true) /\ (ms < 20000)%N.

Definition storedAt (t : nat) (o : Outcome unit) : Prop :=
  exists ms,
    asyncSetItem p t (lit "lastConnectedDevice") (address device) = Settles ms o.

(** The four ways a run of [connectToDevice] from [w] ends in [w']. *)
Inductive Ending (w w' : World) : Prop :=
| NotTried :
    wiring w' = wiring w ->
    (grants p -> bonded device = false /\ exists t, ~ pairedAt t) ->
    Ending w w'
| NotConnected (t : nat) :
    others w w' ->
    connectedDevice (ui w') = connectedDevice (ui w) ->
    dataSubscription (ui w') = dataSubscription (ui w) ->
    wires w' = EvConnect device :: wires w ->
    hd_error (trace w') = Some failedToast ->
    ~ connectedAt t ->
    (bonded device = false -> exists t0, pairedAt t0) ->
    Ending w w'
| Listening (t : nat) :
    others w w' ->
    connectedDevice (ui w') = Some device ->
    dataSubscription (ui w') = Some device ->
    wires w' = EvSubscribe device :: removal (dataSubscription (ui w))
                 ++ EvConnect device :: wires w ->
    status (ui w') = connectedStatus device ->
    connectedAt t ->
    storedAt (S t) (Resolved tt) ->
    (bonded device = false -> exists t0, pairedAt t0) ->
    Ending w w'
| Deaf (t : nat) (e : JsError) :
    others w w' ->
    connectedDevice (ui w') = Some device ->
    dataSubscription (ui w') = dataSubscription (ui w) ->
    wires w' = EvConnect device :: wires w ->
    status (ui w') = connectionErrorStatus e ->
    hd_error (trace w') = Some failedToast ->
    connectedAt t ->
    storedAt (S t) (Rejected e) ->
    (bonded device = false -> exists t0, pairedAt t0) ->
    Ending w w'.

Lemma not_pairedAt_resolved t ms :
  pairDevice p t (address device) = Settles ms (Resolved false) -> ~ pairedAt t.
Proof. intros E (ms' & E' & _). congruence. Qed.

Lemma not_pairedAt_rejected t ms err :
  awaited Pairing (pairDevice p t (address device)) = Settles ms (Rejected err) ->
  ~ pairedAt t.
Proof.
  intros E (ms' & E' & L). rewrite E' in E.
  rewrite (awaited_in_time Pairing _ _ _ _ eq_refl L) in E. discriminate.
Qed.

Lemma not_connectedAt_resolved t ms :
  connect p t device = Settles ms (Resolved false) -> ~ connectedAt t.
Proof. intros E (ms' & E' & _). congruence. Qed.

Lemma not_connectedAt_rejected t ms err :
  awaited Connecting (connect p t device) = Settles ms (Rejected err) ->
  ~ connectedAt t.
Proof.
  intros E (ms' & E' & L). rewrite E' in E.
  rewrite (awaited_in_time Connecting _ _ _ _ eq_refl L) in E. discriminate.
Qed.

(** The pairing block returns; it says whether to go on, and goes on only
    after a confirmed pairing. *)
Lemma post_pairFirst w (Q : Res bool -> World -> Prop) :
  (forall proceed w1,
     wiring w1 = wiring w ->
     (proceed = true -> exists t, pairedAt t) ->
     (proceed = false -> exists t, ~ pairedAt t) ->
     Q (Val proceed) w1) ->
  post (pairFirst p snap device) w Q.
Proof.
  intros K. unfold pairFirst.
  apply post_bind, post_setStatus.
  apply post_tryCatch, post_bind, post_awaitCall_cases.
  - intros ms paired E.
    destruct (awaited_resolved Pairing _ _ _ _ _ eq_refl E) as [Ep Lp].
    destruct paired; cbn [negb].
    + apply post_bind, post_setStatus, post_bind.
      apply (post_quietBy (keeps wiring) (fetchPairedDevices p snap));
        [apply (kept_fetchPairedDevices wiring wiring_tolerant p snap answers
                  wiring_blind)|].
      intros [] w1 K1. apply post_bind.
      apply (post_quietBy (keeps wiring) (savePairedDevices p _));
        [apply (kept_savePairedDevices wiring wiring_tolerant p answers)|].
      intros [] w2 K2. apply post_ret. apply K.
      * unfold keeps in *. rewrite K2, K1. reflexivity.
      * intros _.
        exists (calls (withStatus (lit "Pairing with " ++ nameOrAddress device
                                     ++ lit "...") w)), ms. auto.
      * discriminate.
    + apply post_bind, post_setStatus, post_ret.
      apply K; [reflexivity | discriminate |].
      intros _. eexists. eapply not_pairedAt_resolved, Ep.
  - intros ms err E. apply post_bind, post_setStatus, post_ret.
    apply K; [reflexivity | discriminate |].
    intros _. eexists. eapply not_pairedAt_rejected, E.
  - intros E. exfalso. revert E. apply (awaited_guarded Pairing _ _ _ eq_refl).
Qed.

Lemma wires_status s w : wires (withStatus s w) = wires w.
Proof. reflexivity. Qed.

Lemma wiring_status s w : wiring (withStatus s w) = wiring w.
Proof. reflexivity. Qed.

(** From [device.connect()] to the end of [connectToDevice], handler
    included. *)
Ltac connect_tail w2 K2 P2 :=
  apply post_bind, post_awaitCall_cases;
  [ let ms := fresh "ms" in
    let connected := fresh "connected" in
    let E := fresh "E" in
    let Ec := fresh "Ec" in
    let Lc := fresh "Lc" in
    intros ms connected E;
    destruct (awaited_resolved Connecting _ _ _ _ _ eq_refl E) as [Ec Lc];
    destruct connected;
    [ apply post_bind, post_modify, post_bind, post_setStatus, post_bind;
      unfold setItem; apply post_awaitCall_cases;
      [ let ms' := fresh "ms" in
        let Es := fresh "Es" in
        intros ms' [] Es;
        apply post_bind, post_getState;
        cbn [ui afterCall withStatus dataSubscription];
        apply post_bind;
        destruct (wiring_inv _ _ K2) as ((R1 & R2 & R3 & R4) & C2 & D2 & W2);
        destruct (dataSubscription (ui w2)) eqn:D;
        [ apply post_bind, post_emit, post_modify
        | apply post_ret ];
        apply post_bind, post_emit, post_modify;
        (split; [reflexivity|]);
        (apply (Listening _ _ (calls w2));
        [ repeat split; assumption
        | reflexivity
        | reflexivity
        | rewrite <- D2; cbn [removal app]; rewrite <- W2; reflexivity
        | reflexivity
        | exists ms; split; assumption
        | exists ms'; exact Es
        | exact P2 ])
      | let ms' := fresh "ms" in
        let err := fresh "err" in
        let Es := fresh "Es" in
        intros ms' err Es;
        apply post_bind, post_setStatus, post_emit;
        destruct (wiring_inv _ _ K2) as ((R1 & R2 & R3 & R4) & C2 & D2 & W2);
        (split; [reflexivity|]);
        (apply (Deaf _ _ (calls w2) err);
        [ repeat split; assumption
        | reflexivity
        | exact D2
        | rewrite <- W2; reflexivity
        | reflexivity
        | reflexivity
        | exists ms; split; assumption
        | exists ms'; exact Es
        | exact P2 ])
      | let Es := fresh "Es" in
        intros Es; exfalso; revert Es; apply answers ]
    | apply post_bind, post_setStatus, post_emit;
      destruct (wiring_inv _ _ K2) as ((R1 & R2 & R3 & R4) & C2 & D2 & W2);
      (split; [reflexivity|]);
      (apply (NotConnected _ _ (calls w2));
      [ repeat split; assumption
      | exact C2
      | exact D2
      | rewrite <- W2; reflexivity
      | reflexivity
      | eapply not_connectedAt_resolved; eassumption
      | exact P2 ]) ]
  | let ms := fresh "ms" in
    let err := fresh "err" in
    let E := fresh "E" in
    intros ms err E;
    apply post_bind, post_setStatus, post_emit;
    destruct (wiring_inv _ _ K2) as ((R1 & R2 & R3 & R4) & C2 & D2 & W2);
    (split; [reflexivity|]);
    (apply (NotConnected _ _ (calls w2));
    [ repeat split; assumption
    | exact C2
    | exact D2
    | rewrite <- W2; reflexivity
    | reflexivity
    | eapply not_connectedAt_rejected; eassumption
    | exact P2 ])
  | let E := fresh "E" in
    intros E; exfalso; revert E; apply (awaited_guarded Connecting _ _ _ eq_refl) ].

(** [connectToDevice] always returns, in one of the four ways. *)
Lemma connect_ends w :
  post (connectToDevice p snap device) w (fun r w' => r = Val tt /\ Ending w w').
Proof.
  unfold connectToDevice.
  apply post_tryCatch, post_bind, post_setStatus.
  apply post_bind.
  apply (post_requestPermissions_kept p snap answers wiring wiring_tolerant).
  intros granted w1 K1 G1. unfold keeps in K1. rewrite wiring_status in K1.
  destruct granted; cbn [negb].
  2:{ apply post_setStatus. split; [reflexivity|].
      apply NotTried; [rewrite wiring_status; exact K1|].
      intros G. specialize (G1 G). discriminate. }
  apply post_bind.
  destruct (bonded device) eqn:B; cbn [negb].
  - apply post_ret. cbn [negb].
    assert (P1 : bonded device = false -> exists t0, pairedAt t0)
      by (rewrite B; discriminate).
    connect_tail w1 K1 P1.
  - apply post_pairFirst. intros proceed w2 K2 Yes No.
    rewrite K1 in K2.
    destruct proceed; cbn [negb].
    + assert (P2 : bonded device = false -> exists t0, pairedAt t0)
        by (intros _; apply Yes; reflexivity).
      connect_tail w2 K2 P2.
    + apply post_ret. split; [reflexivity|].
      apply NotTried; [exact K2|].
      intros _. split; [exact B | apply No; reflexivity].
Qed.

Lemma wiringAndPaired_inv w w' :
  wiringAndPaired w' = wiringAndPaired w ->
  wiring w' = wiring w /\ pairedDevices (ui w') = pairedDevices (ui w).
Proof.
  intros E. split; [exact (f_equal fst E) | exact (f_equal snd E)].
Qed.

(** X15. When the permissions are granted, the pairing (where the device is
    not bonded yet) and [device.connect()] are confirmed in time and the
    address can be stored, [connectToDevice] ends with the device connected
    and with exactly one new listener on it; a listener installed before is
    removed first. *)
Theorem connect_installs_one_listener (w : World) :
  grants p ->
  (bonded device = false -> forall t, pairedAt t) ->
  (forall t, connectedAt t) ->
  (forall t, storedAt t (Resolved tt)) ->
  let out := connectToDevice p snap device w in
  fst out = Val tt /\
  connectedDevice (ui (snd out)) = Some device /\
  dataSubscription (ui (snd out)) = Some device /\
  status (ui (snd out)) = connectedStatus device /\
  wires (snd out) =
    EvSubscribe device :: removal (dataSubscription (ui w))
      ++ EvConnect device :: wires w.
Proof.
  intros G Pair Conn Store out. subst out.
  destruct (connect_ends w) as [R E]. split; [exact R|].
  destruct E as [_ N | t _ _ _ _ _ N _ | t _ C D W St _ _ _
                | t e _ _ _ _ _ _ _ (ms & Es) _].
  - destruct (N G) as (B & t & N'). destruct N'. apply Pair, B.
  - destruct N. apply Conn.
  - auto.
  - destruct (Store (S t)) as (ms' & Es'). congruence.
Qed.

(** X16. When [device.connect()] is confirmed but storing the address
    fails, [connectToDevice] leaves the device shown as connected, reports a
    connection error with a toast, and installs no listener: the
    subscription is the one there was before. *)
Theorem connected_without_listener (w : World) (e : JsError) :
  grants p ->
  (bonded device = false -> forall t, pairedAt t) ->
  (forall t, connectedAt t) ->
  (forall t, storedAt t (Rejected e)) ->
  let out := connectToDevice p snap device w in
  fst out = Val tt /\
  connectedDevice (ui (snd out)) = Some device /\
  dataSubscription (ui (snd out)) = dataSubscription (ui w) /\
  wires (snd out) = EvConnect device :: wires w /\
  status (ui (snd out)) = connectionErrorStatus e /\
  hd_error (trace (snd out)) = Some failedToast.
Proof.
  intros G Pair Conn Store out. subst out.
  destruct (connect_ends w) as [R E]. split; [exact R|].
  destruct E as [_ N | t _ _ _ _ _ N _ | t _ _ _ _ _ _ (ms & Es) _
                | t e' _ C D W St T _ (ms & Es) _].
  - destruct (N G) as (B & t & N'). destruct N'. apply Pair, B.
  - destruct N. apply Conn.
  - destruct (Store (S t)) as (ms' & Es'). congruence.
  - destruct (Store (S t)) as (ms' & Es').
    assert (e' = e) by congruence. subst e'. auto.
Qed.

(** X17. Provided the platform answers the permission request and the
    storage (they are awaited without a timer), [connectToDevice] returns.
    It changes the connected device only to the device it was given, and
    only after a call of [device.connect()] resolved with [true] within
    twenty seconds (for a device that is not bonded, after [pairDevice]
    resolved with [true] within fifteen seconds as well); in every other
    case, and so whenever no call of [device.connect()] resolves with
    [true] or only after more than twenty seconds, the connected device and
    the subscription are the ones there were before, and no listener is
    installed or removed.  The ready flag, the log context and the scan
    state are never changed. *)
Theorem connected_only_when_confirmed (w : World) :
  let out := connectToDevice p snap device w in
  fst out = Val tt /\
  others w (snd out) /\
  ((connectedDevice (ui (snd out)) = connectedDevice (ui w) /\
    dataSubscription (ui (snd out)) = dataSubscription (ui w) /\
    (wires (snd out) = wires w \/ wires (snd out) = EvConnect device :: wires w))
   \/
   (connectedDevice (ui (snd out)) = Some device /\
    (exists t ms,
       connect p t device = Settles ms (Resolved true) /\ (ms <= 20000)%N) /\
    (bonded device = false ->
     exists t ms,
       pairDevice p t (address device) = Settles ms (Resolved true) /\
       (ms <= 15000)%N))) /\
  ((forall t ms, connect p t device = Settles ms (Resolved true) -> (20000 < ms)%N) ->
   connectedDevice (ui (snd out)) = connectedDevice (ui w) /\
   dataSubscription (ui (snd out)) = dataSubscription (ui w) /\
   (wires (snd out) = wires w \/ wires (snd out) = EvConnect device :: wires w)).
Proof.
  intros out. subst out.
  destruct (connect_ends w) as [R E]. split; [exact R|].
  assert (Weak : forall t, connectedAt t ->
            exists t' ms, connect p t' device = Settles ms (Resolved true) /\
                          (ms <= 20000)%N).
  { intros t (ms & Ec & L). exists t, ms. split; [exact Ec | lia]. }
  assert (WeakP : (bonded device = false -> exists t0, pairedAt t0) ->
            bonded device = false ->
            exists t ms, pairDevice p t (address device) = Settles ms (Resolved true) /\
                         (ms <= 15000)%N).
  { intros Pa B. destruct (Pa B) as (t & ms & Ep & L).
    exists t, ms. split; [exact Ep | lia]. }
  assert (Late : forall t, connectedAt t ->
            (forall t' ms, connect p t' device = Settles ms (Resolved true) ->
                           (20000 < ms)%N) -> False).
  { intros t (ms & Ec & L) H. specialize (H t ms Ec). lia. }
  destruct E as [K _ | t O C D W _ _ _ | t O C _ _ _ Ca _ Pa
                | t e O C _ _ _ _ Ca _ Pa].
  - destruct (wiring_inv _ _ K) as (O & C & D & W). split; [exact O|].
    split; [left; auto | intros _; auto].
  - split; [exact O|]. split; [left; auto | intros _; auto].
  - split; [exact O|]. split; [|intros H; destruct (Late t Ca H)].
    right. split; [exact C|]. split; [exact (Weak t Ca) | exact (WeakP Pa)].
  - split; [exact O|]. split; [|intros H; destruct (Late t Ca H)].
    right. split; [exact C|]. split; [exact (Weak t Ca) | exact (WeakP Pa)].
Qed.

(** X18. For a device that is not bonded, [device.connect()] is not called
    unless the pairing is confirmed: when every call of [pairDevice] is
    refused, fails or takes fifteen seconds or more, [connectToDevice]
    returns with the connection, the listener and the wire events as they
    were. *)
Theorem no_connect_without_pairing (w : World) :
  bonded device = false ->
  (forall t, ~ pairedAt t) ->
  let out := connectToDevice p snap device w in
  fst out = Val tt /\ wiring (snd out) = wiring w.
Proof.
  intros B Never out. subst out.
  destruct (connect_ends w) as [R E]. split; [exact R|].
  destruct E as [K _ | t _ _ _ _ _ _ Pa | t _ _ _ _ _ _ _ Pa
                | t e _ _ _ _ _ _ _ _ Pa];
    [exact K | | |]; destruct (Pa B) as (t0 & P0); destruct (Never t0 P0).
Qed.

End Connect.

(** ** Three test benches *)

Definition probe : BluetoothDevice :=
  mkDevice (Some (lit "BCA-Probe")) (lit "98:D3:31:F5:2A:10") true.

Definition stranger : BluetoothDevice :=
  mkDevice (Some (lit "BCA-New")) (lit "98:D3:31:00:11:22") false.

(** An Android 13 phone on which every permission is granted, pairing is
    confirmed after three seconds and [device.connect()] after 800 ms;
    [store] is what the storage answers when something is set. *)
Definition bench (pairing : Timed bool) (store : Outcome unit) : Platform :=
  mkPlatform true 33 (lit "Google") (lit "Pixel 7") (lit "13")
    (fun t => Settles 5 (Resolved true))
    (fun t perms => Settles 50 (Resolved (map (fun x => (x, GRANTED)) perms)))
    (fun t => Settles 20 (Resolved [probe; stranger]))
    (fun t addr => pairing)
    (fun t d => Settles 800 (Resolved true))
    (fun t key => Settles 1 (Resolved None))
    (fun t key value => Settles 1 store)
    (fun devices => lit "[]")
    (fun raw => Resolved []).

Lemma bench_responsive pairing store : responsive (bench pairing store).
Proof. repeat split; intros; discriminate. Defined.

Lemma bench_grants pairing store : grants (bench pairing store).
Proof.
  right. intros t perms. exists 50%N, (map (fun x => (x, GRANTED)) perms).
  split; [reflexivity|]. induction perms; simpl; auto.
Defined.

Definition idle : World := mkWorld initialState 0 [].

(** The screen while it listens to [stranger]. *)
Definition busy : World :=
  mkWorld
    (mkState true false [probe] [] (Some stranger) (lit "Receiving data...") None
       true [] (Some stranger) (Some LogContext.initial))
    7 [EvSubscribe stranger; EvConnect stranger].

Lemma fetch_sets_real_devices_witness :
  let out := fetchPairedDevices (bench Never (Resolved tt)) initialState idle in
  let real := realPairedDevices [probe; stranger] in
  fst out = Val tt /\
  pairedDevices (ui (snd out)) = real /\
  status (ui (snd out)) = foundStatus (List.length real) /\
  In (EvStorageSet (lit "pairedDevices")
        (jsonStringify (bench Never (Resolved tt)) real)) (trace (snd out)) /\
  wiring (snd out) = wiring idle.
Proof.
  apply (fetch_sets_real_devices (bench Never (Resolved tt)) initialState
           (bench_responsive _ _) idle [probe; stranger]).
  - apply bench_grants.
  - intros t. exists 20%N. split; reflexivity.
Defined.

Lemma connect_installs_one_listener_witness :
  let out := connectToDevice (bench Never (Resolved tt)) initialState probe busy in
  fst out = Val tt /\
  connectedDevice (ui (snd out)) = Some probe /\
  dataSubscription (ui (snd out)) = Some probe /\
  status (ui (snd out)) = connectedStatus probe /\
  wires (snd out) =
    EvSubscribe probe :: removal (dataSubscription (ui busy))
      ++ EvConnect probe :: wires busy.
Proof.
  apply (connect_installs_one_listener (bench Never (Resolved tt)) initialState
           (bench_responsive _ _) probe busy).
  - apply bench_grants.
  - discriminate.
  - intros t. exists 800%N. split; reflexivity.
  - intros t. exists 1%N. reflexivity.
Defined.

Lemma connected_without_listener_witness :
  let full := ErrorObj (lit "database or disk is full") in
  let out := connectToDevice (bench Never (Rejected full)) initialState probe idle in
  fst out = Val tt /\
  connectedDevice (ui (snd out)) = Some probe /\
  dataSubscription (ui (snd out)) = dataSubscription (ui idle) /\
  wires (snd out) = EvConnect probe :: wires idle /\
  status (ui (snd out)) = connectionErrorStatus full /\
  hd_error (trace (snd out)) = Some failedToast.
Proof.
  intros full.
  apply (connected_without_listener (bench Never (Rejected full)) initialState
           (bench_responsive _ _) probe idle full).
  - apply bench_grants.
  - discriminate.
  - intros t. exists 800%N. split; reflexivity.
  - intros t. exists 1%N. reflexivity.
Defined.

Lemma connected_only_when_confirmed_witness :
  let lab := bench (Settles 3000 (Resolved true)) (Resolved tt) in
  let out := connectToDevice lab initialState stranger idle in
  fst out = Val tt /\
  others idle (snd out) /\
  connectedDevice (ui (snd out)) = Some stranger.
Proof.
  intros lab.
  destruct (connected_only_when_confirmed lab initialState (bench_responsive _ _)
              stranger idle) as (R & O & _ & _).
  split; [exact R|]. split; [exact O|]. vm_compute. reflexivity.
Defined.

Lemma no_connect_without_pairing_witness :
  let shy := bench (Settles 2000 (Resolved false)) (Resolved tt) in
  let out := connectToDevice shy initialState stranger busy in
  fst out = Val tt /\ wiring (snd out) = wiring busy.
Proof.
  intros shy.
  apply (no_connect_without_pairing shy initialState (bench_responsive _ _)
           stranger busy).
  - reflexivity.
  - intros t (ms & E & _). discriminate.
Defined.

(** ** How [initializeApp] ends *)

(** Android asks, and every request for permissions is answered with less
    than [GRANTED] for each permission, or fails. *)
Definition refuses (p : Platform) : Prop :=
  os_android p = true /\
  forall t perms,
    (exists ms answer,
       requestMultiple p t perms = Settles ms (Resolved answer) /\
       forallb (fun kv => isGranted (snd kv)) answer = false) \/
    (exists ms e, requestMultiple p t perms = Settles ms (Rejected e)).

Definition permissionsRequiredStatus : str :=
  lit "Permissions required. Please grant Bluetooth and Location permissions.".

Definition initErrorStatus : str := lit "Error initializing app. Please restart.".

Definition withReady (w : World) : World :=
  mkWorld
    (mkState (isBluetoothEnabled (ui w)) (isScanning (ui w)) (pairedDevices (ui w))
       (unpairedDevices (ui w)) (connectedDevice (ui w)) (status (ui w))
       (deviceInfo (ui w)) true (permissionStatus (ui w))
       (dataSubscription (ui w)) (logCtx (ui w)))
    (calls w) (trace w).

Lemma post_setIsAppReady w (Q : Res unit -> World -> Prop) :
  Q (Val tt) (withReady w) -> post (setIsAppReady true) w Q.
Proof. auto. Qed.

Section Init.

Variable p : Platform.
Variable snap : State.
Hypothesis answers : responsive p.

Lemma requestPermissions_refused w :
  refuses p -> fst (requestPermissions p snap w) = Val false.
Proof.
  intros [OS R].
  change (post (requestPermissions p snap) w (fun r _ => r = Val false)).
  unfold requestPermissions. rewrite OS. cbn [negb].
  apply post_tryCatch, post_bind, post_awaitCall_cases.
  - intros ms answer E.
    destruct (R (calls w)
                ([ACCESS_FINE_LOCATION; ACCESS_COARSE_LOCATION] ++
                 (if 31 <=? platformVersion p
                  then [BLUETOOTH_SCAN; BLUETOOTH_CONNECT] else [])))
      as [(ms' & answer' & E' & No) | (ms' & e & E')]; [|congruence].
    assert (answer' = answer) by congruence. subst answer'.
    apply post_bind, post_modify, post_bind. rewrite No. cbn [negb].
    apply post_emit, post_ret. reflexivity.
  - intros ms err E. apply post_bind, post_setStatus, post_ret. reflexivity.
  - intros E. exfalso. revert E. apply answers.
Qed.

Lemma post_requestPermissions_init {V : Type} (view : World -> V)
    (tol : tolerant view) w (Q : Res bool -> World -> Prop) :
  (forall g w1, keeps view w w1 ->
                (grants p -> g = true) -> (refuses p -> g = false) ->
                Q (Val g) w1) ->
  post (requestPermissions p snap) w Q.
Proof.
  intros K. unfold post.
  pose proof (kept_requestPermissions view tol p snap answers w) as S.
  pose proof (requestPermissions_granted p snap w) as G.
  pose proof (requestPermissions_refused w) as R.
  destruct (requestPermissions p snap w) as [[g|e|] w1]; try contradiction.
  simpl in *. apply K; [exact S | |]; intros H;
    [specialize (G H) | specialize (R H)]; congruence.
Qed.

(** The first statements of [initializeApp], up to the permissions. *)
Ltac init_head g w4 K4 G4 R4 :=
  unfold initializeApp;
  apply post_tryCatch, post_bind, post_setStatus, post_bind;
  let w2 := fresh "w" in
  let K2 := fresh "K" in
  let w3 := fresh "w" in
  let K3 := fresh "K" in
  (apply (post_quietBy (keeps wiringAndPaired) (getDeviceInfo p));
   [apply (kept_getDeviceInfo wiringAndPaired wiringAndPaired_tolerant p)|]);
  intros [] w2 K2; apply post_bind;
  (apply (post_quietBy (keeps wiringAndPaired) (checkBluetoothEnabled p));
   [apply (kept_checkBluetoothEnabled wiringAndPaired wiringAndPaired_tolerant
             p answers)|]);
  intros [] w3 K3; apply post_bind;
  apply (post_requestPermissions_init wiringAndPaired wiringAndPaired_tolerant);
  intros g w4 K4 G4 R4;
  unfold keeps in *; rewrite K3, K2 in K4; clear K2 K3;
  change (wiringAndPaired (withStatus (lit "Initializing...") ?w))
    with (wiringAndPaired w) in K4;
  apply wiringAndPaired_inv in K4.

(** X19. When the permissions are refused, [initializeApp] still declares
    the app ready: it returns with [isAppReady] true and the status asking
    for permissions, after having read no paired devices and no stored
    address, and without any attempt to connect. *)
Theorem init_ready_without_permissions (w : World) :
  refuses p ->
  let out := initializeApp p snap w in
  fst out = Val tt /\
  isAppReady (ui (snd out)) = true /\
  status (ui (snd out)) = permissionsRequiredStatus /\
  pairedDevices (ui (snd out)) = pairedDevices (ui w) /\
  connectedDevice (ui (snd out)) = connectedDevice (ui w) /\
  dataSubscription (ui (snd out)) = dataSubscription (ui w) /\
  wires (snd out) = wires w.
Proof.
  intros No out. subst out.
  change (post (initializeApp p snap) w
            (fun r w' =>
               r = Val tt /\
               isAppReady (ui w') = true /\
               status (ui w') = permissionsRequiredStatus /\
               pairedDevices (ui w') = pairedDevices (ui w) /\
               connectedDevice (ui w') = connectedDevice (ui w) /\
               dataSubscription (ui w') = dataSubscription (ui w) /\
               wires w' = wires w)).
  init_head g w4 K4 G4 R4.
  rewrite (R4 No). destruct K4 as [K4 P4].
  destruct (wiring_inv _ _ K4) as (_ & C4 & D4 & W4).
  apply post_bind, post_setStatus, post_setIsAppReady.
  repeat split; assumption.
Qed.

(** X20. When the permissions are granted but the stored address cannot be
    read, [initializeApp] returns with the status asking for a restart and
    never sets [isAppReady]: an app that was not ready stays so.  Nothing is
    connected and no listener is touched. *)
Theorem init_not_ready_when_storage_fails (w : World) :
  grants p ->
  (forall t, exists ms e,
     asyncGetItem p t (lit "lastConnectedDevice") = Settles ms (Rejected e)) ->
  let out := initializeApp p snap w in
  fst out = Val tt /\
  isAppReady (ui (snd out)) = isAppReady (ui w) /\
  status (ui (snd out)) = initErrorStatus /\
  connectedDevice (ui (snd out)) = connectedDevice (ui w) /\
  dataSubscription (ui (snd out)) = dataSubscription (ui w) /\
  wires (snd out) = wires w.
Proof.
  intros G Fails out. subst out.
  change (post (initializeApp p snap) w
            (fun r w' =>
               r = Val tt /\
               isAppReady (ui w') = isAppReady (ui w) /\
               status (ui w') = initErrorStatus /\
               connectedDevice (ui w') = connectedDevice (ui w) /\
               dataSubscription (ui w') = dataSubscription (ui w) /\
               wires w' = wires w)).
  init_head g w4 K4 G4 R4.
  rewrite (G4 G). destruct K4 as [K4 _].
  apply post_bind, post_bind.
  apply (post_quietBy (keeps wiring) (fetchPairedDevices p snap));
    [apply (kept_fetchPairedDevices wiring wiring_tolerant p snap answers
              wiring_blind)|].
  intros [] w5 K5. unfold keeps in K5. rewrite K4 in K5.
  destruct (wiring_inv _ _ K5) as ((R5 & _) & C5 & D5 & W5).
  apply post_bind. unfold getItem.
  destruct (Fails (calls w5)) as (ms & e & E).
  apply post_awaitCall_cases.
  - intros ms' a E'. congruence.
  - intros ms' e' _. apply post_setStatus. repeat split; assumption.
  - intros E'. congruence.
Qed.



End Init.

(** ** When [fetchPairedDevices] leaves the list alone *)

Section FetchSafety.

Variable p : Platform.
Variable snap : State.
Hypothesis answers : responsive p.

(** How a fetch that started in [w] ends. *)
Definition fetchEnds (w : World) (r : Res unit) (w' : World) : Prop :=
  r = Val tt /\
  wiring w' = wiring w /\
  (pairedDevices (ui w') = pairedDevices (ui w) \/
   ((refuses p -> False) /\
    exists t ms systemDevices,
      getBondedDevices p t = Settles ms (Resolved systemDevices) /\
      (ms < 10000)%N /\
      pairedDevices (ui w') = realPairedDevices systemDevices)).

Lemma fetch_ends w : post (fetchPairedDevices p snap) w (fetchEnds w).
Proof.
  unfold fetchPairedDevices.
  apply post_tryCatch, post_bind.
  apply (post_requestPermissions_init p snap answers
           wiringAndPaired wiringAndPaired_tolerant).
  intros granted w1 K1 _ R1. apply wiringAndPaired_inv in K1.
  destruct K1 as [K1 P1].
  destruct granted; cbn [negb].
  2:{ apply post_setStatus. split; [reflexivity|].
      split; [rewrite wiring_status; exact K1 | left; exact P1]. }
  apply post_bind.
  apply (post_quietBy (keeps wiringAndPaired) (loadPairedDevices p) w1);
    [apply (kept_loadPairedDevices wiringAndPaired wiringAndPaired_tolerant
              p answers)|].
  intros saved w2 K2. apply wiringAndPaired_inv in K2.
  destruct K2 as [K2 P2]. rewrite K1 in K2. rewrite P1 in P2.
  apply post_bind, post_awaitCall_cases.
  - intros ms systemDevices E.
    destruct (awaited_resolved FetchBonded _ _ _ _ _ eq_refl E) as [Eb Lb].
    apply post_bind, post_setPairedDevices.
    apply post_bind, (post_savePairedDevices p answers). intros w3 U3 T3.
    apply post_setStatus. split; [reflexivity|]. split.
    + rewrite wiring_status, <- K2. unfold wiring, wires. rewrite U3, T3.
      reflexivity.
    + right. split; [intros H; specialize (R1 H); discriminate|].
      exists (calls w2), ms, systemDevices.
      split; [exact Eb|]. split; [exact Lb|].
      cbn [withStatus ui pairedDevices]. rewrite U3. reflexivity.
  - intros ms err E. apply post_setStatus. split; [reflexivity|].
    split; [rewrite wiring_status; exact K2 | left; exact P2].
  - intros E. exfalso. revert E. apply (awaited_guarded FetchBonded _ _ _ eq_refl).
Qed.

(** X14. Provided the platform answers the permission request and the
    storage (they are awaited without a timer), [fetchPairedDevices]
    returns, and never touches the connection, the listener or the log
    context.  When the permissions are refused the list of paired devices
    is the one shown before; so it is when no call of [getBondedDevices]
    resolves, or only after more than ten seconds.  In every case the list
    is either unchanged or the real devices among those a call of
    [getBondedDevices] resolved with inside ten seconds. *)
Theorem fetch_keeps_list_without_answer (w : World) :
  let out := fetchPairedDevices p snap w in
  fst out = Val tt /\
  wiring (snd out) = wiring w /\
  (refuses p -> pairedDevices (ui (snd out)) = pairedDevices (ui w)) /\
  ((forall t ms systemDevices,
      getBondedDevices p t = Settles ms (Resolved systemDevices) ->
      (10000 < ms)%N) ->
   pairedDevices (ui (snd out)) = pairedDevices (ui w)) /\
  (pairedDevices (ui (snd out)) = pairedDevices (ui w) \/
   exists t ms systemDevices,
     getBondedDevices p t = Settles ms (Resolved systemDevices) /\
     (ms <= 10000)%N /\
     pairedDevices (ui (snd out)) = realPairedDevices systemDevices).
Proof.
  intros out. subst out.
  destruct (fetch_ends w) as (R & K & E).
  split; [exact R|]. split; [exact K|].
  destruct E as [Same | (NR & t & ms & systemDevices & Eb & Lb & P)].
  - split; [intros _; exact Same|]. split; [intros _; exact Same|].
    left. exact Same.
  - split; [intros H; destruct (NR H)|]. split.
    + intros Late. specialize (Late t ms systemDevices Eb). lia.
    + right. exists t, ms, systemDevices.
      split; [exact Eb|]. split; [lia | exact P].
Qed.

End FetchSafety.

(** X14 on a phone whose [getBondedDevices] answers after twelve seconds
    while the screen listens to a device: the list shown stays. *)
Definition slowBonded : Platform :=
  mkPlatform true 33 (lit "Google") (lit "Pixel 7") (lit "13")
    (fun t => Settles 5 (Resolved true))
    (fun t perms => Settles 50 (Resolved (map (fun x => (x, GRANTED)) perms)))
    (fun t => Settles 12000 (Resolved [probe; stranger]))
    (fun t addr => Never)
    (fun t d => Never)
    (fun t key => Settles 1 (Resolved None))
    (fun t key value => Settles 1 (Resolved tt))
    (fun devices => lit "[]")
    (fun raw => Resolved []).

Lemma slowBonded_responsive : responsive slowBonded.
Proof. repeat split; intros; discriminate. Defined.

Lemma fetch_keeps_list_without_answer_witness :
  let out := fetchPairedDevices slowBonded initialState busy in
  fst out = Val tt /\
  wiring (snd out) = wiring busy /\
  pairedDevices (ui (snd out)) = pairedDevices (ui busy).
Proof.
  destruct (fetch_keeps_list_without_answer slowBonded initialState
              slowBonded_responsive busy) as (R & K & _ & Late & _).
  split; [exact R|]. split; [exact K|].
  apply Late. intros t ms systemDevices E. injection E as <- _.
  reflexivity.
Defined.


(** A phone whose permission dialog answers [answer] and whose storage
    answers [stored] when something is read; nothing answers a connection. *)
Definition desk (answer : list Permission -> PermissionStatus)
    (stored : Outcome (option str)) : Platform :=
  mkPlatform true 33 (lit "Google") (lit "Pixel 7") (lit "13")
    (fun t => Settles 5 (Resolved true))
    (fun t perms => Settles 50 (Resolved (answer perms)))
    (fun t => Settles 20 (Resolved [probe]))
    (fun t addr => Never)
    (fun t d => Never)
    (fun t key => Settles 1 stored)
    (fun t key value => Settles 1 (Resolved tt))
    (fun devices => lit "[]")
    (fun raw => Resolved []).

Definition allGranted (perms : list Permission) : PermissionStatus :=
  map (fun x => (x, GRANTED)) perms.

Definition locationDenied (perms : list Permission) : PermissionStatus :=
  (ACCESS_FINE_LOCATION, NEVER_ASK_AGAIN) :: allGranted perms.

Lemma desk_responsive answer stored : responsive (desk answer stored).
Proof. repeat split; intros; discriminate. Defined.

Lemma desk_grants stored : grants (desk allGranted stored).
Proof.
  right. intros t perms. exists 50%N, (allGranted perms).
  split; [reflexivity|]. induction perms; simpl; auto.
Defined.

Lemma init_ready_without_permissions_witness :
  let out := initializeApp (desk locationDenied (Resolved None)) initialState idle in
  fst out = Val tt /\
  isAppReady (ui (snd out)) = true /\
  status (ui (snd out)) = permissionsRequiredStatus /\
  pairedDevices (ui (snd out)) = pairedDevices (ui idle) /\
  connectedDevice (ui (snd out)) = connectedDevice (ui idle) /\
  dataSubscription (ui (snd out)) = dataSubscription (ui idle) /\
  wires (snd out) = wires idle.
Proof.
  apply (init_ready_without_permissions (desk locationDenied (Resolved None))
           initialState (desk_responsive _ _) idle).
  split; [reflexivity|].
  intros t perms. left. exists 50%N, (locationDenied perms).
  split; reflexivity.
Defined.

Lemma init_not_ready_when_storage_fails_witness :
  let broken := Rejected (ErrorObj (lit "Failed to read storage")) in
  let out := initializeApp (desk allGranted broken) initialState idle in
  fst out = Val tt /\
  isAppReady (ui (snd out)) = isAppReady (ui idle) /\
  status (ui (snd out)) = initErrorStatus /\
  connectedDevice (ui (snd out)) = connectedDevice (ui idle) /\
  dataSubscription (ui (snd out)) = dataSubscription (ui idle) /\
  wires (snd out) = wires idle.
Proof.
  intros broken.
  apply (init_not_ready_when_storage_fails (desk allGranted broken)
           initialState (desk_responsive _ _) idle).
  - apply desk_grants.
  - intros t. exists 1%N, (ErrorObj (lit "Failed to read storage")). reflexivity.
Defined.


End ScreenRuns.

(* ===================================================================== *)
(** * What [fetchPairedDevices] keeps *)
(* ===================================================================== *)

Module FetchFilter.

Import MainScreen MainScreenFacts InitFacts ScreenFrames ScreenRuns.

Local Open Scope async_scope.

(** ** Computations that may stay suspended *)

Section Relation.

Variable R : World -> World -> Prop.
Hypothesis R_refl : forall w, R w w.
Hypothesis R_trans : forall w1 w2 w3, R w1 w2 -> R w2 w3 -> R w1 w3.







End Relation.

(** ** Before and after the bonded devices are read *)

(** The list of paired devices is the same and [getBondedDevices] has not
    been called in between. *)
Definition unread (w w' : World) : Prop :=
  pairedDevices (ui w') = pairedDevices (ui w) /\
  exists added, trace w' = added ++ trace w /\ ~ In EvGetBonded added.



(** The list of paired devices is the same. *)
Definition samePaired (w w' : World) : Prop :=
  pairedDevices (ui w') = pairedDevices (ui w).

Lemma samePaired_refl w : samePaired w w.
Proof. reflexivity. Qed.


Lemma unread_samePaired w w' : unread w w' -> samePaired w w'.
Proof. intros [P _]. exact P. Qed.






Section Fetch.

Variable p : Platform.
Variable snap : State.






End Fetch.


End FetchFilter.

(* ===================================================================== *)
(** * Scanning, disconnecting and removing *)
(* ===================================================================== *)

Module ActionFacts.

Import MainScreen ScreenActions InitFacts ScreenFrames ScreenRuns.

Local Open Scope async_scope.

(** ** The filter of the scan *)

(** Both devices have a name, it is the same and it is not empty. *)
Definition shareName (q d : BluetoothDevice) : Prop :=
  exists n, name q = Some n /\ name d = Some n /\ n <> [].

Lemma sameName_true q d : sameName q d = true <-> shareName q d.
Proof.
  unfold sameName, shareName.
  destruct (name q) as [a|], (name d) as [b|].
  - rewrite !andb_true_iff, eqs_true. split.
    + intros [[Ta _] ->]. exists b. repeat split.
      intros ->. discriminate.
    + intros (n & E1 & E2 & Ne). injection E1 as ->. injection E2 as ->.
      destruct n; [contradiction|]. auto.
  - split; [discriminate | intros (n & _ & E & _); discriminate].
  - split; [discriminate | intros (n & E & _); discriminate].
  - split; [discriminate | intros (n & E & _); discriminate].
Qed.

(** X22. The scan lists a discovered device as unpaired exactly when no
    device of the paired list has its address, nor shares a non-empty name
    with it; the devices listed keep the order of the discovery. *)
Theorem unpairedOnly_spec (paired discovered : list BluetoothDevice)
    (d : BluetoothDevice) :
  (In d (unpairedOnly paired discovered) <->
   In d discovered /\
   forall q, In q paired -> address q <> address d /\ ~ shareName q d) /\
  (paired = [] -> unpairedOnly paired discovered = discovered) /\
  unpairedOnly paired (unpairedOnly paired discovered)
    = unpairedOnly paired discovered.
Proof.
  split; [|split].
  - unfold unpairedOnly. rewrite filter_In, negb_true_iff.
    split; intros [I H]; (split; [exact I|]).
    + intros q Iq. split.
      * intros E. apply eqs_true in E.
        assert (X : existsb (fun p => eqs (address p) (address d) || sameName p d)
                      paired = true)
          by (apply existsb_exists; exists q; rewrite E; auto).
        congruence.
      * intros E. apply sameName_true in E.
        assert (X : existsb (fun p => eqs (address p) (address d) || sameName p d)
                      paired = true)
          by (apply existsb_exists; exists q; rewrite E, orb_true_r; auto).
        congruence.
    + destruct (existsb _ paired) eqn:X; [|reflexivity].
      apply existsb_exists in X. destruct X as (q & Iq & X).
      destruct (H q Iq) as [Na Nn]. apply orb_true_iff in X.
      destruct X as [X | X];
        [apply eqs_true in X; contradiction
        | apply sameName_true in X; contradiction].
  - intros ->. unfold unpairedOnly. simpl.
    induction discovered as [|x l IH]; simpl; [reflexivity | rewrite IH; reflexivity].
  - unfold unpairedOnly.
    induction discovered as [|x l IH]; simpl; [reflexivity|].
    destruct (negb _) eqn:X; simpl; [rewrite X, IH | rewrite IH]; reflexivity.
Qed.

(** ** Views the scan keeps *)

(** A view that sees neither the scanning flag nor the list of unpaired
    devices. *)
Definition blindToScan {V : Type} (view : World -> V) : Prop :=
  forall st b l c t,
    view (mkWorld
            (mkState (isBluetoothEnabled st) b (pairedDevices st)
               l (connectedDevice st) (status st) (deviceInfo st)
               (isAppReady st) (permissionStatus st) (dataSubscription st)
               (logCtx st)) c t)
    = view (mkWorld st c t).

(** The connection, the listener, the ready flag, the log context and the
    wire events. *)
Definition core (w : World) :=
  (connectedDevice (ui w), dataSubscription (ui w), isAppReady (ui w),
   logCtx (ui w), wires w).

Definition link (w : World) := (core w, pairedDevices (ui w)).

Lemma core_tolerant : tolerant core.
Proof.
  constructor; intros; unfold core; cbn [ui];
    try (rewrite (wires_minor _ _ _ e) by assumption); reflexivity.
Qed.

Lemma link_tolerant : tolerant link.
Proof.
  constructor; intros; unfold link, core; cbn [ui];
    try (rewrite (wires_minor _ _ _ e) by assumption); reflexivity.
Qed.

Lemma core_blind : blindToPaired core.
Proof. intros st l c t. reflexivity. Qed.

Lemma core_blindToScan : blindToScan core.
Proof. intros st b l c t. reflexivity. Qed.

Lemma link_blindToScan : blindToScan link.
Proof. intros st b l c t. reflexivity. Qed.

Lemma link_inv w w' :
  link w' = link w ->
  connectedDevice (ui w') = connectedDevice (ui w) /\
  dataSubscription (ui w') = dataSubscription (ui w) /\
  isAppReady (ui w') = isAppReady (ui w) /\
  logCtx (ui w') = logCtx (ui w) /\
  wires w' = wires w /\
  pairedDevices (ui w') = pairedDevices (ui w).
Proof.
  unfold link, core. intros E. injection E as -> -> -> -> -> ->. repeat split.
Qed.

(** ** Rules for the new statements *)

Section Relation.

Variable R : World -> World -> Prop.
Hypothesis R_trans : forall w1 w2 w3, R w1 w2 -> R w2 w3 -> R w1 w3.

Lemma quietBy_tryFinally {A : Type} (body : M A) (final : M unit) :
  quietBy R body -> quietBy R final -> quietBy R (tryFinally body final).
Proof.
  intros Qb Qf w. unfold tryFinally. specialize (Qb w).
  destruct (body w) as [[a|e|] w1]; try contradiction.
  specialize (Qf w1). destruct (final w1) as [[[]|e|] w2]; try contradiction.
  eapply R_trans; eauto.
Qed.

End Relation.

Lemma quietBy_mono (R R' : World -> World -> Prop) {A : Type} (m : M A) :
  (forall w w', R w w' -> R' w w') -> quietBy R m -> quietBy R' m.
Proof.
  intros Sub Q w. specialize (Q w).
  destruct (m w) as [[a|e|] w1]; try contradiction. apply Sub, Q.
Qed.

Lemma calmBy_mono (R R' : World -> World -> Prop) {A : Type} (m : M A) :
  (forall w w', R w w' -> R' w w') -> calmBy R m -> calmBy R' m.
Proof.
  intros Sub Q w. specialize (Q w).
  destruct (m w) as [[a|e|] w1]; try contradiction; apply Sub, Q.
Qed.

Lemma post_tryFinally {A : Type} (body : M A) (final : M unit) w
    (Q : Res A -> World -> Prop) :
  post body w
    (fun r w1 =>
       match r with
       | Suspended => Q Suspended w1
       | _ =>
           post final w1
             (fun r' w2 =>
                match r' with
                | Val _ => Q r w2
                | Exn e => Q (Exn e) w2
                | Suspended => Q Suspended w2
                end)
       end) ->
  post (tryFinally body final) w Q.
Proof.
  unfold post, tryFinally.
  destruct (body w) as [[a|e|] w1]; simpl; auto;
    destruct (final w1) as [[[]|e'|] w2]; simpl; auto.
Qed.

Definition afterRadio (w : World) : World := mkWorld (ui w) (S (calls w)) (trace w).

Lemma post_awaitRadio_cases {A : Type} (q : nat -> Timed A) w
    (Q : Res A -> World -> Prop) :
  (forall ms a, q (calls w) = Settles ms (Resolved a) -> Q (Val a) (afterRadio w)) ->
  (forall ms err, q (calls w) = Settles ms (Rejected err) ->
     Q (Exn err) (afterRadio w)) ->
  (q (calls w) = Never -> Q Suspended (afterRadio w)) ->
  post (awaitRadio q) w Q.
Proof.
  intros K1 K2 K3. unfold post, awaitRadio.
  destruct (q (calls w)) as [t [a|err]|]; simpl; eauto.
Qed.

Section View.

Context {V : Type} (view : World -> V).
Hypothesis tol : tolerant view.
Hypothesis scanBlind : blindToScan view.

Lemma tol_counter u c t : view (mkWorld u (S c) t) = view (mkWorld u c t).
Proof.
  rewrite <- (tol_event view tol u c t (EvStatus []) eq_refl).
  rewrite (tol_emit view tol u (S c) t (EvStatus []) eq_refl). reflexivity.
Qed.

Lemma kept_awaitRadio {A : Type} (q : nat -> Timed A) :
  (forall t, q t <> Never) -> calmBy (keeps view) (awaitRadio q).
Proof.
  intros S w. unfold awaitRadio. specialize (S (calls w)).
  destruct (q (calls w)) as [t [a|err]|]; simpl; try contradiction;
    unfold keeps; rewrite tol_counter, <- world_eta; reflexivity.
Qed.

Lemma kept_setIsScanning b : quietBy (keeps view) (setIsScanning b).
Proof.
  intros w. unfold setIsScanning, modify, keeps.
  rewrite (scanBlind (ui w) b (unpairedDevices (ui w)) (calls w) (trace w)).
  rewrite <- world_eta. reflexivity.
Qed.

Lemma kept_setUnpairedDevices l : quietBy (keeps view) (setUnpairedDevices l).
Proof.
  intros w. unfold setUnpairedDevices, modify, keeps.
  rewrite (scanBlind (ui w) (isScanning (ui w)) l (calls w) (trace w)).
  rewrite <- world_eta. reflexivity.
Qed.

End View.

(** ** The scan *)

(** One of the three guards of [scanForDevices] stops it. *)
Definition blocked (snap : State) : Prop :=
  isBluetoothEnabled snap = false \/
  isAppReady snap = false \/
  isScanning snap = true.

Section Scan.

Variable p : Platform.
Variable r : Radio.
Variable snap : State.
Hypothesis answers : responsive p.

Ltac kbind := apply (quietBy_bind (keeps link) (keeps_trans link)).
Ltac cbind := apply (calmBy_bind (keeps link) (keeps_trans link)).
Ltac calmly := apply (quietBy_calmBy (keeps link)).
Ltac kstatus := apply (kept_setStatus link link_tolerant).

(** The [try] and [catch] blocks of the scan return and keep [link]. *)
Lemma scan_passed w :
  (forall t, cancelDiscovery r t <> Never) ->
  isBluetoothEnabled snap = true -> isAppReady snap = true ->
  isScanning snap = false ->
  post (scanForDevices p r snap) w
    (fun res w' =>
       res = Val tt /\ link w' = link w /\ isScanning (ui w') = false).
Proof.
  intros Cancel B A S. unfold scanForDevices. rewrite B, A, S. cbn [negb].
  apply post_bind, post_modify, post_bind, post_modify, post_bind, post_setStatus.
  apply post_tryFinally.
  apply (post_quietBy (keeps link)).
  - apply (quietBy_tryCatch (keeps link) (keeps_trans link));
      [|intros e; kstatus].
    cbind; [apply (kept_awaitRadio link link_tolerant); exact Cancel|].
    intros _.
    cbind; [calmly; apply (kept_requestPermissions link link_tolerant p snap answers)|].
    intros granted. destruct granted; cbn [negb].
    + cbind.
      { apply (kept_awaitCall link link_tolerant); [reflexivity|].
        intros t. apply answers. }
      intros still. destruct still; cbn [negb].
      * cbind; [calmly; kstatus|]. intros _.
        cbind.
        { apply (kept_awaitRadio link link_tolerant).
          intros t. apply (awaited_guarded ScanDiscovery _ _ _ eq_refl). }
        intros [found|]; calmly; [|kstatus].
        kbind; [apply (kept_setUnpairedDevices link link_blindToScan)|].
        intros _. kstatus.
      * calmly. kbind; [kstatus|]. intros _.
        apply (kept_setIsScanning link link_blindToScan).
    + calmly. kbind; [kstatus|]. intros _.
      apply (kept_setIsScanning link link_blindToScan).
  - intros [] w1 K1. apply post_modify.
    split; [reflexivity|]. split; [|reflexivity].
    unfold keeps in K1.
    transitivity (link w1); [reflexivity | rewrite K1; reflexivity].
Qed.

(** X23. [scanForDevices] always returns, and after a scan that passed the
    three guards [isScanning] is false again, whether the permissions were
    refused, Bluetooth was switched off, the discovery failed, or it took
    thirty seconds; a scan stopped by a guard calls nothing and leaves the
    scanning flag and the list of unpaired devices alone.  In no case does
    the scan touch the connection, the listener, the log context or the
    paired devices.  The platform is assumed to answer [cancelDiscovery]
    and the calls awaited without a timer. *)
Theorem scan_always_ends (w : World) :
  (forall t, cancelDiscovery r t <> Never) ->
  let out := scanForDevices p r snap w in
  fst out = Val tt /\
  link (snd out) = link w /\
  (blocked snap ->
   calls (snd out) = calls w /\
   isScanning (ui (snd out)) = isScanning (ui w) /\
   unpairedDevices (ui (snd out)) = unpairedDevices (ui w)) /\
  (~ blocked snap -> isScanning (ui (snd out)) = false).
Proof.
  intros Cancel out. subst out.
  destruct (isBluetoothEnabled snap) eqn:B;
    [destruct (isAppReady snap) eqn:A; [destruct (isScanning snap) eqn:S|]|].
  - unfold scanForDevices. rewrite B, A, S. cbn.
    repeat split. intros N. destruct N. right. right. exact S.
  - destruct (scan_passed w Cancel B A S) as (R & K & F).
    split; [exact R|]. split; [exact K|]. split; [|intros _; exact F].
    intros [X | [X | X]]; congruence.
  - unfold scanForDevices. rewrite B, A. cbn.
    repeat split. intros N. destruct N. right. left. exact A.
  - unfold scanForDevices. rewrite B. cbn.
    repeat split. intros N. destruct N. left. exact B.
Qed.


End Scan.

(** The radio answers every call that is awaited without a timer. *)
Definition attentive (r : Radio) : Prop :=
  (forall t, cancelDiscovery r t <> Never) /\
  (forall t d, disconnect r t d <> Never) /\
  (forall t a, unpairDevice r t a <> Never).

Section Kept.

Variable p : Platform.
Variable r : Radio.
Variable snap : State.
Hypothesis answers : responsive p.
Hypothesis listens : attentive r.

Lemma kept_scanForDevices : quietBy (keeps link) (scanForDevices p r snap).
Proof.
  intros w.
  destruct (isBluetoothEnabled snap) eqn:B;
    [destruct (isAppReady snap) eqn:A; [destruct (isScanning snap) eqn:S|]|].
  - unfold scanForDevices. rewrite B, A, S. reflexivity.
  - pose proof (scan_passed p r snap answers w (proj1 listens) B A S) as H.
    unfold post in H. destruct H as (R & K & _).
    destruct (scanForDevices p r snap w) as [res w']. simpl in *.
    subst res. exact K.
  - unfold scanForDevices. rewrite B, A. reflexivity.
  - unfold scanForDevices. rewrite B. reflexivity.
Qed.

Lemma kept_stopScanning : quietBy (keeps link) (stopScanning r).
Proof.
  apply (quietBy_tryCatch (keeps link) (keeps_trans link));
    [|intros e; apply (quietBy_ret (keeps link) (keeps_refl link))].
  apply (calmBy_bind (keeps link) (keeps_trans link)).
  - apply (kept_awaitRadio link link_tolerant). apply listens.
  - intros _. apply (quietBy_calmBy (keeps link)).
    apply (quietBy_bind (keeps link) (keeps_trans link));
      [apply (kept_setIsScanning link link_blindToScan)|].
    intros _. apply (kept_setStatus link link_tolerant).
Qed.

End Kept.

(** ** Disconnecting *)

Section Disconnect.

Variable r : Radio.
Variable snap : State.
Hypothesis listens : attentive r.

(** The two ways [disconnectDevice] ends when the render has a connected
    device [d]. *)
Inductive Unplugged (d : BluetoothDevice) (w w' : World) : Prop :=
| Gone (t : nat) :
    (exists ms b, disconnect r t d = Settles ms (Resolved b)) ->
    connectedDevice (ui w') = None ->
    dataSubscription (ui w') = None ->
    wires w' = removal (dataSubscription (ui w)) ++ wires w ->
    status (ui w') = lit "Disconnected." ->
    Unplugged d w w'
| Held (t : nat) :
    (exists ms e, disconnect r t d = Settles ms (Rejected e)) ->
    connectedDevice (ui w') = connectedDevice (ui w) ->
    dataSubscription (ui w') = dataSubscription (ui w) ->
    wires w' = wires w ->
    status (ui w') = lit "Error disconnecting." ->
    Unplugged d w w'.

Definition disconnected (w : World) (res : Res unit) (w' : World) : Prop :=
  res = Val tt /\
  others w w' /\
  pairedDevices (ui w') = pairedDevices (ui w) /\
  match connectedDevice snap with
  | None => w' = w
  | Some d => Unplugged d w w'
  end.

Lemma disconnect_ends w : post (disconnectDevice r snap) w (disconnected w).
Proof.
  unfold disconnectDevice, disconnected.
  destruct (connectedDevice snap) as [d|].
  2:{ apply post_ret. repeat split. }
  apply post_tryCatch, post_bind, post_awaitRadio_cases.
  - intros ms b E. apply post_bind, post_modify, post_bind, post_getState.
    cbn [ui afterRadio dataSubscription]. apply post_bind.
    destruct (dataSubscription (ui w)) eqn:D;
      [apply post_bind, post_emit, post_modify | apply post_ret];
      apply post_setStatus;
      (split; [reflexivity|]); (split; [repeat split|]);
      (split; [reflexivity|]);
      apply (Gone _ _ _ (calls w)); try reflexivity;
      try (exists ms, b; exact E);
      unfold wires; cbn; rewrite ?D; reflexivity.
  - intros ms err E. apply post_setStatus.
    split; [reflexivity|]. split; [repeat split|]. split; [reflexivity|].
    apply (Held _ _ _ (calls w)); try reflexivity. exists ms, err. exact E.
  - intros E. exfalso. revert E. apply listens.
Qed.

(** X25. [disconnectDevice] returns.  Without a connected device in the
    render it does nothing at all.  With one, either [disconnect()]
    resolved, and then no device is connected, no subscription is left, the
    listener there was has been removed and the status is [Disconnected.];
    or it was rejected, and then the connected device, the subscription and
    the listener are as before and the status is [Error disconnecting.].
    The radio is assumed to answer. *)
Theorem disconnect_clears_or_keeps (w : World) :
  let out := disconnectDevice r snap w in
  fst out = Val tt /\
  others w (snd out) /\
  pairedDevices (ui (snd out)) = pairedDevices (ui w) /\
  match connectedDevice snap with
  | None => snd out = w
  | Some d => Unplugged d w (snd out)
  end.
Proof. exact (disconnect_ends w). Qed.

End Disconnect.

(** ** One listener at most *)

(** The listeners installed and not removed since, counted over a trace
    (latest event first).  Every [remove()] of the screen is called on
    [dataSubscription], which holds the subscription created last, and
    removing a subscription twice does nothing more: [removed] tells whether
    the subscription met next has been removed. *)
Fixpoint live (removed : bool) (tr : list Event) : nat :=
  match tr with
  | [] => 0
  | EvUnsubscribe :: older => live true older
  | EvSubscribe _ :: older => (if removed then 0 else 1) + live false older
  | _ :: older => live removed older
  end.

(** Every subscription but the last has been removed; without a
    [dataSubscription] the last has been removed as well; and, when
    [exact], a [dataSubscription] is a listener that is installed. *)
Definition tracked (exact : bool) (w : World) : Prop :=
  live true (trace w) = 0 /\
  (dataSubscription (ui w) = None -> live false (trace w) = 0) /\
  (exact = true -> dataSubscription (ui w) <> None -> live false (trace w) = 1).

Lemma live_wires b w : live b (wires w) = live b (trace w).
Proof.
  unfold wires. revert b. induction (trace w) as [|e t IH]; intros b; [reflexivity|].
  destruct e; cbn [filter minor negb live]; rewrite ?IH; reflexivity.
Qed.

Lemma live_bounds tr : live false tr <= live true tr + 1.
Proof.
  induction tr as [|e t IH]; [cbn; lia|].
  destruct e; cbn [live]; lia.
Qed.

Lemma tracked_weaken exact w : tracked true w -> tracked exact w.
Proof. intros (A & B & C). repeat split; auto. Qed.

Definition follows (exact : bool) (w w' : World) : Prop :=
  tracked exact w -> tracked exact w'.

Lemma follows_refl exact w : follows exact w w.
Proof. intros T. exact T. Qed.

Lemma follows_trans exact w1 w2 w3 :
  follows exact w1 w2 -> follows exact w2 w3 -> follows exact w1 w3.
Proof. unfold follows. auto. Qed.

Lemma follows_plug exact w w' :
  dataSubscription (ui w') = dataSubscription (ui w) ->
  (forall b, live b (wires w') = live b (wires w)) ->
  follows exact w w'.
Proof.
  intros D W (A & B & C). unfold tracked.
  rewrite D, <- !live_wires, !W, !live_wires. auto.
Qed.

Lemma core_follows exact w w' : keeps core w w' -> follows exact w w'.
Proof.
  unfold keeps, core. intros E. injection E as _ D _ _ W.
  apply follows_plug; [exact D | intros b; rewrite W; reflexivity].
Qed.

Lemma link_follows exact w w' : keeps link w w' -> follows exact w w'.
Proof.
  intros E. apply core_follows. exact (f_equal fst E).
Qed.

Lemma wiring_follows exact w w' : wiring w' = wiring w -> follows exact w w'.
Proof.
  intros E. destruct (wiring_inv _ _ E) as (_ & _ & D & W).
  apply follows_plug; [exact D | intros b; rewrite W; reflexivity].
Qed.

(** A new listener, after the removal of the one [dataSubscription] held. *)
Lemma tracked_subscribed exact w w' device :
  dataSubscription (ui w') = Some device ->
  wires w' = EvSubscribe device :: removal (dataSubscription (ui w))
               ++ EvConnect device :: wires w ->
  follows exact w w'.
Proof.
  intros D W (A & B & C). unfold tracked.
  rewrite D, <- !live_wires, W. rewrite <- !live_wires in A, B.
  assert (Z : live false (removal (dataSubscription (ui w))
                            ++ EvConnect device :: wires w) = 0).
  { destruct (dataSubscription (ui w)); cbn [removal app live];
      [exact A | apply B; reflexivity]. }
  cbn [live]. rewrite Z. repeat split; discriminate.
Qed.

(** The subscription is dropped, after the removal of its listener. *)
Lemma tracked_unsubscribed exact w w' :
  dataSubscription (ui w') = None ->
  wires w' = removal (dataSubscription (ui w)) ++ wires w ->
  follows exact w w'.
Proof.
  intros D W (A & B & C). unfold tracked.
  rewrite D, <- !live_wires, W. rewrite <- !live_wires in A, B.
  destruct (dataSubscription (ui w)); cbn [removal app live].
  - repeat split; auto. intros _ N. destruct N. reflexivity.
  - repeat split; auto. intros _ N. destruct N. reflexivity.
Qed.

(** [initializeApp] returns and respects every relation that
    [connectToDevice] respects, when the relation cannot see what [core]
    does not see, nor the ready flag. *)
Section InitBy.

Variable R : World -> World -> Prop.
Hypothesis R_refl : forall w, R w w.
Hypothesis R_trans : forall w1 w2 w3, R w1 w2 -> R w2 w3 -> R w1 w3.
Hypothesis core_R : forall w w', keeps core w w' -> R w w'.

Variable p : Platform.
Variable snap : State.
Hypothesis answers : responsive p.
Hypothesis bondedAnswers : forall t, getBondedDevices p t <> Never.
Hypothesis ready_R : quietBy R (setIsAppReady true).
Hypothesis connect_R : forall device, quietBy R (connectToDevice p snap device).

Ltac rbind := apply (quietBy_bind R R_trans).
Ltac rcbind := apply (calmBy_bind R R_trans).
Ltac rcalmly := apply (quietBy_calmBy R).
Ltac rret := apply (quietBy_ret R R_refl).
Ltac rcore := apply (quietBy_mono (keeps core) R _ core_R).
Ltac rstatus := rcore; apply (kept_setStatus core core_tolerant).

Lemma init_by : quietBy R (initializeApp p snap).
Proof.
  unfold initializeApp.
  apply (quietBy_tryCatch R R_trans); [|intros e; rstatus].
  rcbind; [rcalmly; rstatus|]. intros _.
  rcbind; [rcalmly; rcore; apply (kept_getDeviceInfo core core_tolerant)|]. intros _.
  rcbind; [rcalmly; rcore;
           apply (kept_checkBluetoothEnabled core core_tolerant p answers)|].
  intros _.
  rcbind; [rcalmly; rcore;
           apply (kept_requestPermissions core core_tolerant p snap answers)|].
  intros granted.
  rcbind; [|intros _; rcalmly; apply ready_R].
  destruct granted; [|rcalmly; rstatus].
  rcbind.
  { rcalmly. rcore.
    apply (kept_fetchPairedDevices core core_tolerant p snap answers core_blind). }
  intros _.
  rcbind.
  { apply (calmBy_mono (keeps core) R _ core_R).
    apply (kept_getItem core core_tolerant p answers). }
  intros lastAddress.
  rcbind; [|intros _; rcalmly; rstatus].
  destruct lastAddress as [a|]; [|rcalmly; rret].
  destruct (truthy a); [|rcalmly; rret].
  rcbind.
  { apply (calmBy_mono (keeps core) R _ core_R).
    apply (kept_awaitCall core core_tolerant); [reflexivity | exact bondedAnswers]. }
  intros paired. rcalmly.
  destruct (findByAddress a paired) as [device|]; [|rret].
  apply (quietBy_tryCatch R R_trans); [|intros e; rret].
  rcalmly. rbind; [rstatus|]. intros _. apply connect_R.
Qed.

End InitBy.

Section Follow.

Variable p : Platform.
Variable r : Radio.
Hypothesis answers : responsive p.
Hypothesis listens : attentive r.
Hypothesis bondedAnswers : forall t, getBondedDevices p t <> Never.
Variable exact : bool.

Ltac fbind := apply (quietBy_bind (follows exact) (follows_trans exact)).
Ltac fcbind := apply (calmBy_bind (follows exact) (follows_trans exact)).
Ltac fcalmly := apply (quietBy_calmBy (follows exact)).
Ltac fret := apply (quietBy_ret (follows exact) (follows_refl exact)).
Ltac fcore :=
  apply (quietBy_mono (keeps core) (follows exact) _ (core_follows exact)).
Ltac fstatus := fcore; apply (kept_setStatus core core_tolerant).

Lemma follow_setIsAppReady b : quietBy (follows exact) (setIsAppReady b).
Proof. intros w T. exact T. Qed.

Lemma follow_setLogCtx c : quietBy (follows exact) (setLogCtx c).
Proof. intros w T. exact T. Qed.

Lemma follow_connect snap device :
  quietBy (follows exact) (connectToDevice p snap device).
Proof.
  intros w. pose proof (connect_ends p snap answers device w) as H.
  unfold post in H. destruct (connectToDevice p snap device w) as [res w'].
  simpl in H. destruct H as [-> E].
  destruct E as [K _ | t _ _ D W _ _ _ | t _ _ D W _ _ _ _
                | t e _ _ D W _ _ _ _ _].
  - apply wiring_follows, K.
  - apply follows_plug; [exact D | intros b; rewrite W; reflexivity].
  - apply (tracked_subscribed exact w w' device D W).
  - apply follows_plug; [exact D | intros b; rewrite W; reflexivity].
Qed.

Lemma follow_disconnect snap : quietBy (follows exact) (disconnectDevice r snap).
Proof.
  intros w. pose proof (disconnect_ends r snap listens w) as H.
  unfold post, disconnected in H. destruct (disconnectDevice r snap w) as [res w'].
  simpl in H. destruct H as (-> & _ & _ & E).
  destruct (connectedDevice snap) as [d|]; [|subst w'; apply follows_refl].
  destruct E as [t _ _ D W _ | t _ _ D W _].
  - apply (tracked_unsubscribed exact w w' D W).
  - apply follows_plug; [exact D | intros b; rewrite W; reflexivity].
Qed.

Lemma follow_fetch snap : quietBy (follows exact) (fetchPairedDevices p snap).
Proof.
  fcore. apply (kept_fetchPairedDevices core core_tolerant p snap answers core_blind).
Qed.

Lemma follow_init snap : quietBy (follows exact) (initializeApp p snap).
Proof.
  apply (init_by (follows exact) (follows_refl exact) (follows_trans exact)
           (core_follows exact) p snap answers bondedAnswers).
  - apply follow_setIsAppReady.
  - intros device. apply follow_connect.
Qed.

Lemma follow_scan snap : quietBy (follows exact) (scanForDevices p r snap).
Proof.
  apply (quietBy_mono (keeps link) (follows exact) _ (link_follows exact)).
  apply (kept_scanForDevices p r snap answers listens).
Qed.

Lemma follow_stop : quietBy (follows exact) (stopScanning r).
Proof.
  apply (quietBy_mono (keeps link) (follows exact) _ (link_follows exact)).
  apply (kept_stopScanning r listens).
Qed.

Lemma follow_remove snap device :
  quietBy (follows exact) (removePairedDevice p r snap device).
Proof.
  unfold removePairedDevice.
  apply (quietBy_tryCatch (follows exact) (follows_trans exact));
    [|intros e; fstatus].
  fcbind; [fcalmly; fstatus|]. intros _.
  fcbind; [fcalmly; fcore;
           apply (kept_requestPermissions core core_tolerant p snap answers)|].
  intros granted. destruct granted; cbn [negb]; [|fcalmly; fstatus].
  fcbind.
  { fcalmly. destruct (connectedDevice snap) as [c|]; [|fret].
    destruct (eqs (address c) (address device)); [apply follow_disconnect | fret]. }
  intros _.
  fcbind.
  { apply (calmBy_mono (keeps core) (follows exact) _ (core_follows exact)).
    apply (kept_awaitRadio core core_tolerant). intros t. apply listens. }
  intros removed. fcalmly. destruct removed; [|fstatus].
  fbind; [fcore; apply (kept_setPairedDevices core core_blind)|]. intros _.
  fbind; [fcore; apply (kept_savePairedDevices core core_tolerant p answers)|].
  intros _. fstatus.
Qed.

Lemma follow_data now payload :
  quietBy (follows exact) (onDataReceived now payload).
Proof.
  unfold onDataReceived.
  fbind; [fstatus|]. intros _.
  fbind; [intros w; apply follows_refl|]. intros st.
  destruct (logCtx st); [apply follow_setLogCtx | fret].
Qed.

End Follow.

Lemma effectCleanup_run w :
  effectCleanup w =
  (Val tt, match dataSubscription (ui w) with
           | Some _ => mkWorld (ui w) (calls w) (EvUnsubscribe :: trace w)
           | None => w
           end).
Proof.
  unfold effectCleanup, bind, getState.
  destruct (dataSubscription (ui w)); reflexivity.
Qed.

(** The cleanup removes the listener and keeps the subscription: what was
    [exact] before is not after it. *)
Lemma follow_cleanup : quietBy (follows false) effectCleanup.
Proof.
  intros w. unfold effectCleanup, bind, getState.
  destruct (dataSubscription (ui w)) eqn:D; [|apply follows_refl].
  intros (A & B & C). unfold tracked. cbn [emit ui trace live snd fst].
  rewrite D. repeat split; [exact A | discriminate | discriminate].
Qed.

(** What the user, the device and React do to the screen. *)
Inductive Action : Type :=
| Initialize
| FetchPaired
| Scan
| StopScan
| Connect (device : BluetoothDevice)
| Disconnect
| Remove (device : BluetoothDevice)
| Data (now payload : str)
| Cleanup.

(** The function an action runs, with the state of the render it was
    created in. *)
Definition act (p : Platform) (r : Radio) (snap : State) (a : Action) : M unit :=
  match a with
  | Initialize => initializeApp p snap
  | FetchPaired => fetchPairedDevices p snap
  | Scan => scanForDevices p r snap
  | StopScan => stopScanning r
  | Connect device => connectToDevice p snap device
  | Disconnect => disconnectDevice r snap
  | Remove device => removePairedDevice p r snap device
  | Data now payload => onDataReceived now payload
  | Cleanup => effectCleanup
  end.

Fixpoint session (p : Platform) (r : Radio) (steps : list (State * Action))
    (w : World) : World :=
  match steps with
  | [] => w
  | (snap, a) :: rest => session p r rest (snd (act p r snap a w))
  end.

Definition isCleanup (a : Action) : bool :=
  match a with Cleanup => true | _ => false end.

Definition cleanupFree (steps : list (State * Action)) : bool :=
  forallb (fun step => negb (isCleanup (snd step))) steps.

Lemma session_tracked (p : Platform) (r : Radio) (exact : bool)
    (steps : list (State * Action)) (w : World) :
  responsive p -> attentive r -> (forall t, getBondedDevices p t <> Never) ->
  (exact = true -> cleanupFree steps = true) ->
  tracked exact w -> tracked exact (session p r steps w).
Proof.
  intros answers listens bondedAnswers.
  revert w. induction steps as [|[snap a] rest IH]; intros w Free T; [exact T|].
  cbn [session]. apply IH.
  { intros E. specialize (Free E). cbn [cleanupFree forallb] in Free.
    apply andb_true_iff in Free. apply Free. }
  assert (Q : quietBy (follows exact) (act p r snap a)).
  { destruct a; cbn [act].
    - apply follow_init; assumption.
    - apply follow_fetch; assumption.
    - apply follow_scan; assumption.
    - apply follow_stop; assumption.
    - apply follow_connect; assumption.
    - apply follow_disconnect; assumption.
    - apply follow_remove; assumption.
    - apply follow_data.
    - destruct exact; [|apply follow_cleanup].
      specialize (Free eq_refl). discriminate. }
  specialize (Q w). destruct (act p r snap a w) as [[[]|e|] w']; try contradiction.
  apply Q, T.
Qed.

(** X26. Whatever the user does, in whatever order and from whatever
    render, the screen never has two data listeners: after any sequence of
    initializations, fetches, scans, connections, disconnections, removals,
    received payloads and effect cleanups, at most one listener is installed
    and not removed, and none when [dataSubscription] is null.  As long as
    no cleanup has run, a [dataSubscription] that is set is a listener that
    is installed; after a cleanup it need not be.  The platform and the
    radio are assumed to answer the calls that are awaited without a
    timer. *)
Theorem one_listener_at_most (p : Platform) (r : Radio)
    (steps : list (State * Action)) (w : World) :
  responsive p -> attentive r -> (forall t, getBondedDevices p t <> Never) ->
  tracked true w ->
  let w' := session p r steps w in
  live false (trace w') <= 1 /\
  (dataSubscription (ui w') = None -> live false (trace w') = 0) /\
  (cleanupFree steps = true -> dataSubscription (ui w') <> None ->
   live false (trace w') = 1).
Proof.
  intros answers listens bondedAnswers T w'. subst w'.
  destruct (session_tracked p r (cleanupFree steps) steps w answers listens
              bondedAnswers (fun E => E) (tracked_weaken _ w T))
    as (A & B & C).
  split; [|split; assumption].
  pose proof (live_bounds (trace (session p r steps w))). lia.
Qed.

(** ** After the cleanup of the effect *)

(** The connected device and the subscription are the same, and so are the
    listeners. *)
Definition plugged (w w' : World) : Prop :=
  connectedDevice (ui w') = connectedDevice (ui w) /\
  dataSubscription (ui w') = dataSubscription (ui w) /\
  forall b, live b (trace w') = live b (trace w).

Lemma plugged_refl w : plugged w w.
Proof. repeat split. Qed.

Lemma plugged_trans w1 w2 w3 : plugged w1 w2 -> plugged w2 w3 -> plugged w1 w3.
Proof.
  intros (C1 & D1 & L1) (C2 & D2 & L2).
  split; [congruence|]. split; [congruence|].
  intros b. rewrite L2. apply L1.
Qed.

Lemma core_plugged w w' : keeps core w w' -> plugged w w'.
Proof.
  unfold keeps, core. intros E. injection E as C D _ _ W.
  repeat split; try assumption.
  intros b. rewrite <- !live_wires, W. reflexivity.
Qed.

Section Lost.

Variable p : Platform.
Variable snap : State.
Hypothesis answers : responsive p.
Hypothesis bondedAnswers : forall t, getBondedDevices p t <> Never.

(** No call of [device.connect()] is confirmed in time. *)
Hypothesis unreachable : forall device t, ~ connectedAt p device t.

Lemma plugged_connect device : quietBy plugged (connectToDevice p snap device).
Proof.
  intros w. pose proof (connect_ends p snap answers device w) as H.
  unfold post in H. destruct (connectToDevice p snap device w) as [res w'].
  simpl in H. destruct H as [-> E].
  destruct E as [K _ | t _ C D W _ _ _ | t _ _ _ _ _ Ca _ _
                | t e _ _ _ _ _ _ Ca _ _].
  - destruct (wiring_inv _ _ K) as (_ & C & D & W).
    repeat split; try assumption.
    intros b. rewrite <- !live_wires, W. reflexivity.
  - repeat split; try assumption.
    intros b. rewrite <- !live_wires, W. reflexivity.
  - destruct (unreachable device t Ca).
  - destruct (unreachable device t Ca).
Qed.

(** X28. Provided the platform answers the calls that are awaited
    without a timer ([isBluetoothEnabled], the permission request,
    [AsyncStorage] and [getBondedDevices]): when the effect of the screen
    runs again (its cleanup, then [initializeApp]) and no [device.connect()]
    is confirmed, the run returns and the screen is left without any data
    listener although the connected device and [dataSubscription] are the
    ones there were: the cleanup removed the listener, and only a confirmed
    connection installs one again. *)
Theorem listener_lost_after_cleanup (w : World) :
  tracked true w ->
  let out := (effectCleanup ;; initializeApp p snap) w in
  fst out = Val tt /\
  connectedDevice (ui (snd out)) = connectedDevice (ui w) /\
  dataSubscription (ui (snd out)) = dataSubscription (ui w) /\
  live false (trace (snd out)) = 0.
Proof.
  intros (A & B & _) out. subst out.
  pose proof (init_by plugged plugged_refl plugged_trans core_plugged p snap
                answers bondedAnswers (fun w0 => plugged_refl _) plugged_connect)
    as Q.
  unfold bind. rewrite effectCleanup_run.
  destruct (dataSubscription (ui w)) eqn:D.
  - specialize (Q (mkWorld (ui w) (calls w) (EvUnsubscribe :: trace w))).
    destruct (initializeApp p snap _) as [[[]|e|] w']; try contradiction.
    destruct Q as (C' & D' & L'). cbn [ui trace fst snd] in *.
    split; [reflexivity|]. split; [exact C'|]. split; [congruence|].
    rewrite L'. exact A.
  - specialize (Q w).
    destruct (initializeApp p snap w) as [[[]|e|] w']; try contradiction.
    destruct Q as (C' & D' & L'). cbn [fst snd].
    split; [reflexivity|]. split; [exact C'|]. split; [congruence|].
    rewrite L'. apply B. reflexivity.
Qed.

End Lost.

(** ** Removing a paired device *)

Definition pairedOnly (w : World) : list BluetoothDevice := pairedDevices (ui w).

Lemma pairedOnly_tolerant : tolerant pairedOnly.
Proof. constructor; intros; reflexivity. Qed.

Lemma withoutAddress_spec device paired d :
  In d (withoutAddress device paired) <->
  In d paired /\ address d <> address device.
Proof.
  unfold withoutAddress. rewrite filter_In, negb_true_iff.
  split; intros [I H]; (split; [exact I|]).
  - intros E. apply eqs_true in E. congruence.
  - destruct (eqs (address d) (address device)) eqn:E; [|reflexivity].
    apply eqs_true in E. contradiction.
Qed.

Section Remove.

Variable p : Platform.
Variable r : Radio.
Variable snap : State.
Hypothesis answers : responsive p.
Hypothesis listens : attentive r.
Variable device : BluetoothDevice.

Lemma post_disconnectDevice w (Q : Res unit -> World -> Prop) :
  (forall w', pairedDevices (ui w') = pairedDevices (ui w) -> Q (Val tt) w') ->
  post (disconnectDevice r snap) w Q.
Proof.
  intros K. pose proof (disconnect_ends r snap listens w) as H.
  unfold post, disconnected in *.
  destruct (disconnectDevice r snap w) as [res w']. simpl in *.
  destruct H as (-> & _ & P & _). apply K, P.
Qed.

Definition removedStatus : str :=
  lit "Successfully removed " ++ nameOrAddress device ++ lit ".".

(** The three ways a removal that started in [w] ends. *)
Inductive Removal (w w' : World) : Prop :=
| Denied :
    pairedDevices (ui w') = pairedDevices (ui w) ->
    (grants p -> False) ->
    Removal w w'
| StillPaired (t : nat) :
    pairedDevices (ui w') = pairedDevices (ui w) ->
    (forall ms, unpairDevice r t (address device) <> Settles ms (Resolved true)) ->
    Removal w w'
| Unpaired (t : nat) (ms : N) :
    (refuses p -> False) ->
    unpairDevice r t (address device) = Settles ms (Resolved true) ->
    pairedDevices (ui w') = withoutAddress device (pairedDevices snap) ->
    status (ui w') = removedStatus ->
    In (EvStorageSet (lit "pairedDevices")
          (jsonStringify p (withoutAddress device (pairedDevices snap))))
       (trace w') ->
    Removal w w'.

Definition removalEnds (w : World) (res : Res unit) (w' : World) : Prop :=
  res = Val tt /\ Removal w w'.

Lemma remove_ends w : post (removePairedDevice p r snap device) w (removalEnds w).
Proof.
  unfold removePairedDevice.
  apply post_tryCatch, post_bind, post_setStatus, post_bind.
  apply (post_requestPermissions_init p snap answers pairedOnly pairedOnly_tolerant).
  intros granted w1 K1 G1 R1. unfold keeps, pairedOnly in K1.
  cbn [withStatus ui pairedDevices] in K1.
  destruct granted; cbn [negb].
  2:{ apply post_setStatus. split; [reflexivity|].
      apply Denied; [exact K1|]. intros G. specialize (G1 G). discriminate. }
  assert (NR : refuses p -> False) by (intros H; specialize (R1 H); discriminate).
  apply post_bind.
  assert (Step : forall w2, pairedDevices (ui w2) = pairedDevices (ui w) ->
            post (removed <-
                    awaitRadio (fun t => awaited Unpairing
                                           (unpairDevice r t (address device))) ;;
                  if removed then
                    let updatedPairedDevices :=
                      withoutAddress device (pairedDevices snap) in
                    setPairedDevices updatedPairedDevices ;;
                    savePairedDevices p updatedPairedDevices ;;
                    setStatus (lit "Successfully removed " ++ nameOrAddress device
                                 ++ lit ".")
                  else setStatus (lit "Failed to remove " ++ nameOrAddress device))
              w2
              (fun res w' =>
                 match res with
                 | Exn e =>
                     post (setStatus (lit "Error removing paired device.")) w'
                       (removalEnds w)
                 | Val a => removalEnds w (Val a) w'
                 | Suspended => removalEnds w Suspended w'
                 end)).
  { intros w2 K2. apply post_bind, post_awaitRadio_cases.
    - intros ms removed E. destruct removed.
      + cbv zeta.
        apply post_bind, post_setPairedDevices.
        apply post_bind, (post_savePairedDevices p answers). intros w3 U3 T3.
        apply post_setStatus. split; [reflexivity|].
        apply (Unpaired _ _ (calls w2) ms); [exact NR | exact E | | |].
        * cbn [withStatus ui pairedDevices]. rewrite U3. reflexivity.
        * reflexivity.
        * cbn [withStatus trace]. rewrite T3. right. left. reflexivity.
      + apply post_setStatus. split; [reflexivity|].
        apply (StillPaired _ _ (calls w2)); [exact K2|].
        intros ms' E'. change (awaited Unpairing ?q) with q in E. congruence.
    - intros ms err E. apply post_setStatus. split; [reflexivity|].
      apply (StillPaired _ _ (calls w2)); [exact K2|].
      intros ms' E'. change (awaited Unpairing ?q) with q in E. congruence.
    - intros E. exfalso. revert E. apply listens. }
  destruct (connectedDevice snap) as [c|];
    [destruct (eqs (address c) (address device))|].
  - apply post_disconnectDevice. intros w2 K2. apply Step. congruence.
  - apply post_ret, Step, K1.
  - apply post_ret, Step, K1.
Qed.

(** X27. Provided the platform and the radio answer the calls that are
    awaited without a timer, [removePairedDevice] returns.  When the
    permissions are refused, and when no call of [unpairDevice] resolves
    with [true], the list of paired devices is the one there was, even if
    the device has been disconnected on the way.  When the permissions are
    granted and [unpairDevice] resolves with [true], the list becomes the
    paired list of the render without the devices that have the address of
    the removed one, the storage is asked to save that list, and the status
    reports the removal. *)
Theorem remove_only_when_unpaired (w : World) :
  let out := removePairedDevice p r snap device w in
  let remaining := withoutAddress device (pairedDevices snap) in
  fst out = Val tt /\
  (refuses p -> pairedDevices (ui (snd out)) = pairedDevices (ui w)) /\
  ((forall t ms, unpairDevice r t (address device) <> Settles ms (Resolved true)) ->
   pairedDevices (ui (snd out)) = pairedDevices (ui w)) /\
  (grants p ->
   (forall t, exists ms,
      unpairDevice r t (address device) = Settles ms (Resolved true)) ->
   pairedDevices (ui (snd out)) = remaining /\
   status (ui (snd out)) = removedStatus /\
   In (EvStorageSet (lit "pairedDevices") (jsonStringify p remaining))
      (trace (snd out)) /\
   forall d, In d (pairedDevices (ui (snd out))) <->
             In d (pairedDevices snap) /\ address d <> address device).
Proof.
  intros out remaining. subst out remaining.
  destruct (remove_ends w) as [R E]. split; [exact R|].
  destruct E as [Same NG | t Same Fails | t ms NR Done P St Saved].
  - split; [intros _; exact Same|]. split; [intros _; exact Same|].
    intros G. destruct (NG G).
  - split; [intros _; exact Same|]. split; [intros _; exact Same|].
    intros _ Always. destruct (Always t) as (ms & E). destruct (Fails ms E).
  - split; [intros H; destruct (NR H)|].
    split; [intros Never; destruct (Never t ms Done)|].
    intros _ _. split; [exact P|]. split; [exact St|]. split; [exact Saved|].
    intros d. rewrite P. apply withoutAddress_spec.
Qed.

End Remove.

(** ** A test bench *)

(** A radio that cancels in 30 ms, answers a discovery with [discovery], a
    disconnection with [off] and an unpairing with [unpair]. *)
Definition antenna (discovery : Timed (option (list BluetoothDevice)))
    (off unpair : Outcome bool) : Radio :=
  mkRadio (fun t => Settles 30 (Resolved true))
          (fun t => discovery)
          (fun t d => Settles 40 off)
          (fun t a => Settles 60 unpair)
          (fun e => lit "{}").

Lemma antenna_attentive discovery off unpair :
  attentive (antenna discovery off unpair).
Proof. repeat split; intros; discriminate. Defined.

(** The render of a ready screen that knows [probe] as paired. *)
Definition ready : State :=
  mkState true false [probe] [] None appReadyStatus None true []
    None (Some LogContext.initial).

Definition quietLab : Platform := bench Never (Resolved tt).

Lemma scan_always_ends_witness :
  let silent := antenna Never (Resolved true) (Resolved true) in
  let out := scanForDevices quietLab silent ready idle in
  fst out = Val tt /\
  link (snd out) = link idle /\
  (blocked ready ->
   calls (snd out) = calls idle /\
   isScanning (ui (snd out)) = isScanning (ui idle) /\
   unpairedDevices (ui (snd out)) = unpairedDevices (ui idle)) /\
  (~ blocked ready -> isScanning (ui (snd out)) = false).
Proof.
  intros silent.
  apply (scan_always_ends quietLab silent ready (bench_responsive _ _) idle).
  intros t. discriminate.
Defined.


Lemma disconnect_clears_or_keeps_witness :
  let radio := antenna Never (Resolved true) (Resolved true) in
  let out := disconnectDevice radio (ui busy) busy in
  fst out = Val tt /\
  others busy (snd out) /\
  pairedDevices (ui (snd out)) = pairedDevices (ui busy) /\
  match connectedDevice (ui busy) with
  | None => snd out = busy
  | Some d => Unplugged radio d busy (snd out)
  end.
Proof.
  intros radio.
  exact (disconnect_clears_or_keeps radio (ui busy) (antenna_attentive _ _ _) busy).
Defined.

Lemma one_listener_at_most_witness :
  let radio := antenna Never (Resolved true) (Resolved true) in
  let steps := [(initialState, Initialize); (ready, Connect probe);
                (ready, Data (lit "10:00:00") (lit "PPM 12"));
                (ready, Connect stranger); (ready, Cleanup);
                (ready, Initialize); (ui busy, Disconnect);
                (ready, Remove probe); (ready, Scan)] in
  let w' := session quietLab radio steps idle in
  live false (trace w') <= 1 /\
  (dataSubscription (ui w') = None -> live false (trace w') = 0) /\
  (cleanupFree steps = true -> dataSubscription (ui w') <> None ->
   live false (trace w') = 1).
Proof.
  intros radio steps.
  apply (one_listener_at_most quietLab radio steps idle).
  - apply bench_responsive.
  - apply antenna_attentive.
  - intros t. discriminate.
  - repeat split. intros _ N. destruct N. reflexivity.
Defined.

Lemma remove_only_when_unpaired_witness :
  let radio := antenna Never (Resolved true) (Resolved true) in
  let out := removePairedDevice quietLab radio (ui busy) probe busy in
  pairedDevices (ui busy) = [probe] /\
  pairedDevices (ui (snd out)) = [] /\
  status (ui (snd out)) = removedStatus probe.
Proof.
  intros radio.
  destruct (remove_only_when_unpaired quietLab radio (ui busy)
              (bench_responsive _ _) (antenna_attentive _ _ _) probe busy)
    as (_ & _ & _ & Done).
  destruct Done as (P & St & _).
  - apply bench_grants.
  - intros t. exists 60%N. reflexivity.
  - split; [reflexivity|]. split; [exact P | exact St].
Defined.

(** The probe is out of reach: nothing answers a connection. *)
Lemma listener_lost_after_cleanup_witness :
  let away := desk allGranted (Resolved (Some (address probe))) in
  let listening := mkWorld (ui busy) 7 [EvSubscribe stranger; EvConnect stranger] in
  let out := (effectCleanup ;; initializeApp away ready) listening in
  fst out = Val tt /\
  connectedDevice (ui (snd out)) = connectedDevice (ui listening) /\
  dataSubscription (ui (snd out)) = dataSubscription (ui listening) /\
  live false (trace (snd out)) = 0.
Proof.
  intros away listening.
  apply (listener_lost_after_cleanup away ready (desk_responsive _ _)).
  - intros t. discriminate.
  - intros device t (ms & E & _). discriminate.
  - split; [reflexivity|]. split; [discriminate | intros _ _; reflexivity].
Defined.

End ActionFacts.
